(** * Duplicate Reviewer: the duplicate-detection core, embedded in Rocq

    A shallow embedding of the TypeScript sources of the plugin:
    - [similarity/title.ts], [similarity/content.ts]: [normalizeTitle],
      [titleSimilarity], [extractBody], [contentSimilarity];
    - [scanner/index.ts]: [findTitleDuplicates] (inverted index and the
      earlier all-pairs version), [refineWithContent], [groupDuplicates],
      the exclusion helpers and [scanForDuplicates];
    - [cache.ts]: [CacheManager];
    - [main.ts]: the dismissal helpers and the cache-aware orchestration.

    Conventions of the embedding.
    - A JavaScript string is a sequence of code units; the embedding covers
      code units below 256 (one [ascii] each, read as Latin-1), so the
      character classes [\s], [\w], [\d], [[A-Z]] and [toLowerCase] are the
      restrictions of the JavaScript ones to that range.
    - A JavaScript [number] holding a similarity score or a threshold is a
      rational [Q]; the quotient [a / b] of two sizes is the fraction
      [a # b].  Counts and indices are [nat], timestamps are [N].  Such
      quotients are compared with each other and with a threshold as the
      fractions they are.  The sum of two scores, and the difference of two
      such sums that the comparator of [refineWithContent] returns, show
      the rounding of the IEEE 754 doubles (0.8 + 0.4 is above 1 + 0.2):
      they are computed in binary64 as the Standard Library specifies it
      ([SpecFloat]), a score [a # b] being the double quotient of [a] by
      [b].
    - A plain object written by [obj[key] = value] is a [gmap] that never
      gets the key [__proto__], which names the object's prototype.
    - [Set<T>] and [Map<K,V>] that are iterated are insertion-ordered lists
      without duplicates; maps that are only looked up are [gmap]s.
    - [async] functions run in a state-and-exception monad; the state of
      a task counts its suspensions, and an abort signal gives the value of
      [aborted] after each number of suspensions, since other tasks can
      abort it only while this one is suspended.
    - The host application ([App]) is a record of the four services the
      core calls; a read that rejects is [None] and is thrown by [read].

    Not embedded: the settings tab, the modals and the rendering of the
    review pane, pattern review and multi-pane comparison. *)

From Stdlib Require Import Ascii String QArith Qpower Zpower SpecFloat.
From Stdlib Require Import Permutation Sorted.
From stdpp Require Import gmap strings list fin_maps.

Local Open Scope list_scope.
Local Open Scope nat_scope.

(** ** Characters *)

Module Char.

Definition code (c : ascii) : nat := nat_of_ascii c.

Definition between (lo hi : nat) (c : ascii) : bool :=
  (lo <=? code c) && (code c <=? hi).

(** [\d] *)
Definition isDigit (c : ascii) : bool := between 48 57 c.

(** [[A-Z]] *)
Definition isUpper (c : ascii) : bool := between 65 90 c.

Definition isLower (c : ascii) : bool := between 97 122 c.

(** [\w] is [[A-Za-z0-9_]] *)
Definition isWord (c : ascii) : bool :=
  isUpper c || isLower c || isDigit c || (code c =? 95).

(** [\s], and the characters removed by [trim]: TAB, LF, VT, FF, CR,
    space and the no-break space. *)
Definition isSpace (c : ascii) : bool :=
  between 9 13 c || (code c =? 32) || (code c =? 160).

(** [toLowerCase] on one code unit: A-Z and the Latin-1 capitals. *)
Definition toLower (c : ascii) : ascii :=
  if isUpper c || between 192 214 c || between 216 222 c
  then ascii_of_nat (code c + 32)
  else c.

(** Match of the lower-case ASCII pattern letter [p] under the [i] flag:
    the letter itself or its capital. *)
Definition matchCI (p c : ascii) : bool :=
  bool_decide (c = p) || (isUpper c && bool_decide (toLower c = p)).

End Char.

(** ** Strings as lists of code units *)

Abbreviation chars := (list ascii).

Definition ofString (s : string) : chars := list_ascii_of_string s.
Definition toString (l : chars) : string := string_of_list_ascii l.

Module Str.

(** [s.startsWith(p)] *)
Fixpoint startsWith (p s : chars) : bool :=
  match p, s with
  | [], _ => true
  | a :: p', b :: s' => bool_decide (a = b) && startsWith p' s'
  | _ :: _, [] => false
  end.

(** [s.toLowerCase()] *)
Definition toLowerCase (s : chars) : chars := map Char.toLower s.

(** [s.substring(0, n)]; a negative [n] counts as 0. *)
Definition substring0 (n : Z) (s : chars) : chars := take (Z.to_nat n) s.

Fixpoint dropWhile (p : ascii -> bool) (s : chars) : chars :=
  match s with
  | [] => []
  | c :: s' => if p c then dropWhile p s' else s
  end.

(** [s.trim()] *)
Definition trim (s : chars) : chars :=
  rev (dropWhile Char.isSpace (rev (dropWhile Char.isSpace s))).

(** [parts.join(sep)] *)
Fixpoint join (sep : chars) (parts : list chars) : chars :=
  match parts with
  | [] => []
  | [p] => p
  | p :: rest => p ++ sep ++ join sep rest
  end.

(** [s.split(/\s+/)]: the pieces between maximal runs of white space.
    [cur] is the piece being read (reversed); [gap] tells that the
    previous character was white space. *)
Fixpoint splitWs (gap : bool) (cur : chars) (s : chars) : list chars :=
  match s with
  | [] => [rev cur]
  | c :: s' =>
      if Char.isSpace c
      then if gap then splitWs true cur s' else rev cur :: splitWs true [] s'
      else splitWs false (c :: cur) s'
  end.

Definition nonEmpty (s : chars) : bool :=
  match s with [] => false | _ => true end.

(** [s.split(/\s+/).filter(Boolean)] *)
Definition words (s : chars) : list chars :=
  List.filter nonEmpty (splitWs false [] s).

(** [s.split(sep)] for a non-empty separator string: non-overlapping
    occurrences, leftmost first.  [skip] counts the characters of an
    occurrence still to be passed over. *)
Fixpoint splitOn (sep : chars) (skip : nat) (cur : chars) (s : chars) : list chars :=
  match s with
  | [] => [rev cur]
  | c :: s' =>
      match skip with
      | S k => splitOn sep k cur s'
      | O =>
          if startsWith sep s
          then rev cur :: splitOn sep (length sep - 1) [] s'
          else splitOn sep 0 (c :: cur) s'
      end
  end.

Definition split (sep : chars) (s : chars) : list chars := splitOn sep 0 [] s.

(** [s.match(/\w+/g) || []]: the maximal runs of word characters. *)
Fixpoint matchWords (cur : chars) (s : chars) : list chars :=
  match s with
  | [] => if nonEmpty cur then [rev cur] else []
  | c :: s' =>
      if Char.isWord c then matchWords (c :: cur) s'
      else if nonEmpty cur then rev cur :: matchWords [] s'
      else matchWords [] s'
  end.

End Str.

(** ** similarity/title.ts *)

Module Title.
Import Char Str.

(** [s.replace(/\.md$/i, "")] *)
Definition stripMdExt (s : chars) : chars :=
  match rev s with
  | d :: m :: dot :: r =>
      if bool_decide (dot = "."%char) && matchCI "m" m && matchCI "d" d
      then rev r else s
  | _ => s
  end.

(** An optional single character at the head of the input ([\[?], [\]?]). *)
Definition optChar (c : ascii) (s : chars) : chars :=
  match s with
  | x :: s' => if bool_decide (x = c) then s' else s
  | [] => s
  end.

(** The longest prefix of characters of a class, and what follows it. *)
Fixpoint span (p : ascii -> bool) (s : chars) : chars * chars :=
  match s with
  | [] => ([], [])
  | c :: s' => if p c then let '(a, b) := span p s' in (c :: a, b) else ([], s)
  end.

(** [s.replace(/^\[?[A-Z]{2,4}\d+\]?\s*/, "")].  The pattern matches only
    at the start, and every way of matching takes the whole run of capital
    letters (a shorter take would meet a letter where a digit is needed),
    so the run must have 2 to 4 letters and be followed by a digit. *)
Definition stripIndexPrefix (s : chars) : chars :=
  let s1 := optChar "[" s in
  let '(letters, s2) := span isUpper s1 in
  if (2 <=? length letters) && (length letters <=? 4) then
    let '(digits, s3) := span isDigit s2 in
    if 1 <=? length digits then dropWhile isSpace (optChar "]" s3) else s
  else s.

(** [s.replace(/^\d+\.\d+\s*/, "")] *)
Definition stripNumPrefix (s : chars) : chars :=
  let '(int, s1) := span isDigit s in
  if 1 <=? length int then
    match s1 with
    | dot :: s2 =>
        if bool_decide (dot = "."%char) then
          let '(frac, s3) := span isDigit s2 in
          if 1 <=? length frac then dropWhile isSpace s3 else s
        else s
    | [] => s
    end
  else s.

(** [s.replace(/[^\w\s]/g, "")] *)
Definition stripPunct (s : chars) : chars :=
  List.filter (fun c => isWord c || isSpace c) s.

(** [s.split(/\s+/).filter(Boolean).join(" ")] *)
Definition collapseWs (s : chars) : chars := join [" "%char] (words s).

Definition normalizeChars (title : chars) : chars :=
  let normalized := title in
  let normalized := stripMdExt normalized in
  let normalized := stripIndexPrefix normalized in
  let normalized := stripNumPrefix normalized in
  let normalized := toLowerCase normalized in
  let normalized := stripPunct normalized in
  let normalized := collapseWs normalized in
  normalized.

Definition normalizeTitle (title : string) : string :=
  toString (normalizeChars (ofString title)).

End Title.

(** ** JavaScript collections and numbers *)

Module Js.

(** [set.has(x)] on a set kept as the list of its members. *)
Definition has `{EqDecision A} (x : A) (s : list A) : bool := bool_decide (x ∈ s).

(** [set.add(x)]: a new member goes last, a known one changes nothing. *)
Definition setAdd `{EqDecision A} (s : list A) (x : A) : list A :=
  if has x s then s else s ++ [x].

(** [new Set(array)] *)
Definition setOf `{EqDecision A} (l : list A) : list A := foldl setAdd [] l.

(** The quotient [a / b] of two sizes, [b] not zero. *)
Definition ratio (a b : nat) : Q := Z.of_nat a # Pos.of_nat b.

(** [x >= y], [x === y] and [x > 0] on numbers. *)
Definition geb (x y : Q) : bool := Qle_bool y x.
Definition numEq (x y : Q) : bool := Qeq_bool x y.
Definition positive (x : Q) : bool := negb (Qle_bool x 0).

(** [array.sort(compare)]: the sort is stable; [x], which stands before
    the members of [l], moves behind those [y] with [compare(x, y) > 0]. *)
Fixpoint insertSorted {A} (compare : A -> A -> Q) (x : A) (l : list A) : list A :=
  match l with
  | [] => [x]
  | y :: l' =>
      if positive (compare x y) then y :: insertSorted compare x l' else x :: l
  end.

Definition sort {A} (compare : A -> A -> Q) (l : list A) : list A :=
  foldr (insertSorted compare) [] l.

(** Code-unit order of strings, as used by [array.sort()] with no
    comparator: [ltb s t] tells that [s] sorts strictly before [t]. *)
Fixpoint ltb (s t : chars) : bool :=
  match s, t with
  | _, [] => false
  | [], _ :: _ => true
  | a :: s', b :: t' =>
      if Char.code a <? Char.code b then true
      else if Char.code b <? Char.code a then false
      else ltb s' t'
  end.

Fixpoint insertString (x : string) (l : list string) : list string :=
  match l with
  | [] => [x]
  | y :: l' =>
      if ltb (ofString y) (ofString x) then y :: insertString x l' else x :: l
  end.

(** [[...paths].sort()] *)
Definition sortStrings (l : list string) : list string := foldr insertString [] l.

(** [parts.join(sep)] on strings. *)
Definition joinStrings (sep : string) (parts : list string) : string :=
  toString (Str.join (ofString sep) (map ofString parts)).

(** [obj[key] = value] on a plain object made by [{}], [value] an object:
    the key [__proto__] is the accessor of [Object.prototype], so the
    assignment sets the prototype of [obj] and gives it no property of
    its own; [JSON.stringify] and [Object.entries] see own properties
    only. *)
Definition setProperty {A} (obj : gmap string A) (key : string) (value : A)
    : gmap string A :=
  if String.eqb key "__proto__" then obj else <[key := value]> obj.

End Js.

(** ** JavaScript numbers as IEEE 754 doubles *)

Module Double.

Definition prec : Z := 53.
Definition emax : Z := 1024.

Definition double : Type := spec_float.

(** The double of an integer, such as the size of a set. *)
Definition ofZ (z : Z) : double := binary_normalize prec emax z 0 false.

(** The double a score [a # b] stands for: [a / b], a quotient of
    doubles. *)
Definition ofQ (q : Q) : double :=
  SFdiv prec emax (ofZ (Qnum q)) (ofZ (Z.pos (Qden q))).

(** [x + y] and [x - y] *)
Definition add : double -> double -> double := SFadd prec emax.
Definition sub : double -> double -> double := SFsub prec emax.

(** [x || 0] for [x] a number or [undefined]: zero and [NaN] are falsy. *)
Definition orZero (x : option double) : double :=
  match x with
  | Some (S754_finite s m e) => S754_finite s m e
  | Some (S754_infinity s) => S754_infinity s
  | Some (S754_zero _) | Some S754_nan | None => S754_zero false
  end.

(** What [array.sort] reads of the number its comparator returns: the
    sign, with [NaN] taken for 0. *)
Definition signum (x : double) : Q :=
  match x with
  | S754_finite false _ _ | S754_infinity false => 1
  | S754_finite true _ _ | S754_infinity true => -1
  | S754_zero _ | S754_nan => 0
  end.

End Double.

(** ** types.ts *)

(** The part of Obsidian's [TFile] the plugin reads: [path], [basename] and
    [stat.mtime]. *)
Record TFile := mkFile { path : string; basename : string; mtime : N }.

Record TFolder := mkFolder { folder_path : string }.

Record DuplicateCandidate := mkCandidate {
  file1 : TFile;
  file2 : TFile;
  titleSimilarity : Q;
  contentSimilarity : option Q;      (* [None]: undefined *)
  likelyDuplicate : option bool;     (* [None]: undefined *)
}.

Record DuplicateGroup := mkGroup {
  normalizedTitle : string;
  originalTitles : list string;      (* a [Set<string>] *)
  files : list TFile;
  candidates : list DuplicateCandidate;
}.

Record DuplicateReviewerSettings := mkSettings {
  titleSimilarityThreshold : Q;
  enableContentSimilarity : bool;
  contentSimilarityThreshold : Q;
  contentCharsToAnalyze : Z;
  ignoredFolders : list string;
  commonPatterns : list string;
  maxComparisonPanes : Z;
}.

Definition DEFAULT_SETTINGS : DuplicateReviewerSettings := {|
  titleSimilarityThreshold := 8 # 10;
  enableContentSimilarity := false;
  contentSimilarityThreshold := 6 # 10;
  contentCharsToAnalyze := 1000;
  ignoredFolders := [".obsidian"; ".git"; ".trash"; "998 Readwise"]%string;
  commonPatterns := ["Notes"; "Untitled"; "Note"; "New Note"]%string;
  maxComparisonPanes := 3;
|}.

Inductive Stage := collecting | comparing | refining | grouping | done.

Record ScanProgress := mkProgress { stage : Stage; current : nat; total : nat }.

Record CacheSettings := mkCacheSettings {
  titleThreshold : Q;
  enableContent : bool;
  contentThreshold : Q;
  contentChars : Z;
}.

Record SerializedDuplicateGroup := mkSerialized {
  sg_normalizedTitle : string;
  sg_originalTitles : list string;
  filePaths : list string;
}.

Record CacheEntry := mkEntry {
  folderPath : string;
  scanTimestamp : N;
  fileCount : nat;
  maxMtime : N;
  groups : list SerializedDuplicateGroup;
  entrySettings : CacheSettings;     (* the field [settings] *)
}.

#[export] Instance TFile_eq_dec : EqDecision TFile.
Proof. solve_decision. Defined.

(** ** The host application *)

#[local] Set Warnings "-register-all".

(** A parsed YAML value, as far as [parseExclusionTargets] tells values
    apart: a string, an array, or anything else. *)
Inductive Yaml :=
| YString (s : string)
| YArray (items : list Yaml)
| YOther.

(** The read-only services of Obsidian's [App] used by the core.
    [cachedRead] is [None] where the promise rejects; [exclusionRaw] is the
    value of [getFileCache(file)?.frontmatter?.["duplicate-exclusion"]],
    [None] when it is null or undefined. *)
Record App := mkApp {
  getMarkdownFiles : list TFile;
  getFileByPath : string -> option TFile;
  cachedRead : TFile -> option string;
  exclusionRaw : TFile -> option Yaml;
}.

(** ** similarity/title.ts and similarity/content.ts *)

Module Similarity.
Import Char Str Js.

(** [new Set(norm.split(/\s+/).filter(Boolean))] *)
Definition wordsOf (norm : string) : list string :=
  setOf (map toString (words (ofString norm))).

Definition titleSimilarity (title1 title2 : string) : Q :=
  let norm1 := Title.normalizeTitle title1 in
  let norm2 := Title.normalizeTitle title2 in
  let words1 := wordsOf norm1 in
  let words2 := wordsOf norm2 in
  if (length words1 =? 0) || (length words2 =? 0) then 0%Q
  else
    let intersection := setOf (List.filter (fun x => has x words2) words1) in
    let union := setOf (words1 ++ words2) in
    ratio (length intersection) (length union).

Definition delimiter : chars := ofString "---".

Definition extractBody (content : chars) : chars :=
  if startsWith delimiter content then
    let parts := split delimiter content in
    if 3 <=? length parts
    then trim (join delimiter (drop 2 parts))
    else trim content
  else trim content.

(** [new Set(body.toLowerCase().match(/\w+/g)?.filter(Boolean) || [])] *)
Definition contentWords (body : chars) : list string :=
  setOf (map toString (List.filter nonEmpty (matchWords [] (toLowerCase body)))).

Definition contentSimilarity (content1 content2 : string) (maxChars : Z) : Q :=
  let body1 := substring0 maxChars (extractBody (ofString content1)) in
  let body2 := substring0 maxChars (extractBody (ofString content2)) in
  let words1 := contentWords body1 in
  let words2 := contentWords body2 in
  if (length words1 =? 0) || (length words2 =? 0) then 0%Q
  else
    let intersection := setOf (List.filter (fun x => has x words2) words1) in
    let union := setOf (words1 ++ words2) in
    ratio (length intersection) (length union).

End Similarity.

(** ** Asynchronous code: state, exceptions and the abort signal *)

Module Async.

Inductive result (A : Type) :=
| Ok (a : A)
| Throw (e : string).
Arguments Ok {A} a.
Arguments Throw {A} e.

(** A computation over a state [S] that returns or throws. *)
Definition M (S A : Type) : Type := S -> result A * S.

Definition ret {S A} (a : A) : M S A := fun s => (Ok a, s).

Definition throw {S A} (e : string) : M S A := fun s => (Throw e, s).

Definition bind {S A B} (c : M S A) (k : A -> M S B) : M S B :=
  fun s =>
    match c s with
    | (Ok a, s') => k a s'
    | (Throw e, s') => (Throw e, s')
    end.

(** [try { c } catch (e) { handler(e) }] *)
Definition tryCatch {S A} (c : M S A) (handler : string -> M S A) : M S A :=
  fun s =>
    match c s with
    | (Ok a, s') => (Ok a, s')
    | (Throw e, s') => handler e s'
    end.

(** [try { c } finally { f }] *)
Definition tryFinally {S A} (c : M S A) (f : M S unit) : M S A :=
  fun s =>
    match c s with
    | (r, s') =>
        match f s' with
        | (Ok _, s'') => (r, s'')
        | (Throw e, s'') => (Throw e, s'')
        end
    end.

Definition gets {S A} (f : S -> A) : M S A := fun s => (Ok (f s), s).

Definition modify {S} (f : S -> S) : M S unit := fun s => (Ok tt, f s).

(** Run a computation on a component of the state. *)
Definition zoom {S T A} (proj : T -> S) (inj : S -> T -> T) (c : M S A) : M T A :=
  fun t =>
    match c (proj t) with
    | (r, s') => (r, inj s' t)
    end.

(** The state of one task: the number of suspensions so far (each
    [await] of a timer or of I/O lets other tasks run, and they may abort
    the signal), and the progress events reported. *)
Record Task := mkTask { clock : nat; progress : list ScanProgress }.

(** An [AbortSignal], as the value of [aborted] after each number of
    suspensions. *)
Definition AbortSignal := nat -> bool.

(** [signal?.aborted] *)
Definition aborted (signal : option AbortSignal) : M Task bool :=
  gets (fun t => match signal with Some s => s (clock t) | None => false end).

Definition suspend : M Task unit :=
  modify (fun t => {| clock := S (clock t); progress := progress t |}).

(** [await yieldToEventLoop()] *)
Definition yieldToEventLoop : M Task unit := suspend.

(** [if (onProgress) onProgress(p)]; the callback records the event. *)
Definition report (onProgress : bool) (p : ScanProgress) : M Task unit :=
  if onProgress
  then modify (fun t => {| clock := clock t; progress := progress t ++ [p] |})
  else ret tt.

(** [await app.vault.cachedRead(file)] *)
Definition read (app : App) (file : TFile) : M Task string :=
  bind suspend (fun _ =>
    match cachedRead app file with
    | Some content => ret content
    | None => throw "cachedRead"
    end).

End Async.

Declare Scope async_scope.
Delimit Scope async_scope with async.
Notation "'let*' x ':=' c 'in' k" := (Async.bind c (fun x => k))
  (at level 10, x pattern, c at level 100, k at level 200) : async_scope.
Notation "c ';;' k" := (Async.bind c (fun _ => k))
  (at level 100, k at level 200, right associativity) : async_scope.

(** ** scanner/index.ts *)

Module Scanner.
Import Char Str Js Async.
Local Open Scope async_scope.

(** [s.includes(sub)] *)
Fixpoint includes (sub s : chars) : bool :=
  startsWith sub s ||
  match s with
  | [] => false
  | _ :: s' => includes sub s'
  end.

Definition shouldSkipPath (path : string) (ignoredFolders : list string) : bool :=
  if existsb (fun ignore => includes (ofString ignore) (ofString path)) ignoredFolders
  then true
  else
    let parts := split ["/"%char] (ofString path) in
    existsb (fun part => startsWith ["."%char] part) parts.

Definition collectMarkdownFiles (app : App) (folder : TFolder)
    (ignoredFolders : list string) : list TFile :=
  let prefix := if String.eqb (folder_path folder) "/" then ""%string
                else (folder_path folder ++ "/")%string in
  List.filter (fun file =>
      (String.eqb prefix "" || startsWith (ofString prefix) (ofString (path file)))
      && negb (shouldSkipPath (path file) ignoredFolders))
    (getMarkdownFiles app).

(** The normalised word set of a file name. *)
Definition wordSet (basename : string) : list string :=
  let norm := Title.normalizeTitle basename in
  Similarity.wordsOf norm.

(** The three locals the loop of [findTitleDuplicates] updates. *)
Record IndexState := mkIndexState {
  duplicates : list DuplicateCandidate;
  index : gmap string (list nat);
  wordSets : gmap nat (list string);
}.

(** The files already in the index that share a word with [words]. *)
Definition candidateIndices (index : gmap string (list nat))
    (words : list string) : list nat :=
  foldl (fun candidateIndices w =>
           match index !! w with
           | Some bucket => foldl setAdd candidateIndices bucket
           | None => candidateIndices
           end) [] words.

(** Jaccard similarity on two word sets, as the loop computes it. *)
Definition jaccard (words otherWords : list string) : Q :=
  let intersectionCount := length (List.filter (fun w => has w otherWords) words) in
  let unionSize := length words + length otherWords - intersectionCount in
  if unionSize =? 0 then 0%Q else ratio intersectionCount unionSize.

(** Scoring of the candidates of the file [file]. [wordSets.get(j)!] and
    [files[j]] are defined for every index that was put in a bucket. *)
Definition scoreCandidates (allFiles : list TFile) (titleThreshold : Q)
    (file : TFile) (words : list string) (wordSets : gmap nat (list string))
    (candidateIndices : list nat) (duplicates : list DuplicateCandidate)
    : list DuplicateCandidate :=
  foldl (fun duplicates j =>
           match wordSets !! j, allFiles !! j with
           | Some otherWords, Some fileJ =>
               let sim := jaccard words otherWords in
               if geb sim titleThreshold
               then duplicates ++ [mkCandidate fileJ file sim None None]
               else duplicates
           | _, _ => duplicates
           end) duplicates candidateIndices.

Definition insertIntoIndex (index : gmap string (list nat))
    (words : list string) (i : nat) : gmap string (list nat) :=
  foldl (fun index w =>
           match index !! w with
           | Some bucket => <[w := bucket ++ [i]]> index
           | None => <[w := [i]]> index
           end) index words.

(** The body of the loop for the file at index [i]. *)
Definition processFile (allFiles : list TFile) (titleThreshold : Q)
    (i : nat) (file : TFile) (st : IndexState) : IndexState :=
  let words := wordSet (basename file) in
  let wordSets := <[i := words]> (wordSets st) in
  let candidateIndices := candidateIndices (index st) words in
  let duplicates :=
    scoreCandidates allFiles titleThreshold file words wordSets
      candidateIndices (duplicates st) in
  let index := insertIntoIndex (index st) words i in
  mkIndexState duplicates index wordSets.

(** [for (let i = 0; i < files.length; i++)], from index [i] on; [rest]
    holds the files at the indices from [i]. *)
Fixpoint titleLoop (allFiles : list TFile) (titleThreshold : Q)
    (signal : option AbortSignal) (onProgress : bool)
    (rest : list TFile) (i : nat) (st : IndexState) : M Task IndexState :=
  match rest with
  | [] => ret st
  | file :: rest' =>
      let* stop := aborted signal in
      if (stop : bool) then ret st
      else
        let st' := processFile allFiles titleThreshold i file st in
        yieldToEventLoop ;;
        report onProgress (mkProgress comparing (i + 1) (length allFiles)) ;;
        titleLoop allFiles titleThreshold signal onProgress rest' (S i) st'
  end.

(** The inverted-index, single-pass [findTitleDuplicates]. *)
Definition findTitleDuplicates (files : list TFile) (titleThreshold : Q)
    (signal : option AbortSignal) (onProgress : bool)
    : M Task (list DuplicateCandidate) :=
  let* st := titleLoop files titleThreshold signal onProgress files 0
               (mkIndexState [] ∅ ∅) in
  ret (sort (fun a b => titleSimilarity b - titleSimilarity a)%Q (duplicates st)).

(** *** The earlier, all-pairs [findTitleDuplicates] *)

(** [[file1.path, file2.path].sort().join("|")] *)
Definition pairKey (file1 file2 : TFile) : string :=
  joinStrings "|" (sortStrings [path file1; path file2]).

(** The inner loop [for (let j = i + 1; ...)], over the files after
    [file1]. *)
Fixpoint naiveInner (titleThreshold : Q) (file1 : TFile) (rest : list TFile)
    (acc : list DuplicateCandidate * list string)
    : list DuplicateCandidate * list string :=
  match rest with
  | [] => acc
  | file2 :: rest' =>
      let '(duplicates, checkedPairs) := acc in
      let pairKey := pairKey file1 file2 in
      if has pairKey checkedPairs
      then naiveInner titleThreshold file1 rest' acc
      else
        let checkedPairs := setAdd checkedPairs pairKey in
        let tSim := Similarity.titleSimilarity (basename file1) (basename file2) in
        if geb tSim titleThreshold
        then naiveInner titleThreshold file1 rest'
               (duplicates ++ [mkCandidate file1 file2 tSim None None], checkedPairs)
        else naiveInner titleThreshold file1 rest' (duplicates, checkedPairs)
  end.

Fixpoint naiveOuter (titleThreshold : Q) (files : list TFile)
    (acc : list DuplicateCandidate * list string)
    : list DuplicateCandidate * list string :=
  match files with
  | [] => acc
  | file1 :: rest => naiveOuter titleThreshold rest (naiveInner titleThreshold file1 rest acc)
  end.

Definition findTitleDuplicatesNaive (files : list TFile) (titleThreshold : Q)
    : list DuplicateCandidate :=
  let '(duplicates, _) := naiveOuter titleThreshold files ([], []) in
  sort (fun a b => titleSimilarity b - titleSimilarity a)%Q duplicates.

(** *** Content refinement *)

(** [a.titleSimilarity + (a.contentSimilarity || 0)], a sum of doubles. *)
Definition combinedScore (c : DuplicateCandidate) : Double.double :=
  Double.add (Double.ofQ (titleSimilarity c))
    (Double.orZero (option_map Double.ofQ (contentSimilarity c))).

(** The [try] block and the [catch] block of the loop body; each returns
    [refined] after its [push]. *)
Definition refineItem (app : App) (contentThreshold : Q) (maxChars : Z)
    (item : DuplicateCandidate) (refined : list DuplicateCandidate)
    : M Task (list DuplicateCandidate) :=
  tryCatch
    (let* content1 := read app (file1 item) in
     let* content2 := read app (file2 item) in
     let cSim := Similarity.contentSimilarity content1 content2 maxChars in
     ret (refined ++
          [mkCandidate (file1 item) (file2 item) (titleSimilarity item)
             (Some cSim) (Some (geb cSim contentThreshold))]))
    (fun _ =>
     ret (refined ++
          [mkCandidate (file1 item) (file2 item) (titleSimilarity item)
             None (Some false)])).

Fixpoint refineLoop (app : App) (contentThreshold : Q) (maxChars : Z)
    (signal : option AbortSignal) (onProgress : bool) (total : nat)
    (rest : list DuplicateCandidate) (i : nat) (refined : list DuplicateCandidate)
    : M Task (list DuplicateCandidate) :=
  match rest with
  | [] => ret refined
  | item :: rest' =>
      let* stop := aborted signal in
      if (stop : bool) then ret refined
      else
        let* refined := refineItem app contentThreshold maxChars item refined in
        yieldToEventLoop ;;
        report onProgress (mkProgress refining (i + 1) total) ;;
        refineLoop app contentThreshold maxChars signal onProgress total rest' (S i) refined
  end.

Definition refineWithContent (app : App) (candidates : list DuplicateCandidate)
    (contentThreshold : Q) (maxChars : Z)
    (signal : option AbortSignal) (onProgress : bool)
    : M Task (list DuplicateCandidate) :=
  let* refined := refineLoop app contentThreshold maxChars signal onProgress
                    (length candidates) candidates 0 [] in
  ret (sort (fun a b =>
               let scoreA := combinedScore a in
               let scoreB := combinedScore b in
               Double.signum (Double.sub scoreB scoreA)) refined).

(** *** Grouping *)

(** [group.files.some((f) => f.path === p)] *)
Definition hasPath (p : string) (files : list TFile) : bool :=
  existsb (fun f => String.eqb (path f) p) files.

Definition pushFile (files : list TFile) (f : TFile) : list TFile :=
  if negb (hasPath (path f) files) then files ++ [f] else files.

(** The updates of the loop body on the group of the candidate. *)
Definition addToGroup (candidate : DuplicateCandidate) (group : DuplicateGroup)
    : DuplicateGroup :=
  let originalTitles := setAdd (originalTitles group) (basename (file1 candidate)) in
  let originalTitles := setAdd originalTitles (basename (file2 candidate)) in
  let candidates := candidates group ++ [candidate] in
  let files := pushFile (files group) (file1 candidate) in
  let files := pushFile files (file2 candidate) in
  mkGroup (normalizedTitle group) originalTitles files candidates.

(** One turn of the loop.  [titleGroups] is the [Map] from normalised
    title to group, as the list of its values in insertion order; the key
    of a group is its [normalizedTitle]. *)
Definition groupStep (titleGroups : list DuplicateGroup)
    (candidate : DuplicateCandidate) : list DuplicateGroup :=
  let normTitle := Title.normalizeTitle (basename (file1 candidate)) in
  let titleGroups :=
    if negb (existsb (fun g => String.eqb (normalizedTitle g) normTitle) titleGroups)
    then titleGroups ++ [mkGroup normTitle [] [] []]
    else titleGroups in
  map (fun g => if String.eqb (normalizedTitle g) normTitle
                then addToGroup candidate g else g) titleGroups.

Definition groupDuplicates (candidates : list DuplicateCandidate)
    : list DuplicateGroup :=
  let titleGroups := foldl groupStep [] candidates in
  sort (fun a b => inject_Z (Z.of_nat (length (files b)))
                   - inject_Z (Z.of_nat (length (files a))))%Q titleGroups.

Definition findByPattern (files : list TFile) (patterns : list string)
    : list TFile :=
  let lowerPatterns := map (fun p => toLowerCase (ofString p)) patterns in
  List.filter (fun file =>
      let lowerName := toLowerCase (ofString (basename file)) in
      existsb (fun pattern => includes pattern lowerName) lowerPatterns)
    files.

(** *** YAML exclusion helpers *)

(** [s.replace(/^\[\[/, "")] and [s.replace(/\]\]$/, "")] *)
Definition stripOpen (s : chars) : chars :=
  if startsWith (ofString "[[") s then drop 2 s else s.

Definition stripClose (s : chars) : chars :=
  if startsWith (ofString "]]") (rev s) then rev (drop 2 (rev s)) else s.

(** [s.substring(0, s.indexOf("|"))] when there is a pipe. *)
Fixpoint beforePipe (s : chars) : chars :=
  match s with
  | [] => []
  | c :: s' => if bool_decide (c = "|"%char) then [] else c :: beforePipe s'
  end.

Definition cleanTarget (value : string) : chars :=
  let s := trim (ofString value) in
  let s := stripClose (stripOpen s) in
  let s := beforePipe s in
  trim s.

Fixpoint walk (value : Yaml) (results : list string) : list string :=
  match value with
  | YString v =>
      let s := cleanTarget v in
      if nonEmpty s then results ++ [toString s] else results
  | YArray items =>
      (fix each (items : list Yaml) (results : list string) : list string :=
         match items with
         | [] => results
         | item :: items' => each items' (walk item results)
         end) items results
  | YOther => results
  end.

Definition parseExclusionTargets (raw : Yaml) : list string := walk raw [].

Definition resolveLink (app : App) (target : string) : option string :=
  match getFileByPath app target with
  | Some exact => Some (path exact)
  | None =>
      match getFileByPath app (target ++ ".md")%string with
      | Some exactMd => Some (path exactMd)
      | None =>
          let lowerTarget := toLowerCase (ofString target) in
          match List.find (fun file =>
                    bool_decide (toLowerCase (ofString (basename file)) = lowerTarget))
                  (getMarkdownFiles app) with
          | Some file => Some (path file)
          | None => None
          end
      end
  end.

(** A resolved path that is the empty string counts as not found
    ([if (path)]). *)
Definition resolveTargets (app : App) (targets : list string) : gset string :=
  foldl (fun resolved target =>
           match resolveLink app target with
           | Some p => if String.eqb p "" then resolved else resolved ∪ {[ p ]}
           | None => resolved
           end) ∅ targets.

Definition buildExclusionMap (app : App) (files : list TFile)
    : gmap string (gset string) :=
  foldl (fun map file =>
           match exclusionRaw app file with
           | None => map
           | Some raw =>
               let targets := parseExclusionTargets raw in
               let resolved := resolveTargets app targets in
               if 0 <? size resolved then <[path file := resolved]> map else map
           end) ∅ files.

(** [exc && exc.has(p)] *)
Definition lists (exc : option (gset string)) (p : string) : bool :=
  match exc with
  | Some set => bool_decide (p ∈ set)
  | None => false
  end.

(** The callback of the [filter]: [true] keeps the candidate. *)
Definition notExcluded (exclusionMap : gmap string (gset string))
    (c : DuplicateCandidate) : bool :=
  let exc1 := exclusionMap !! path (file1 c) in
  if lists exc1 (path (file2 c)) then false
  else
    let exc2 := exclusionMap !! path (file2 c) in
    if lists exc2 (path (file1 c)) then false
    else true.

Definition filterExcludedCandidates (candidates : list DuplicateCandidate)
    (exclusionMap : gmap string (gset string)) : list DuplicateCandidate :=
  List.filter (notExcluded exclusionMap) candidates.

(** *** Full scan *)

Definition scanForDuplicates (app : App) (folder : TFolder)
    (settings : DuplicateReviewerSettings) (refine : bool)
    (signal : option AbortSignal) (onProgress : bool)
    : M Task (list DuplicateGroup) :=
  let files := collectMarkdownFiles app folder (ignoredFolders settings) in
  if length files <? 2 then ret []
  else
    report onProgress (mkProgress collecting (length files) (length files)) ;;
    let* candidates :=
      findTitleDuplicates files (titleSimilarityThreshold settings) signal onProgress in
    let* stop := aborted signal in
    if (stop : bool) then ret []
    else
      let exclusionMap := buildExclusionMap app files in
      let candidates := filterExcludedCandidates candidates exclusionMap in
      let* candidates :=
        if refine && (0 <? length candidates)
        then refineWithContent app candidates
               (contentSimilarityThreshold settings)
               (contentCharsToAnalyze settings) signal onProgress
        else ret candidates in
      let* stop := aborted signal in
      if (stop : bool) then ret []
      else
        report onProgress (mkProgress grouping 0 (length candidates)) ;;
        let groups := groupDuplicates candidates in
        report onProgress (mkProgress done (length groups) (length groups)) ;;
        ret groups.

End Scanner.

(** ** cache.ts *)

Module Cache.
Import Str Js Async.

(** The two fields of [CacheManager] that change: the [Map] of entries
    and the [Set] of dirty paths. *)
Record CacheManager := mkCache {
  entries : gmap string CacheEntry;
  dirtyPaths : gset string;
}.

(** [let maxMtime = 0; for (const f of files) if (f.stat.mtime > maxMtime) ...] *)
Definition maxMtimeOf (files : list TFile) : N :=
  foldl (fun maxMtime f => if (maxMtime <? mtime f)%N then mtime f else maxMtime)
    0%N files.

Definition settingsDiffer (cached : CacheSettings)
    (settings : DuplicateReviewerSettings) : bool :=
  negb (numEq (titleThreshold cached) (titleSimilarityThreshold settings))
  || negb (eqb (enableContent cached) (enableContentSimilarity settings))
  || negb (numEq (contentThreshold cached) (contentSimilarityThreshold settings))
  || negb (contentChars cached =? contentCharsToAnalyze settings)%Z.

Definition isValid (this : CacheManager) (entry : CacheEntry)
    (currentFiles : list TFile) (settings : DuplicateReviewerSettings) : bool :=
  if (0 <? size (dirtyPaths this))
     && (String.eqb (folderPath entry) "/"
         || let prefix := (folderPath entry ++ "/")%string in
            existsb (fun dirtyPath => startsWith (ofString prefix) (ofString dirtyPath))
              (elements (dirtyPaths this)))
  then false
  else if negb (length currentFiles =? fileCount entry) then false
  else if negb (maxMtimeOf currentFiles =? maxMtime entry)%N then false
  else if settingsDiffer (entrySettings entry) settings then false
  else true.

Definition serializeGroup (g : DuplicateGroup) : SerializedDuplicateGroup :=
  {| sg_normalizedTitle := normalizedTitle g;
     sg_originalTitles := originalTitles g;
     filePaths := map path (files g) |}.

(** [put]; [now] is the value of [Date.now()]. *)
Definition put (this : CacheManager) (now : N) (folderPath : string)
    (files : list TFile) (groups : list DuplicateGroup)
    (settings : DuplicateReviewerSettings) : CacheManager :=
  let maxMtime := maxMtimeOf files in
  let serializedGroups := map serializeGroup groups in
  let entry :=
    {| folderPath := folderPath;
       scanTimestamp := now;
       fileCount := length files;
       maxMtime := maxMtime;
       groups := serializedGroups;
       entrySettings :=
         {| titleThreshold := titleSimilarityThreshold settings;
            enableContent := enableContentSimilarity settings;
            contentThreshold := contentSimilarityThreshold settings;
            contentChars := contentCharsToAnalyze settings |} |} in
  mkCache (<[folderPath := entry]> (entries this)) (dirtyPaths this).

(** The files of one stored group that still resolve. *)
Definition resolvePaths (app : App) (paths : list string) : list TFile :=
  foldl (fun files path =>
           match getFileByPath app path with
           | Some file => files ++ [file]
           | None => files
           end) [] paths.

Definition deserialize (app : App) (entry : CacheEntry) : list DuplicateGroup :=
  foldl (fun groups sg =>
           let files := resolvePaths app (filePaths sg) in
           if length files <? 2 then groups
           else groups ++ [mkGroup (sg_normalizedTitle sg) (setOf (sg_originalTitles sg))
                             files []])
    [] (groups entry).

(** [get]: the groups, or [None] for [null]; and the manager afterwards. *)
Definition get (this : CacheManager) (app : App) (folderPath : string)
    (currentFiles : list TFile) (settings : DuplicateReviewerSettings)
    : option (list DuplicateGroup) * CacheManager :=
  match entries this !! folderPath with
  | None => (None, this)
  | Some entry =>
      if negb (isValid this entry currentFiles settings)
      then (None, mkCache (delete folderPath (entries this)) (dirtyPaths this))
      else (Some (deserialize app entry), this)
  end.

Definition size (this : CacheManager) : nat := stdpp.base.size (entries this).

Definition clearDirtyPathsForFolder (this : CacheManager) (folderPath : string)
    : CacheManager :=
  if String.eqb folderPath "/" then mkCache (entries this) ∅
  else
    let prefix := (folderPath ++ "/")%string in
    mkCache (entries this)
      (filter (fun path => ¬ Is_true (startsWith (ofString prefix) (ofString path)))
         (dirtyPaths this)).

Definition clear (this : CacheManager) : CacheManager := mkCache ∅ ∅.

(** [this.dirtyPaths.add(path)], as the handlers of the vault's create,
    delete, modify and rename events in main.ts do for a markdown file. *)
Definition markDirty (this : CacheManager) (path : string) : CacheManager :=
  mkCache (entries this) (dirtyPaths this ∪ {[ path ]}).

End Cache.

(** ** main.ts *)

Module Main.
Import Str Js Async.
Local Open Scope async_scope.

(** The plugin's [data.json]: the cache section and the dismissals
    section, each absent until first written.  (The settings keys stored
    beside them are not read by the functions embedded here.) *)
Record Data := mkData {
  duplicateCache : option (gmap string CacheEntry);
  storedDismissedGroups : option (list (list string));
}.

(** What the review pane holds after [setGroups] and [showScanning]. *)
Record View := mkView {
  viewGroups : list DuplicateGroup;
  currentFolder : string;
  scanInProgress : bool;
  resultFromCache : bool;
}.

(** The notices shown, by kind; counts stand for the formatted text. *)
Inductive Notice :=
| NoDuplicatesCached
| FoundCached (groupCount fileCount : nat)
| Scanning (folderPath : string)
| NoDuplicates
| Found (groupCount fileCount : nat)
| ScanError (message : string)
| BuildingCache (folderPath : string)
| CacheBuilt (folderPath : string) (groupCount fileCount : nat)
| CacheBuildFailed (message : string).

Record Plugin := mkPlugin {
  settings : DuplicateReviewerSettings;
  cacheManager : Cache.CacheManager;
  duplicateReviewView : option View;
  scanControllers : gset string;           (* the keys with a scan in flight *)
  dismissedGroups : list (list string);
  dismissedSet : gset string;
  data : Data;
  notices : list Notice;
  task : Task;
}.

Definition withCache (cm : Cache.CacheManager) (p : Plugin) : Plugin :=
  mkPlugin (settings p) cm (duplicateReviewView p) (scanControllers p)
    (dismissedGroups p) (dismissedSet p) (data p) (notices p) (task p).

Definition withView (v : option View) (p : Plugin) : Plugin :=
  mkPlugin (settings p) (cacheManager p) v (scanControllers p)
    (dismissedGroups p) (dismissedSet p) (data p) (notices p) (task p).

Definition withControllers (c : gset string) (p : Plugin) : Plugin :=
  mkPlugin (settings p) (cacheManager p) (duplicateReviewView p) c
    (dismissedGroups p) (dismissedSet p) (data p) (notices p) (task p).

Definition withDismissals (groups : list (list string)) (set : gset string)
    (p : Plugin) : Plugin :=
  mkPlugin (settings p) (cacheManager p) (duplicateReviewView p) (scanControllers p)
    groups set (data p) (notices p) (task p).

Definition withData (d : Data) (p : Plugin) : Plugin :=
  mkPlugin (settings p) (cacheManager p) (duplicateReviewView p) (scanControllers p)
    (dismissedGroups p) (dismissedSet p) d (notices p) (task p).

Definition withNotices (n : list Notice) (p : Plugin) : Plugin :=
  mkPlugin (settings p) (cacheManager p) (duplicateReviewView p) (scanControllers p)
    (dismissedGroups p) (dismissedSet p) (data p) n (task p).

Definition withTask (t : Task) (p : Plugin) : Plugin :=
  mkPlugin (settings p) (cacheManager p) (duplicateReviewView p) (scanControllers p)
    (dismissedGroups p) (dismissedSet p) (data p) (notices p) t.

(** A scanner task run by the plugin. *)
Definition onTask {A} (c : M Task A) : M Plugin A := zoom task withTask c.

Definition notice (n : Notice) : M Plugin unit :=
  modify (fun p => withNotices (notices p ++ [n]) p).

(** *** Dismissal helpers *)

(** The separator of the lookup keys: the NUL character. *)
Definition NUL : string := String (ascii_of_nat 0) EmptyString.

(** [[...paths].sort().join("\0")] *)
Definition dismissalKey (paths : list string) : string :=
  joinStrings NUL (sortStrings paths).

Definition rebuildDismissalSet (p : Plugin) : Plugin :=
  withDismissals (dismissedGroups p)
    (foldl (fun set group => set ∪ {[ dismissalKey group ]}) ∅ (dismissedGroups p)) p.

(** [await this.loadData()] and [await this.saveData(data)] *)
Definition loadData : M Plugin Data := onTask suspend ;; gets data.

Definition saveData (d : Data) : M Plugin unit :=
  onTask suspend ;; modify (withData d).

Definition saveDismissals : M Plugin unit :=
  let* d := loadData in
  let* groups := gets dismissedGroups in
  saveData (mkData (duplicateCache d) (Some groups)).

(** The part of [loadSettings] that restores the dismissals. *)
Definition loadDismissals : M Plugin unit :=
  let* d := loadData in
  (match storedDismissedGroups d with
   | Some groups => modify (fun p => withDismissals groups (dismissedSet p) p)
   | None => ret tt
   end) ;;
  modify rebuildDismissalSet.

Definition dismissGroup (paths : list string) : M Plugin unit :=
  let sorted := sortStrings paths in
  modify (fun p => withDismissals (dismissedGroups p ++ [sorted])
                     (dismissedSet p ∪ {[ joinStrings NUL sorted ]}) p) ;;
  saveDismissals.

Definition isDismissed (p : Plugin) (paths : list string) : bool :=
  bool_decide (dismissalKey paths ∈ dismissedSet p).

Definition clearDismissals : M Plugin unit :=
  modify (withDismissals [] ∅) ;;
  saveDismissals.

Definition filterDismissedGroups (p : Plugin) (groups : list DuplicateGroup)
    : list DuplicateGroup :=
  List.filter (fun g => negb (isDismissed p (map path (files g)))) groups.

(** *** The cache manager's persistence ([CacheManager.load], [.save]) *)

Definition cacheLoad : M Plugin unit :=
  let* d := loadData in
  match duplicateCache d with
  | Some stored =>
      modify (fun p =>
        withCache (Cache.mkCache (stored ∪ Cache.entries (cacheManager p))
                     (Cache.dirtyPaths (cacheManager p))) p)
  | None => ret tt
  end.

Definition cacheSave : M Plugin unit :=
  let* d := loadData in
  let* entries := gets (fun p => Cache.entries (cacheManager p)) in
  let serialized :=
    map_fold (fun key entry serialized => setProperty serialized key entry)
      ∅ entries in
  saveData (mkData (Some serialized) (storedDismissedGroups d)).

(** *** View *)

(** [if (this.duplicateReviewView) this.duplicateReviewView.setGroups(...)] *)
Definition setGroups (groups : list DuplicateGroup) (folderPath : string)
    (fromCache : bool) : M Plugin unit :=
  modify (fun p =>
    match duplicateReviewView p with
    | Some _ => withView (Some (mkView groups folderPath false fromCache)) p
    | None => p
    end).

Definition showScanning (folderPath : string) : M Plugin unit :=
  modify (fun p =>
    match duplicateReviewView p with
    | Some _ => withView (Some (mkView [] folderPath true false)) p
    | None => p
    end).

(** [await this.activateView()]: the pane is revealed; none of the state
    above changes. *)
Definition activateView : M Plugin unit := onTask suspend.

Definition totalFiles (groups : list DuplicateGroup) : nat :=
  foldl (fun sum g => sum + length (files g)) 0 groups.

(** *** Cache-aware review *)

(** The body of the [try] block of [startDuplicateReview]. [signal] is the
    signal of the controller made for this scan, and [now] the value of
    [Date.now()] at the [put]. *)
Definition reviewScan (app : App) (now : N) (folder : TFolder)
    (folderPath cacheKey : string) (files : list TFile) (signal : AbortSignal)
    : M Plugin unit :=
  let* settings := gets settings in
  let* groups :=
    onTask (Scanner.scanForDuplicates app folder settings
              (enableContentSimilarity settings) (Some signal) true) in
  let* stop := onTask (aborted (Some signal)) in
  if (stop : bool) then ret tt
  else
    modify (fun p => withCache (Cache.put (cacheManager p) now cacheKey files groups
                                  settings) p) ;;
    modify (fun p => withCache (Cache.clearDirtyPathsForFolder (cacheManager p)
                                  cacheKey) p) ;;
    cacheSave ;;
    let* visible := gets (fun p => filterDismissedGroups p groups) in
    setGroups visible folderPath false ;;
    if length visible =? 0 then notice NoDuplicates
    else notice (Found (length visible) (totalFiles visible)).

(** [prev.abort()] aborts the signal of an earlier scan of the same key,
    which is that scan's oracle and no part of this state; of
    [scanControllers] the keys are kept. *)
Definition startDuplicateReview (app : App) (now : N) (folder : TFolder)
    (signal : AbortSignal) : M Plugin unit :=
  activateView ;;
  let folderPath := if String.eqb (folder_path folder) "/"
                    then "Entire vault"%string else folder_path folder in
  let cacheKey := folder_path folder in
  showScanning folderPath ;;
  let* settings := gets settings in
  let files := Scanner.collectMarkdownFiles app folder (ignoredFolders settings) in
  let* cached :=
    (fun p => let '(r, cm) := Cache.get (cacheManager p) app cacheKey files settings in
              (Ok r, withCache cm p)) in
  match cached with
  | Some cached =>
      let* visible := gets (fun p => filterDismissedGroups p cached) in
      setGroups visible folderPath true ;;
      if length visible =? 0 then notice NoDuplicatesCached
      else notice (FoundCached (length visible) (totalFiles visible))
  | None =>
      modify (fun p => withControllers (scanControllers p ∪ {[ cacheKey ]}) p) ;;
      notice (Scanning folderPath) ;;
      tryFinally
        (tryCatch
           (reviewScan app now folder folderPath cacheKey files signal)
           (fun error =>
              let* stop := onTask (aborted (Some signal)) in
              if (stop : bool) then ret tt else notice (ScanError error)))
        (modify (fun p => withControllers (scanControllers p ∖ {[ cacheKey ]}) p))
  end.

(** *** Background cache build *)

Definition buildScan (app : App) (now : N) (folder : TFolder)
    (folderPath cacheKey : string) (signal : AbortSignal) : M Plugin unit :=
  let* settings := gets settings in
  let files := Scanner.collectMarkdownFiles app folder (ignoredFolders settings) in
  let* groups :=
    onTask (Scanner.scanForDuplicates app folder settings
              (enableContentSimilarity settings) (Some signal) true) in
  let* stop := onTask (aborted (Some signal)) in
  if (stop : bool) then ret tt
  else
    modify (fun p => withCache (Cache.put (cacheManager p) now cacheKey files groups
                                  settings) p) ;;
    modify (fun p => withCache (Cache.clearDirtyPathsForFolder (cacheManager p)
                                  cacheKey) p) ;;
    cacheSave ;;
    notice (CacheBuilt folderPath (length groups) (totalFiles groups)) ;;
    let* visible := gets (fun p => filterDismissedGroups p groups) in
    setGroups visible folderPath false.

Definition buildCacheInBackground (app : App) (now : N) (folder : TFolder)
    (signal : AbortSignal) : M Plugin unit :=
  let folderPath := if String.eqb (folder_path folder) "/"
                    then "Entire vault"%string else folder_path folder in
  let cacheKey := folder_path folder in
  modify (fun p => withControllers (scanControllers p ∪ {[ cacheKey ]}) p) ;;
  notice (BuildingCache folderPath) ;;
  tryFinally
    (tryCatch
       (buildScan app now folder folderPath cacheKey signal)
       (fun error =>
          let* stop := onTask (aborted (Some signal)) in
          if (stop : bool) then ret tt else notice (CacheBuildFailed error)))
    (modify (fun p => withControllers (scanControllers p ∖ {[ cacheKey ]}) p)).

End Main.

(** ** cache.ts: the entries in their insertion order *)

(** [lastBuilt] and [getMostRecentFolderPath] iterate the [Map] of entries,
    which JavaScript does in insertion order; [entries] is the list of its
    key-entry pairs in that order. *)
Module Recent.

Definition lastBuilt (entries : list (string * CacheEntry)) : option N :=
  foldl (fun latest '(_, entry) =>
           match latest with
           | None => Some (scanTimestamp entry)
           | Some l =>
               if (l <? scanTimestamp entry)%N then Some (scanTimestamp entry)
               else latest
           end) None entries.

Definition getMostRecentFolderPath (entries : list (string * CacheEntry))
    : option string :=
  let '(_, latestKey) :=
    foldl (fun '(latestTimestamp, latestKey) '(key, entry) =>
             if (latestTimestamp <? Z.of_N (scanTimestamp entry))%Z
             then (Z.of_N (scanTimestamp entry), Some key)
             else (latestTimestamp, latestKey))
      ((-1)%Z, None) entries in
  latestKey.

End Recent.

(** ** main.ts: the vault's change events *)

Module Events.
Import Main.

(** Obsidian's [TAbstractFile]: a file with its extension, or a folder. *)
Inductive TAbstractFile :=
| IsFile (file : TFile) (extension : string)
| IsFolder (folder : TFolder).

(** The handler [markDirty] of the create, delete and modify events. *)
Definition markDirty (file : TAbstractFile) (p : Plugin) : Plugin :=
  match file with
  | IsFile f extension =>
      if String.eqb extension "md"
      then withCache (Cache.markDirty (cacheManager p) (path f)) p
      else p
  | IsFolder _ => p
  end.

(** The handler of the rename event. *)
Definition onRename (file : TAbstractFile) (oldPath : string) (p : Plugin) : Plugin :=
  match file with
  | IsFile f extension =>
      if String.eqb extension "md"
      then withCache (Cache.markDirty (Cache.markDirty (cacheManager p) (path f))
                        oldPath) p
      else p
  | IsFolder _ => p
  end.

End Events.

(** ** The specification's wording, for comparison with the code *)

Module Stated.
Import Char Str Js.

Definition newline : ascii := "010"%char.

(** [s], which starts at the beginning of a line, starts with a delimiter
    line: three hyphens, and then the end of the line or of the text. *)
Definition delimiterLine (s : chars) : bool :=
  startsWith Similarity.delimiter s
  && match drop 3 s with
     | [] => true
     | c :: _ => bool_decide (c = newline)
     end.

(** The text after the first delimiter line of [s], if there is one;
    [lineStart] tells that [s] starts at the beginning of a line. *)
Fixpoint afterDelimiterLine (lineStart : bool) (s : chars) : option chars :=
  match s with
  | [] => None
  | c :: s' =>
      if lineStart && delimiterLine s then Some (drop 4 s)
      else afterDelimiterLine (bool_decide (c = newline)) s'
  end.

(** The body as the specification words it: everything after the second
    delimiter line when the content begins with a delimiter line and a
    second one exists, otherwise the whole content. *)
Definition body (content : chars) : chars :=
  if delimiterLine content then
    match afterDelimiterLine true (drop 4 content) with
    | Some rest => rest
    | None => content
    end
  else content.

(** Up to its first delimiter line, [s] holds no three hyphens in a
    row. *)
Fixpoint plainUntilDelimiterLine (lineStart : bool) (s : chars) : bool :=
  match s with
  | [] => true
  | c :: s' =>
      if lineStart && delimiterLine s then true
      else negb (startsWith Similarity.delimiter s)
           && plainUntilDelimiterLine (bool_decide (c = newline)) s'
  end.

(** Three hyphens in a row occur in the front matter only as its
    delimiter lines: the content does not begin with three hyphens, or it
    begins with a delimiter line and holds no three hyphens in a row from
    there up to the next delimiter line. *)
Definition plainFrontMatter (content : chars) : bool :=
  negb (startsWith Similarity.delimiter content)
  || (delimiterLine content && plainUntilDelimiterLine true (drop 4 content)).

(** The token set of a title: the normalised title split on white
    space, empty tokens discarded, as a set. *)
Definition tokenSet (title : string) : gset string :=
  list_to_set (map toString (words (ofString (Title.normalizeTitle title)))).

(** Jaccard similarity of two sets: the size of the intersection over
    the size of the union. *)
Definition jaccard (A B : gset string) : Q := ratio (size (A ∩ B)) (size (A ∪ B)).

(** Two candidates are the same unordered pair of files. *)
Definition samePair (c d : DuplicateCandidate) : Prop :=
  (path (file1 c) = path (file1 d) /\ path (file2 c) = path (file2 d))
  \/ (path (file1 c) = path (file2 d) /\ path (file2 c) = path (file1 d)).




(** A path falls inside a scope: the scope is the root, or the path is
    the scope's folder path, a slash, and more. *)
Definition inScope (scope dirtyPath : string) : Prop :=
  scope = "/"%string \/ exists rest, dirtyPath = (scope ++ "/" ++ rest)%string.

(** The maximum modification timestamp over a list of files (0 for no
    file). *)
Definition latest (files : list TFile) : N :=
  foldr (fun f m => N.max (mtime f) m) 0%N files.

(** The four similarity-configuration values, as recorded in an entry
    and as currently set. *)
Definition recorded (c : CacheSettings) : Q * bool * Q * Z :=
  (titleThreshold c, enableContent c, contentThreshold c, contentChars c).

Definition current (cfg : DuplicateReviewerSettings) : Q * bool * Q * Z :=
  (titleSimilarityThreshold cfg, enableContentSimilarity cfg,
   contentSimilarityThreshold cfg, contentCharsToAnalyze cfg).

Definition sameConfig (a b : Q * bool * Q * Z) : Prop :=
  let '(t1, e1, c1, n1) := a in
  let '(t2, e2, c2, n2) := b in
  (t1 == t2)%Q /\ e1 = e2 /\ (c1 == c2)%Q /\ n1 = n2.

(** Files that all resolve by path, each to a file of its path. *)
Definition resolvable (app : App) (fs : list TFile) : Prop :=
  forall f, f ∈ fs ->
    exists f', getFileByPath app (path f) = Some f' /\ path f' = path f.

(** A path as a file system has it: not empty, and free of the NUL
    character. *)
Definition wellFormedPath (p : string) : Prop :=
  p <> ""%string /\ ascii_of_nat 0 ∉ ofString p.

(** The order of a list sorted by descending key. *)
Definition descending {A} (key : A -> Q) (x y : A) : Prop := (key y <= key x)%Q.

(** The number a finite double stands for. *)
Definition exact (x : Double.double) : Q :=
  match x with
  | S754_finite s m e => inject_Z (cond_Zopp s (Z.pos m)) * 2 ^ e
  | _ => 0
  end.



(** The membership of a list of groups, by path. *)
Definition membership (groups : list DuplicateGroup) : list (list string) :=
  map (fun g => map path (files g)) groups.

(** The word tokens of a body: its lower-cased runs of word characters,
    as a set. *)
Definition contentTokens (body : chars) : gset string :=
  list_to_set (map toString (List.filter nonEmpty (matchWords [] (toLowerCase body)))).

(** The similarity of two token sets: 0 when either is empty, else their
    Jaccard similarity. *)
Definition similarity (A B : gset string) : Q :=
  if (size A =? 0) || (size B =? 0) then 0%Q else jaccard A B.

End Stated.

(** ** Vocabulary of the proofs *)

(** Front matter as [extractBody] reads it. *)
Module Body.
Import Str.



End Body.

(** Doubles. *)
Module Ieee.

(** A finite double has an exponent no smaller than that of the
    subnormal numbers. *)
Definition wellFormed (x : Double.double) : Prop :=
  match x with
  | S754_finite _ _ e => (-1074 <= e)%Z
  | _ => True
  end.

End Ieee.

(** Normal forms of titles. *)
Module Normal.
Import Char Str.

(** A character of a normalised word: a word character that is not a
    capital letter. *)
Definition tok (c : ascii) : Prop := isWord c = true /\ isUpper c = false.

(** A character of a normalised title: as above, or the single space. *)
Definition plain (c : ascii) : Prop := tok c \/ c = " "%char.

Ltac by_cases c :=
  destruct c as [[] [] [] [] [] [] [] []]; vm_compute; intuition congruence.

Definition wordLike (w : chars) : Prop :=
  w <> [] /\ Forall (fun c => isSpace c = false) w.

(** The shape of a normalised title: words of [tok] characters, one
    space between them. *)
Definition normalForm (s : chars) : Prop :=
  exists ws, s = join [" "%char] ws
             /\ Forall (fun w => w <> [] /\ Forall tok w) ws.

End Normal.

(** The loop of the inverted index. *)
Module Index.
Import Js Async Scanner.

(** A signal that is never aborted (or no signal at all). *)
Definition quiet (signal : option AbortSignal) : Prop :=
  match signal with
  | Some s => forall k, s k = false
  | None => True
  end.

(** The candidate of an earlier file [fj] and a later file [fk], if
    their similarity reaches the threshold [t]. *)
Definition scored (t : Q) (fj fk : TFile) : option DuplicateCandidate :=
  let sim := jaccard (wordSet (basename fk)) (wordSet (basename fj)) in
  if geb sim t then Some (mkCandidate fj fk sim None None) else None.

Definition shares (fj fk : TFile) : Prop :=
  exists w, w ∈ wordSet (basename fj) /\ w ∈ wordSet (basename fk).

(** The candidates due once the files below index [i] are done. *)
Definition emitted (allFiles : list TFile) (t : Q) (i : nat)
    (c : DuplicateCandidate) : Prop :=
  exists j k fj fk,
    j < k /\ k < i /\ allFiles !! j = Some fj /\ allFiles !! k = Some fk
    /\ shares fj fk /\ scored t fj fk = Some c.

Definition bucket (index : gmap string (list nat)) (w : string) : list nat :=
  default [] (index !! w).

(** The loop invariant before the file at index [i]. *)
Record inv (allFiles : list TFile) (t : Q) (i : nat) (st : IndexState) : Prop := mkInv {
  inv_sets : forall j fj, j < i -> allFiles !! j = Some fj ->
             wordSets st !! j = Some (wordSet (basename fj));
  inv_index : forall w j, j ∈ bucket (index st) w <->
              j < i /\ exists fj, allFiles !! j = Some fj /\ w ∈ wordSet (basename fj);
  inv_nodup : NoDup (duplicates st);
  inv_dups : forall c, c ∈ duplicates st <-> emitted allFiles t i c;
}.

(** The loop with no abort, progress or suspension. *)
Fixpoint runFrom (allFiles : list TFile) (t : Q) (rest : list TFile) (i : nat)
    (st : IndexState) : IndexState :=
  match rest with
  | [] => st
  | file :: rest' => runFrom allFiles t rest' (S i) (processFile allFiles t i file st)
  end.

Definition byTitle (a b : DuplicateCandidate) : Q :=
  (titleSimilarity b - titleSimilarity a)%Q.

End Index.

(** The all-pairs comparison. *)
Module AllPairs.
Import Js Scanner.

(** The pairs of an earlier and a later file, in the order the two
    loops visit them. *)
Fixpoint pairs (files : list TFile) : list (TFile * TFile) :=
  match files with
  | [] => []
  | f :: rest => map (pair f) rest ++ pairs rest
  end.

Definition keyOf (p : TFile * TFile) : string := pairKey (fst p) (snd p).

Definition noBar (f : TFile) : Prop := "|"%char ∉ ofString (path f).

(** The candidate of a pair, if its similarity reaches the threshold. *)
Definition naiveScored (t : Q) (p : TFile * TFile) : option DuplicateCandidate :=
  let tSim := Similarity.titleSimilarity (basename (fst p)) (basename (snd p)) in
  if geb tSim t then Some (mkCandidate (fst p) (snd p) tSim None None) else None.

End AllPairs.

(** Content refinement. *)
Module Refined.
Import Js Scanner.

(** What the loop body pushes for one candidate. *)
Definition refined (app : App) (contentThreshold : Q) (maxChars : Z)
    (item : DuplicateCandidate) : DuplicateCandidate :=
  match cachedRead app (file1 item), cachedRead app (file2 item) with
  | Some content1, Some content2 =>
      let cSim := Similarity.contentSimilarity content1 content2 maxChars in
      mkCandidate (file1 item) (file2 item) (titleSimilarity item)
        (Some cSim) (Some (geb cSim contentThreshold))
  | _, _ =>
      mkCandidate (file1 item) (file2 item) (titleSimilarity item)
        None (Some false)
  end.

Definition byCombined (a b : DuplicateCandidate) : Q :=
  Double.signum (Double.sub (combinedScore b) (combinedScore a)).

End Refined.

(** The full scan. *)
Module Scan.
Import Scanner.

(** The files of every candidate found are files of the input. *)
Definition fromFiles (allFiles : list TFile) (cands : list DuplicateCandidate) : Prop :=
  forall c, c ∈ cands -> file1 c ∈ allFiles /\ file2 c ∈ allFiles.

(** A candidate that passed the exclusion filter, of two scanned files. *)
Definition passed (m : gmap string (gset string)) (scanned : list TFile)
    (c : DuplicateCandidate) : Prop :=
  notExcluded m c = true /\ file1 c ∈ scanned /\ file2 c ∈ scanned.

End Scan.

(** The staleness fingerprint. *)
Module Fingerprint.
Import Str Cache.

(** The dirty-path test of [isValid]. *)
Definition dirtyInside (this : CacheManager) (entry : CacheEntry) : bool :=
  (0 <? base.size (dirtyPaths this))
  && (String.eqb (folderPath entry) "/"
      || existsb (fun dirtyPath =>
                    startsWith (ofString (folderPath entry ++ "/")) (ofString dirtyPath))
           (elements (dirtyPaths this))).

End Fingerprint.

(** Dismissal keys. *)
Module Dismissal.
Import Js Main.

Definition nul : ascii := ascii_of_nat 0.

(** [x] may stand before [y] in a sorted list. *)
Definition inOrder (x y : string) : Prop := ltb (ofString y) (ofString x) = false.

Definition clean (x : chars) : Prop := x <> [] /\ nul ∉ x.

(** What follows a path in a key: nothing, or the separator and more. *)
Definition tailLike (r : chars) : Prop := r = [] \/ exists t, r = nul :: t.

(** The lookup set holds the keys of the persisted dismissals. *)
Definition consistent (p : Plugin) : Prop :=
  dismissedSet p = list_to_set (map dismissalKey (dismissedGroups p)).

End Dismissal.

(** Paths and substrings. *)
Module Paths.

(** [sub] occurs in [s]. *)
Definition occursIn (sub s : chars) : Prop :=
  exists before after, s = before ++ sub ++ after.

(** A path one of whose components starts with a dot: the path itself
    starts with a dot, or a dot follows a slash in it. *)
Definition hidden (p : chars) : Prop :=
  (exists rest, p = "."%char :: rest) \/ occursIn (ofString "/.") p.

(** The root folder of the vault. *)
Definition root : TFolder := mkFolder "/".

End Paths.

(** Grouping by title. *)
Module Grouping.
Import Scanner.

(** The key under which [groupDuplicates] files a candidate. *)
Definition titleOf (c : DuplicateCandidate) : string :=
  Title.normalizeTitle (basename (file1 c)).

(** The candidates filed under a title, in their order. *)
Definition filed (title : string) (cands : list DuplicateCandidate)
    : list DuplicateCandidate :=
  List.filter (fun c => String.eqb (titleOf c) title) cands.

(** The group of a title after the candidates [cs] were added to it. *)
Definition built (title : string) (cs : list DuplicateCandidate) : DuplicateGroup :=
  foldl (fun g c => addToGroup c g) (mkGroup title [] [] []) cs.

(** The number of files of a group, as the sort key. *)
Definition sizeOf (g : DuplicateGroup) : Q := inject_Z (Z.of_nat (length (files g))).

(** A candidate of two files with different paths. *)
Definition proper (c : DuplicateCandidate) : Prop := path (file1 c) <> path (file2 c).

End Grouping.

(** Exclusion links. *)
Module Links.
Import Str Scanner.

(** A link target as written inside the brackets, before any alias: not
    empty, with no white space at either end and none of the characters
    [|], [[] and []]. *)
Definition plainName (name : chars) : Prop :=
  name <> []
  /\ trim name = name
  /\ Forall (fun c => c <> "|"%char /\ c <> "["%char /\ c <> "]"%char) name.


(** The exclusion set a file declares in its front matter: none without
    the key, and none when no target resolves. *)
Definition declared (app : App) (file : TFile) : option (gset string) :=
  match exclusionRaw app file with
  | None => None
  | Some raw =>
      let resolved := resolveTargets app (parseExclusionTargets raw) in
      if 0 <? size resolved then Some resolved else None
  end.

End Links.

(** The candidates of a scan. *)
Module Positions.
Import Scanner.

(** A candidate pairs an earlier file of the list with a later one. *)
Definition inOrderOf (files : list TFile) (c : DuplicateCandidate) : Prop :=
  exists j k, j < k /\ files !! j = Some (file1 c) /\ files !! k = Some (file2 c).

(** A candidate as the title comparison leaves it. *)
Definition fresh (files : list TFile) (t : Q) (c : DuplicateCandidate) : Prop :=
  inOrderOf files c /\ Js.geb (titleSimilarity c) t = true
  /\ contentSimilarity c = None /\ likelyDuplicate c = None.

(** What holds before the file at index [i], whatever the files. *)
Definition ordered (files : list TFile) (t : Q) (i : nat) (st : IndexState) : Prop :=
  (forall w j, j ∈ Index.bucket (index st) w -> j < i)
  /\ forall c, c ∈ duplicates st -> fresh files t c.

(** The verdict of the content comparison on a candidate. *)
Definition verdict (contentThreshold : Q) (c : DuplicateCandidate) : bool :=
  match contentSimilarity c with
  | Some score => Js.geb score contentThreshold
  | None => false
  end.

End Positions.

(** ** Sample data *)

Definition alpha : TFile := mkFile "Alpha.md" "Alpha" 1.
Definition beta : TFile := mkFile "Beta.md" "Beta" 2.
Definition notesA : TFile := mkFile "a/Notes.md" "Notes" 1.
Definition notesB : TFile := mkFile "b/Notes.md" "Notes" 2.
Definition untitled : TFile := mkFile "Untitled.md" "Untitled" 3.

(** A vault holding [files], with the contents and front matter listed by
    path; a file with no content listed cannot be read. *)
Definition vaultOf (files : list TFile) (contents : list (string * string))
    (frontmatter : list (string * Yaml)) : App :=
  {| getMarkdownFiles := files;
     getFileByPath := fun p => List.find (fun f => String.eqb (path f) p) files;
     cachedRead := fun f =>
       option_map snd (List.find (fun e => String.eqb (fst e) (path f)) contents);
     exclusionRaw := fun f =>
       option_map snd (List.find (fun e => String.eqb (fst e) (path f)) frontmatter) |}.

Definition smallVault : App :=
  vaultOf [notesA; notesB; untitled]
    [("a/Notes.md", "---
tags: x
---
shopping list for the week"); ("b/Notes.md", "Shopping list, for the WEEK!")]%string
    [].

(** A lists B in its front matter, B does not list A. *)
Definition excludingVault : App :=
  vaultOf [notesA; notesB; untitled] []
    [("a/Notes.md", YArray [YString "[[b/Notes|the other one]]"])]%string.

(** The same with a third note of that title, which neither lists. *)
Definition notesC : TFile := mkFile "c/Notes.md" "Notes" 3.

Definition tripleVault : App :=
  vaultOf [notesA; notesB; notesC] []
    [("a/Notes.md", YArray [YString "[[b/Notes|the other one]]"])]%string.

(** A vault whose two notes lie in a root folder named [__proto__]. *)
Definition protoNotes : TFile := mkFile "__proto__/Notes.md" "Notes" 1.
Definition protoNotesOld : TFile := mkFile "__proto__/old/Notes.md" "Notes" 2.

Definition protoVault : App := vaultOf [protoNotes; protoNotesOld] [] [].

Definition pairGroup : DuplicateGroup :=
  mkGroup "notes" ["Notes"]%string [notesA; notesB] [mkCandidate notesA notesB 1 None None].

Definition loneGroup : DuplicateGroup :=
  mkGroup "untitled" ["Untitled"]%string [untitled] [].

Definition idlePlugin : Main.Plugin :=
  Main.mkPlugin DEFAULT_SETTINGS (Cache.mkCache ∅ ∅) (Some (Main.mkView [] "" false false))
    ∅ [] ∅ (Main.mkData None None) [] (Async.mkTask 0 []).

Definition dismissingPlugin : Main.Plugin :=
  Main.mkPlugin DEFAULT_SETTINGS (Cache.mkCache ∅ ∅)
    (Some (Main.mkView [] "Entire vault" false false)) ∅
    [["a/Notes.md"; "b/Notes.md"]%string]
    {[ Main.dismissalKey ["b/Notes.md"; "a/Notes.md"]%string ]}
    (Main.mkData None (Some [["a/Notes.md"; "b/Notes.md"]%string]))
    [] (Async.mkTask 0 []).

(** A plugin holding a cache entry for the whole vault. *)
Definition cachedPlugin : Main.Plugin :=
  Main.mkPlugin DEFAULT_SETTINGS
    (Cache.put (Cache.mkCache ∅ ∅) 7 "/" [notesA; notesB; untitled] [pairGroup]
       DEFAULT_SETTINGS)
    (Some (Main.mkView [] "" false false))
    ∅ [] ∅ (Main.mkData None None) [] (Async.mkTask 0 []).

(** A signal aborted once the task has been suspended [n] times. *)
Definition abortedFrom (n : nat) : Async.AbortSignal := fun k => n <=? k.

(** * Proofs *)


(** ** Strings *)

Lemma ofString_toString l : ofString (toString l) = l.
Proof. apply list_ascii_of_string_of_list_ascii. Qed.

Lemma toString_ofString s : toString (ofString s) = s.
Proof. apply string_of_list_ascii_of_string. Qed.

Lemma toString_inj l1 l2 : toString l1 = toString l2 -> l1 = l2.
Proof.
  intros H. rewrite <- (ofString_toString l1), <- (ofString_toString l2).
  now rewrite H.
Qed.

Lemma ofString_inj s1 s2 : ofString s1 = ofString s2 -> s1 = s2.
Proof.
  intros H. rewrite <- (toString_ofString s1), <- (toString_ofString s2).
  now rewrite H.
Qed.

Example normalizeTitle_prefix :
  Title.normalizeTitle "EAD0001 Meeting Notes.md" = "meeting notes"%string
  /\ Title.normalizeTitle "Meeting Notes.md" = "meeting notes"%string
  /\ Title.normalizeTitle "250.25 Budget Plan" = "budget plan"%string
  /\ Title.normalizeTitle "[AB12]  What's  up?.MD" = "whats up"%string
  /\ Title.normalizeTitle "ABCDE1 x" = "abcde1 x"%string.
Proof. repeat split; vm_compute; reflexivity. Qed.

(** ** Normal forms of titles *)

Module TitleFacts.
Import Char Str Title Normal.

Lemma lowered_tok c :
  isWord (toLower c) || isSpace (toLower c) = true ->
  isSpace (toLower c) = false -> tok (toLower c).
Proof. unfold tok. by_cases c. Qed.

Lemma tok_not_space c : tok c -> isSpace c = false.
Proof. unfold tok. by_cases c. Qed.

Lemma tok_lower c : tok c -> toLower c = c.
Proof. unfold tok. by_cases c. Qed.

Lemma plain_lower c : plain c -> toLower c = c.
Proof. intros [H | ->]; [now apply tok_lower | reflexivity]. Qed.

Lemma plain_kept c : plain c -> isWord c || isSpace c = true.
Proof. intros [[H _] | ->]; [now rewrite H | reflexivity]. Qed.

Lemma plain_not_dot : ~ plain "."%char.
Proof. unfold plain, tok. vm_compute. intuition congruence. Qed.

Lemma plain_not_bracket : ~ plain "["%char.
Proof. unfold plain, tok. vm_compute. intuition congruence. Qed.

Lemma plain_not_upper c : plain c -> isUpper c = false.
Proof. intros [[_ H] | ->]; [assumption | reflexivity]. Qed.

(** *** The pieces of a split *)

Lemma splitWs_pieces (P : ascii -> Prop) s :
  forall gap cur,
    Forall P cur ->
    Forall (fun c => isSpace c = false -> P c) s ->
    Forall (Forall P) (splitWs gap cur s).
Proof.
  induction s as [| c s IH]; intros gap cur Hcur Hs; simpl.
  - constructor; [| constructor]. now apply List.Forall_rev.
  - inversion Hs as [| ? ? Hc Hs']; subst.
    destruct (isSpace c) eqn:Ec.
    + destruct gap.
      * now apply IH.
      * constructor; [now apply List.Forall_rev |]. apply IH; [constructor | assumption].
    + apply IH; [| assumption]. constructor; auto.
Qed.

Lemma words_pieces (P : ascii -> Prop) s :
  Forall (fun c => isSpace c = false -> P c) s ->
  Forall (fun w => w <> [] /\ Forall P w) (words s).
Proof.
  intros Hs. unfold words.
  pose proof (splitWs_pieces P s false [] (List.Forall_nil _) Hs) as H.
  induction H as [| w l Hw Hl IH]; simpl; [constructor |].
  destruct w; simpl; [exact IH |].
  constructor; [| exact IH]. split; [discriminate | assumption].
Qed.

(** *** Splitting a joined list of words gives the words back *)

Lemma splitWs_word w :
  forall gap cur rest,
    w <> [] -> Forall (fun c => isSpace c = false) w ->
    splitWs gap cur (w ++ rest) = splitWs false (rev w ++ cur) rest.
Proof.
  induction w as [| c w IH]; intros gap cur rest Hne Hw; [congruence |].
  inversion Hw as [| ? ? Hc Hw']; subst. simpl. rewrite Hc.
  destruct w as [| d w].
  - reflexivity.
  - rewrite IH by (try discriminate; assumption).
    simpl. now rewrite <- !app_assoc.
Qed.

Lemma splitWs_gap_word c s cur :
  isSpace c = false -> splitWs true cur (c :: s) = splitWs false cur (c :: s).
Proof. intros H. simpl. now rewrite H. Qed.

Lemma join_words_head ws :
  Forall wordLike ws -> ws <> [] ->
  exists c s, join [" "%char] ws = c :: s /\ isSpace c = false.
Proof.
  intros H Hne. destruct ws as [| w ws]; [congruence |].
  inversion H as [| ? ? [Hw Hc] _]; subst.
  destruct w as [| c w]; [congruence |].
  inversion Hc; subst.
  destruct ws; simpl; eauto.
Qed.

Lemma words_join ws :
  Forall wordLike ws -> words (join [" "%char] ws) = ws.
Proof.
  unfold words. induction ws as [| w ws IH]; intros H; [reflexivity |].
  inversion H as [| ? ? [Hne Hw] Hws]; subst.
  destruct ws as [| w2 ws].
  - simpl join. rewrite <- (app_nil_r w) at 1.
    rewrite splitWs_word by assumption. simpl.
    rewrite app_nil_r, rev_involutive.
    destruct w; [congruence | reflexivity].
  - change (join [" "%char] (w :: w2 :: ws))
      with (w ++ " "%char :: join [" "%char] (w2 :: ws)).
    rewrite splitWs_word by assumption.
    cbn [splitWs]. change (isSpace " ") with true. cbn iota.
    rewrite app_nil_r, rev_involutive.
    destruct (join_words_head (w2 :: ws) Hws) as (c & s & Hj & Hc); [discriminate |].
    rewrite Hj, splitWs_gap_word by assumption. rewrite <- Hj.
    cbn [List.filter]. destruct w; [congruence |]. cbn [nonEmpty].
    f_equal. now apply IH.
Qed.

(** *** Normalised titles *)

Lemma normalForm_plain s : normalForm s -> Forall plain s.
Proof.
  intros (ws & -> & H). induction H as [| w ws [_ Hw] Hws IH]; [constructor |].
  assert (Forall plain w) by (eapply List.Forall_impl; [| exact Hw]; now left).
  destruct ws as [| w2 ws]; [assumption |].
  change (join [" "%char] (w :: w2 :: ws))
    with (w ++ " "%char :: join [" "%char] (w2 :: ws)).
  apply Forall_app. split; [assumption |].
  constructor; [now right | assumption].
Qed.

Lemma normalForm_words s : normalForm s -> collapseWs s = s.
Proof.
  intros (ws & -> & H). unfold collapseWs. rewrite words_join; [reflexivity |].
  eapply List.Forall_impl; [| exact H]. intros w [Hne Hw]. split; [assumption |].
  eapply List.Forall_impl; [| exact Hw]. apply tok_not_space.
Qed.

Lemma normalizeChars_normalForm s : normalForm (normalizeChars s).
Proof.
  unfold normalizeChars, collapseWs.
  set (t := stripPunct _).
  exists (words t). split; [reflexivity |].
  apply words_pieces. unfold t, stripPunct, toLowerCase.
  apply Forall_forall. intros c Hc Hsp.
  apply list_elem_of_In, filter_In in Hc. destruct Hc as [Hin Hk].
  apply in_map_iff in Hin. destruct Hin as (c0 & <- & _).
  now apply lowered_tok.
Qed.

Lemma span_app p s a b : span p s = (a, b) -> s = a ++ b.
Proof.
  revert a b. induction s as [| c s IH]; intros a b H; simpl in H.
  - now inversion H.
  - destruct (p c).
    + destruct (span p s) as [a' b'] eqn:E. inversion H; subst.
      simpl. f_equal. now apply IH.
    + now inversion H.
Qed.

Lemma stripMdExt_plain s : Forall plain s -> stripMdExt s = s.
Proof.
  intros H. unfold stripMdExt.
  destruct (rev s) as [| d [| m [| dot r]]] eqn:E; try reflexivity.
  destruct (bool_decide (dot = "."%char)) eqn:Ed; [| reflexivity].
  apply bool_decide_eq_true in Ed. subst dot. exfalso.
  apply plain_not_dot.
  assert (Hin : In "."%char (rev s)) by (rewrite E; simpl; auto).
  apply in_rev in Hin. rewrite Forall_forall in H. apply H.
  now apply list_elem_of_In.
Qed.

Lemma stripIndexPrefix_plain s : Forall plain s -> stripIndexPrefix s = s.
Proof.
  intros H. destruct s as [| c s]; [reflexivity |].
  inversion H as [| ? ? Hc _]; subst.
  unfold stripIndexPrefix. cbn [optChar].
  destruct (bool_decide (c = "["%char)) eqn:Eb.
  - apply bool_decide_eq_true in Eb. subst. now destruct plain_not_bracket.
  - cbn [span]. now rewrite (plain_not_upper c Hc).
Qed.

Lemma stripNumPrefix_plain s : Forall plain s -> stripNumPrefix s = s.
Proof.
  intros H. unfold stripNumPrefix.
  destruct (span isDigit s) as [int s1] eqn:E.
  destruct (1 <=? length int); [| reflexivity].
  destruct s1 as [| dot s2]; [reflexivity |].
  destruct (bool_decide (dot = "."%char)) eqn:Ed; [| reflexivity].
  apply bool_decide_eq_true in Ed. subst dot. exfalso.
  apply plain_not_dot. apply span_app in E. subst s.
  apply Forall_app in H. destruct H as [_ H]. now inversion H.
Qed.

Lemma toLowerCase_plain s : Forall plain s -> toLowerCase s = s.
Proof.
  unfold toLowerCase. induction 1 as [| c s Hc _ IH]; [reflexivity |].
  simpl. now rewrite (plain_lower c Hc), IH.
Qed.

Lemma stripPunct_plain s : Forall plain s -> stripPunct s = s.
Proof.
  unfold stripPunct. induction 1 as [| c s Hc _ IH]; [reflexivity |].
  simpl. now rewrite (plain_kept c Hc), IH.
Qed.

Lemma normalizeChars_fixed s : normalForm s -> normalizeChars s = s.
Proof.
  intros H. pose proof (normalForm_plain s H) as Hp. unfold normalizeChars.
  rewrite (stripMdExt_plain s Hp), (stripIndexPrefix_plain s Hp),
    (stripNumPrefix_plain s Hp), (toLowerCase_plain s Hp), (stripPunct_plain s Hp).
  now apply normalForm_words.
Qed.

End TitleFacts.

(** C9. [normalizeTitle] is idempotent: normalising a normalised title
    changes nothing. *)
Theorem normalizeTitle_idempotent (s : string) :
  Title.normalizeTitle (Title.normalizeTitle s) = Title.normalizeTitle s.
Proof.
  unfold Title.normalizeTitle. rewrite ofString_toString. f_equal.
  apply TitleFacts.normalizeChars_fixed, TitleFacts.normalizeChars_normalForm.
Qed.

(** ** Front matter *)

Module BodyFacts.
Import Char Str Similarity Body Stated.









(** *** Front matter between delimiter lines *)






End BodyFacts.

(** ** Lists used as sets, and sorting *)

Module ListFacts.
Import Js.

Section Filter.
Context {A : Type}.

Lemma elem_of_bfilter (f : A -> bool) l x :
  x ∈ List.filter f l <-> x ∈ l /\ f x = true.
Proof. rewrite !list_elem_of_In. apply filter_In. Qed.

Lemma NoDup_bfilter (f : A -> bool) l : NoDup l -> NoDup (List.filter f l).
Proof. rewrite !NoDup_ListNoDup. apply List.NoDup_filter. Qed.

Lemma elem_of_map {B} (f : A -> B) l y :
  y ∈ map f l <-> exists x, f x = y /\ x ∈ l.
Proof.
  rewrite list_elem_of_In, in_map_iff.
  split; intros (x & E & H); exists x; (split; [exact E |]);
    now apply list_elem_of_In.
Qed.

Lemma lookup_map {B} (f : A -> B) l i : map f l !! i = option_map f (l !! i).
Proof.
  revert i. induction l as [| a l IH]; intros [| i]; simpl; try reflexivity.
  apply IH.
Qed.

Lemma NoDup_map_inj {B} (f : A -> B) l :
  (forall x y, x ∈ l -> y ∈ l -> f x = f y -> x = y) ->
  NoDup l -> NoDup (map f l).
Proof.
  intros Hinj H. induction H as [| a l Ha Hl IH]; simpl; [constructor |].
  constructor.
  - intros Hin. apply elem_of_map in Hin. destruct Hin as (x & E & Hx).
    apply Ha. rewrite <- (Hinj x a); [assumption | now right | left | assumption].
  - apply IH. intros x y Hx Hy. apply Hinj; now right.
Qed.

Lemma NoDup_map_1 {B} (f : A -> B) l : NoDup (map f l) -> NoDup l.
Proof.
  induction l as [| a l IH]; simpl; intros H; [constructor |].
  inversion H as [| ? ? Ha Hl]; subst. constructor; [| now apply IH].
  intros Hin. apply Ha. apply elem_of_map. eauto.
Qed.

Lemma bfilter_all (f : A -> bool) l :
  (forall x, x ∈ l -> f x = true) -> List.filter f l = l.
Proof.
  induction l as [| a l IH]; intros H; [reflexivity |]. simpl.
  rewrite (H a) by left. f_equal. apply IH. intros x Hx. apply H. now right.
Qed.
End Filter.

Section Sets.
Context `{EqDecision A}.
Implicit Types (s l : list A).

Lemma has_true x s : has x s = true <-> x ∈ s.
Proof. unfold has. apply bool_decide_eq_true. Qed.

Lemma has_false x s : has x s = false <-> x ∉ s.
Proof. unfold has. apply bool_decide_eq_false. Qed.

Lemma elem_of_setAdd s x y : y ∈ setAdd s x <-> y ∈ s \/ y = x.
Proof.
  unfold setAdd. destruct (has x s) eqn:E.
  - apply has_true in E. split; [auto | intros [H | ->]; assumption].
  - rewrite elem_of_app, list_elem_of_singleton. reflexivity.
Qed.

Lemma NoDup_setAdd s x : NoDup s -> NoDup (setAdd s x).
Proof.
  intros H. unfold setAdd. destruct (has x s) eqn:E; [assumption |].
  apply has_false in E. apply NoDup_app. repeat split.
  - assumption.
  - intros y Hy Hx. apply list_elem_of_singleton in Hx. now subst.
  - apply NoDup_singleton.
Qed.

Lemma elem_of_foldl_setAdd l : forall s y,
  y ∈ foldl setAdd s l <-> y ∈ s \/ y ∈ l.
Proof.
  induction l as [| x l IH]; intros s y; simpl.
  - rewrite elem_of_nil. tauto.
  - rewrite IH, elem_of_setAdd, elem_of_cons. tauto.
Qed.

Lemma NoDup_foldl_setAdd l : forall s, NoDup s -> NoDup (foldl setAdd s l).
Proof.
  induction l as [| x l IH]; intros s H; simpl; [assumption |].
  apply IH. now apply NoDup_setAdd.
Qed.

Lemma NoDup_setOf l : NoDup (setOf l).
Proof. apply NoDup_foldl_setAdd. constructor. Qed.

Lemma elem_of_setOf l y : y ∈ setOf l <-> y ∈ l.
Proof. unfold setOf. rewrite elem_of_foldl_setAdd, elem_of_nil. tauto. Qed.

Lemma foldl_setAdd_fresh l : forall s,
  NoDup (s ++ l) -> foldl setAdd s l = s ++ l.
Proof.
  induction l as [| x l IH]; intros s H; simpl; [now rewrite app_nil_r |].
  assert (Hx : has x s = false).
  { apply has_false. apply NoDup_app in H. destruct H as (_ & H & _).
    intros Hin. apply (H x Hin). left. }
  unfold setAdd at 2. rewrite Hx.
  rewrite IH by (rewrite <- app_assoc; exact H).
  now rewrite <- app_assoc.
Qed.

Lemma setOf_NoDup l : NoDup l -> setOf l = l.
Proof. intros H. unfold setOf. now rewrite foldl_setAdd_fresh. Qed.
End Sets.

(** *** [sort] permutes its argument and orders it *)

Section Sort.
Context {A : Type} (compare : A -> A -> Q).

Lemma insertSorted_perm x l : insertSorted compare x l ≡ₚ x :: l.
Proof.
  induction l as [| y l IH]; simpl; [reflexivity |].
  destruct (positive (compare x y)); [| reflexivity].
  rewrite IH. apply perm_swap.
Qed.

Lemma sort_perm l : sort compare l ≡ₚ l.
Proof.
  unfold sort. induction l as [| x l IH]; simpl; [reflexivity |].
  rewrite insertSorted_perm. now constructor.
Qed.

Lemma elem_of_sort l x : x ∈ sort compare l <-> x ∈ l.
Proof. now rewrite sort_perm. Qed.

Lemma length_sort l : length (sort compare l) = length l.
Proof. apply Permutation_length, sort_perm. Qed.

End Sort.

(** A comparator [key b - key a] sorts by descending key. *)
Section SortByKey.
Context {A : Type} (key : A -> Q).

Local Abbreviation descending := (Stated.descending key).

Lemma positive_spec q : positive q = true <-> (0 < q)%Q.
Proof.
  unfold positive. rewrite negb_true_iff.
  destruct (Qle_bool q 0) eqn:E.
  - apply Qle_bool_iff in E. split; [discriminate |].
    intros H. exfalso. eapply Qlt_not_le; eassumption.
  - split; [intros _ | reflexivity].
    apply Qnot_le_lt. intros H. apply Qle_bool_iff in H. congruence.
Qed.

Lemma insertSorted_sorted x l :
  Sorted descending l ->
  Sorted descending (insertSorted (fun a b => key b - key a)%Q x l).
Proof.
  induction 1 as [| y l Hl IH Hy]; simpl; [repeat constructor |].
  destruct (positive (key y - key x)) eqn:E.
  - constructor; [exact IH |].
    assert (Hyx : descending y x).
    { apply positive_spec in E. unfold Stated.descending.
      apply Qlt_le_weak, Qlt_minus_iff. exact E. }
    destruct l as [| z l]; simpl.
    + constructor. exact Hyx.
    + destruct (positive (key z - key x)); constructor;
        [now inversion Hy | exact Hyx].
  - constructor; [now constructor |]. constructor.
    unfold Stated.descending.
    destruct (Qlt_le_dec (key x) (key y)) as [Hlt | Hle]; [| exact Hle].
    exfalso. assert (positive (key y - key x) = true); [| congruence].
    apply positive_spec. apply Qlt_minus_iff in Hlt. exact Hlt.
Qed.

Lemma sort_sorted l :
  Sorted descending (sort (fun a b => key b - key a)%Q l).
Proof.
  unfold sort. induction l as [| x l IH]; simpl; [constructor |].
  now apply insertSorted_sorted.
Qed.
End SortByKey.

End ListFacts.

(** ** Doubles: no difference of two doubles rounds to zero *)

Module DoubleFacts.
Import Double Stated Ieee.
Local Open Scope Z_scope.





(** The exponent after a shift is never below that of the subnormals. *)
Lemma shr_fexp_exponent m e l : -1074 <= snd (shr_fexp prec emax m e l).
Proof.
  unfold shr_fexp, shr, fexp, emin, prec, emax.
  destruct (Z.max (Zdigits2 m + e - 53) (3 - 1024 - 53) - e) eqn:E; cbn [snd]; lia.
Qed.



Lemma binary_round_aux_wellFormed sx m e l :
  wellFormed (binary_round_aux prec emax sx m e l).
Proof.
  unfold binary_round_aux.
  destruct (shr_fexp prec emax m e l) as [r1 e1].
  pose proof (shr_fexp_exponent
                (round_nearest_even (shr_m r1) (loc_of_shr_record r1)) e1 loc_Exact) as H.
  destruct (shr_fexp prec emax _ e1 loc_Exact) as [r2 e2]. cbn [snd] in H.
  destruct (shr_m r2); try exact I.
  destruct (e2 <=? emax - prec); [exact H | exact I].
Qed.



Lemma binary_round_wellFormed sx m e : wellFormed (binary_round prec emax sx m e).
Proof.
  unfold binary_round. destruct (shl_align _ _ _). apply binary_round_aux_wellFormed.
Qed.

Lemma binary_normalize_wellFormed m e s : wellFormed (binary_normalize prec emax m e s).
Proof. destruct m; [exact I | |]; apply binary_round_wellFormed. Qed.

Lemma ofZ_wellFormed z : wellFormed (ofZ z).
Proof. apply binary_normalize_wellFormed. Qed.
















End DoubleFacts.

(** ** Jaccard similarity on word lists and on sets *)

Module JaccardFacts.
Import Js ListFacts Str Similarity Stated.

Implicit Types (X Y : gset string) (l : list string).

Lemma wordsOf_NoDup norm : NoDup (wordsOf norm).
Proof. apply NoDup_setOf. Qed.

Lemma wordSet_tokenSet b : list_to_set (Scanner.wordSet b) = tokenSet b.
Proof.
  apply set_eq. intros x. unfold Scanner.wordSet, wordsOf, tokenSet.
  now rewrite !elem_of_list_to_set, elem_of_setOf.
Qed.

Lemma length_list_to_set l : NoDup l -> length l = size (list_to_set l : gset string).
Proof. intros H. symmetry. now apply size_list_to_set. Qed.

Lemma length_inter l1 l2 :
  NoDup l1 ->
  length (List.filter (fun x => has x l2) l1)
  = size (list_to_set l1 ∩ list_to_set l2 : gset string).
Proof.
  intros H. rewrite length_list_to_set by now apply NoDup_bfilter.
  f_equal. apply set_eq. intros x.
  rewrite elem_of_intersection, !elem_of_list_to_set, elem_of_bfilter, has_true.
  reflexivity.
Qed.

Lemma size_union_inter X Y : size (X ∪ Y) + size (X ∩ Y) = size X + size Y.
Proof.
  rewrite size_union_alt.
  assert (HY : Y = (X ∩ Y) ∪ (Y ∖ X)).
  { apply set_eq. intros x. rewrite elem_of_union, elem_of_intersection,
      elem_of_difference. destruct (decide (x ∈ X)); tauto. }
  assert (HS : size Y = size (X ∩ Y) + size (Y ∖ X)).
  { rewrite HY at 1. apply (size_union (C:=gset string)).
    apply elem_of_disjoint. intros x.
    rewrite elem_of_intersection, elem_of_difference. tauto. }
  lia.
Qed.

Lemma jaccard_comm_sizes X Y :
  ratio (size (X ∩ Y)) (size (X ∪ Y)) = ratio (size (Y ∩ X)) (size (Y ∪ X)).
Proof.
  assert (X ∩ Y = Y ∩ X) as ->
    by (apply set_eq; intros x; rewrite !elem_of_intersection; tauto).
  assert (X ∪ Y = Y ∪ X) as ->
    by (apply set_eq; intros x; rewrite !elem_of_union; tauto).
  reflexivity.
Qed.

(** The Jaccard computation of the inverted index is the Jaccard
    similarity of the two sets. *)
Lemma jaccard_sets l1 l2 :
  NoDup l1 -> NoDup l2 ->
  Scanner.jaccard l1 l2 = jaccard (list_to_set l2) (list_to_set l1).
Proof.
  intros H1 H2. unfold Scanner.jaccard, jaccard.
  rewrite length_inter by assumption.
  rewrite (length_list_to_set l1 H1), (length_list_to_set l2 H2).
  set (X := list_to_set l1 : gset string). set (Y := list_to_set l2 : gset string).
  pose proof (size_union_inter X Y) as HU.
  replace (size X + size Y - size (X ∩ Y)) with (size (X ∪ Y)) by lia.
  rewrite (jaccard_comm_sizes Y X).
  destruct (size (X ∪ Y) =? 0) eqn:E; [| reflexivity].
  apply Nat.eqb_eq in E. assert (size (X ∩ Y) = 0) as ->.
  { assert (size (X ∩ Y) <= size (X ∪ Y)); [| lia].
    apply subseteq_size. intros x.
    rewrite elem_of_intersection, elem_of_union. tauto. }
  now rewrite E.
Qed.

Lemma length_setOf_app l1 l2 :
  length (setOf (l1 ++ l2)) = size (list_to_set l1 ∪ list_to_set l2 : gset string).
Proof.
  rewrite length_list_to_set by apply NoDup_setOf. f_equal.
  apply set_eq. intros x.
  rewrite elem_of_union, !elem_of_list_to_set, elem_of_setOf, elem_of_app.
  reflexivity.
Qed.

Lemma length_setOf_inter l1 l2 :
  NoDup l1 ->
  length (setOf (List.filter (fun x => has x l2) l1))
  = size (list_to_set l1 ∩ list_to_set l2 : gset string).
Proof.
  intros H. rewrite setOf_NoDup by now apply NoDup_bfilter.
  now apply length_inter.
Qed.

Lemma list_to_set_setOf l : list_to_set (setOf l) = (list_to_set l : gset string).
Proof.
  apply set_eq. intros x. now rewrite !elem_of_list_to_set, elem_of_setOf.
Qed.

(** The scoring shared by [titleSimilarity] and [contentSimilarity], on
    the word sets made from two lists of words. *)
Lemma setOf_similarity (a b : list string) :
  (if (length (setOf a) =? 0) || (length (setOf b) =? 0) then 0%Q
   else ratio (length (setOf (List.filter (fun x => has x (setOf b)) (setOf a))))
              (length (setOf (setOf a ++ setOf b))))
  = similarity (list_to_set a) (list_to_set b).
Proof.
  unfold similarity, jaccard.
  rewrite length_setOf_inter, length_setOf_app by apply NoDup_setOf.
  rewrite !(length_list_to_set (setOf _)) by apply NoDup_setOf.
  now rewrite !list_to_set_setOf.
Qed.

(** [titleSimilarity] is the Jaccard similarity of the two token sets
    when neither is empty, and 0 otherwise. *)
Lemma titleSimilarity_sets b1 b2 :
  Similarity.titleSimilarity b1 b2
  = if (size (tokenSet b1) =? 0) || (size (tokenSet b2) =? 0) then 0%Q
    else jaccard (tokenSet b1) (tokenSet b2).
Proof.
  unfold Similarity.titleSimilarity, wordsOf. cbv zeta.
  rewrite setOf_similarity. reflexivity.
Qed.

Lemma contentSimilarity_sets content1 content2 maxChars :
  Similarity.contentSimilarity content1 content2 maxChars
  = similarity
      (contentTokens (substring0 maxChars (extractBody (ofString content1))))
      (contentTokens (substring0 maxChars (extractBody (ofString content2)))).
Proof.
  unfold Similarity.contentSimilarity, contentWords. cbv zeta.
  rewrite setOf_similarity. reflexivity.
Qed.

Lemma geb_zero q t : (0 < t)%Q -> Qnum q = 0%Z -> geb q t = false.
Proof.
  intros Ht Hq. unfold geb. destruct (Qle_bool t q) eqn:E; [| reflexivity].
  apply Qle_bool_iff in E. exfalso.
  apply (Qlt_not_le 0 t Ht). eapply Qle_trans; [exact E |].
  unfold Qle. rewrite Hq. simpl. lia.
Qed.

Lemma jaccard_disjoint X Y : X ∩ Y = ∅ -> Qnum (jaccard X Y) = 0%Z.
Proof. intros H. unfold jaccard, ratio. rewrite H, size_empty. reflexivity. Qed.

(** With a positive threshold only files that share a word pass. *)
Lemma titleSimilarity_passes b1 b2 t :
  (0 < t)%Q -> geb (Similarity.titleSimilarity b1 b2) t = true ->
  (exists w, w ∈ tokenSet b1 /\ w ∈ tokenSet b2)
  /\ Similarity.titleSimilarity b1 b2 = jaccard (tokenSet b1) (tokenSet b2).
Proof.
  intros Ht H. rewrite titleSimilarity_sets in *.
  destruct ((size (tokenSet b1) =? 0) || (size (tokenSet b2) =? 0)).
  - rewrite geb_zero in H by (assumption || reflexivity). discriminate.
  - split; [| reflexivity].
    destruct (decide (tokenSet b1 ∩ tokenSet b2 = ∅)) as [He | Hne].
    + rewrite geb_zero in H; [discriminate | assumption |].
      now apply jaccard_disjoint.
    + apply set_choose_L in Hne. destruct Hne as [w Hw].
      exists w. now apply elem_of_intersection.
Qed.

Lemma jaccard_passes X Y t :
  (0 < t)%Q -> geb (jaccard X Y) t = true -> exists w, w ∈ X /\ w ∈ Y.
Proof.
  intros Ht H. destruct (decide (X ∩ Y = ∅)) as [He | Hne].
  - rewrite geb_zero in H; [discriminate | assumption |].
    now apply jaccard_disjoint.
  - apply set_choose_L in Hne. destruct Hne as [w Hw].
    exists w. now apply elem_of_intersection.
Qed.

Lemma jaccard_titleSimilarity b1 b2 :
  (exists w, w ∈ tokenSet b1 /\ w ∈ tokenSet b2) ->
  Similarity.titleSimilarity b1 b2 = jaccard (tokenSet b1) (tokenSet b2).
Proof.
  intros (w & H1 & H2). rewrite titleSimilarity_sets.
  assert (size (tokenSet b1) <> 0)
    by (apply size_non_empty_iff; intros He; rewrite He in H1;
        now apply not_elem_of_empty in H1).
  assert (size (tokenSet b2) <> 0)
    by (apply size_non_empty_iff; intros He; rewrite He in H2;
        now apply not_elem_of_empty in H2).
  destruct (size (tokenSet b1)), (size (tokenSet b2)); try congruence; reflexivity.
Qed.

End JaccardFacts.




(** Where the front matter holds three hyphens in a row, the code takes
    them for the second delimiter, and the rest of the front matter stays in
    the body: such contents are outside the amended claim. *)
Example extractBody_hyphens_in_front_matter :
  Stated.plainFrontMatter (ofString "---
title: a---b
---
body") = false
  /\ toString (Similarity.extractBody (ofString "---
title: a---b
---
body")) = "b
---
body"%string
  /\ toString (Stated.body (ofString "---
title: a---b
---
body")) = "body"%string.
Proof. repeat split; vm_compute; reflexivity. Qed.

(** What [extractBody] does on some contents: front matter between
    delimiter lines is stripped and the body trimmed; hyphens that do not
    open the content leave it whole. *)
Example extractBody_front_matter :
  toString (Similarity.extractBody (ofString "---
title: x
---
 Body text 
")) = "Body text"%string
  /\ toString (Stated.body (ofString "---
title: x
---
 Body text 
")) = " Body text 
"%string
  /\ toString (Similarity.extractBody (ofString "x---a---b")) = "x---a---b"%string.
Proof. repeat split; vm_compute; reflexivity. Qed.

(** ** The inverted index *)

Module IndexFacts.
Import Js ListFacts Async Scanner JaccardFacts Index.

Lemma aborted_quiet signal task :
  quiet signal -> aborted signal task = (Ok false, task).
Proof.
  unfold aborted, gets. destruct signal as [s |]; simpl; intros H; [| reflexivity].
  now rewrite H.
Qed.

Lemma NoDup_omap_inj {A B} (f : A -> option B) (l : list A) :
  NoDup l ->
  (forall x y c, x ∈ l -> y ∈ l -> f x = Some c -> f y = Some c -> x = y) ->
  NoDup (omap f l).
Proof.
  induction 1 as [| x l Hx Hl IH]; intros Hinj; simpl; [constructor |].
  assert (IH' : NoDup (omap f l)).
  { apply IH. intros a b c Ha Hb. apply Hinj; now right. }
  destruct (f x) as [c |] eqn:E; [| exact IH'].
  constructor; [| exact IH'].
  intros Hin. apply list_elem_of_omap in Hin. destruct Hin as (y & Hy & Ey).
  assert (x = y) by (eapply Hinj; eauto; [left | now right]).
  now subst.
Qed.

Lemma omap_map {A B C} (f : B -> option C) (g : A -> B) (l : list A) :
  omap f (map g l) = omap (fun x => f (g x)) l.
Proof.
  induction l as [| x l IH]; [reflexivity |].
  cbn. destruct (f (g x)); [f_equal |]; exact IH.
Qed.

Section Loop.
Variables (allFiles : list TFile) (t : Q).
Hypothesis distinct : NoDup allFiles.

Local Abbreviation scored := (Index.scored t).
Local Abbreviation emitted := (Index.emitted allFiles t).
Local Abbreviation inv := (Index.inv allFiles t).
Local Abbreviation runFrom := (Index.runFrom allFiles t).

Lemma inv_init : inv 0 (mkIndexState [] ∅ ∅).
Proof.
  constructor; simpl.
  - intros j fj Hj. lia.
  - intros w j. unfold bucket. rewrite lookup_empty. simpl.
    rewrite elem_of_nil. split; [tauto | intros [H _]; lia].
  - constructor.
  - intros c. rewrite elem_of_nil. split; [tauto |].
    intros (j & k & fj & fk & _ & Hk & _). lia.
Qed.

(** *** The three steps of the loop body *)

Lemma candidateIndices_fold index words : forall acc,
  NoDup acc ->
  let result :=
    foldl (fun candidateIndices w =>
             match index !! w with
             | Some bucket => foldl setAdd candidateIndices bucket
             | None => candidateIndices
             end) acc words in
  NoDup result
  /\ forall j, j ∈ result <-> j ∈ acc \/ exists w, w ∈ words /\ j ∈ bucket index w.
Proof.
  induction words as [| x words IH]; intros acc Hacc; simpl.
  - split; [assumption |]. intros j. split; [auto |].
    intros [H | (w & Hw & _)]; [assumption | now apply elem_of_nil in Hw].
  - set (acc' := match index !! x with
                 | Some b => foldl setAdd acc b | None => acc end).
    assert (Hacc' : NoDup acc').
    { unfold acc'. destruct (index !! x); [now apply NoDup_foldl_setAdd | assumption]. }
    assert (Hmem : forall j, j ∈ acc' <-> j ∈ acc \/ j ∈ bucket index x).
    { intros j. unfold acc', bucket. destruct (index !! x); simpl.
      - apply elem_of_foldl_setAdd.
      - rewrite elem_of_nil. tauto. }
    destruct (IH acc' Hacc') as [Hnd Hin]. split; [exact Hnd |].
    intros j. rewrite Hin, Hmem. split.
    + intros [[H | H] | (w & Hw & H)]; [now left | right | right].
      * exists x. split; [left | assumption].
      * exists w. split; [now right | assumption].
    + intros [H | (w & Hw & H)]; [now left; left |].
      apply elem_of_cons in Hw. destruct Hw as [-> | Hw].
      * left. now right.
      * right. eauto.
Qed.

Lemma candidateIndices_spec index words :
  NoDup (candidateIndices index words)
  /\ forall j, j ∈ candidateIndices index words <->
               exists w, w ∈ words /\ j ∈ bucket index w.
Proof.
  destruct (candidateIndices_fold index words [] NoDup_nil_2) as [H1 H2].
  split; [exact H1 |]. intros j. unfold candidateIndices. rewrite H2.
  rewrite elem_of_nil. tauto.
Qed.

Lemma insertIntoIndex_spec i words : forall index w j,
  j ∈ bucket (insertIntoIndex index words i) w <->
  j ∈ bucket index w \/ (j = i /\ w ∈ words).
Proof.
  unfold insertIntoIndex.
  induction words as [| x words IH]; intros index w j; simpl.
  - rewrite elem_of_nil. tauto.
  - rewrite IH. clear IH.
    assert (Hstep : j ∈ bucket (match index !! x with
                                | Some b => <[x := b ++ [i]]> index
                                | None => <[x := [i]]> index end) w
                    <-> j ∈ bucket index w \/ (j = i /\ w = x)).
    { unfold bucket. destruct (decide (w = x)) as [-> | Hne].
      - destruct (index !! x) as [b |] eqn:E; rewrite lookup_insert_eq; simpl.
        + rewrite elem_of_app, list_elem_of_singleton. tauto.
        + rewrite list_elem_of_singleton, elem_of_nil. tauto.
      - destruct (index !! x) as [b |] eqn:E;
          rewrite lookup_insert_ne by congruence; tauto. }
    rewrite Hstep, elem_of_cons. intuition congruence.
Qed.

Lemma scoreCandidates_omap file words wordSets candidates : forall dups,
  scoreCandidates allFiles t file words wordSets candidates dups
  = dups ++ omap (fun j =>
                    match wordSets !! j, allFiles !! j with
                    | Some otherWords, Some fileJ =>
                        if geb (jaccard words otherWords) t
                        then Some (mkCandidate fileJ file (jaccard words otherWords)
                                     None None)
                        else None
                    | _, _ => None
                    end) candidates.
Proof.
  unfold scoreCandidates.
  induction candidates as [| j candidates IH]; intros dups; simpl.
  - now rewrite app_nil_r.
  - rewrite IH. destruct (wordSets !! j) as [ow |]; [| reflexivity].
    destruct (allFiles !! j) as [fj |]; [| reflexivity].
    destruct (geb (jaccard words ow) t); [| reflexivity].
    now rewrite <- app_assoc.
Qed.

Lemma scored_files fj fk c :
  scored fj fk = Some c -> file1 c = fj /\ file2 c = fk.
Proof.
  unfold Index.scored. destruct (geb _ t); [| discriminate].
  intros H. inversion H. auto.
Qed.

Lemma lookup_inj i j f :
  allFiles !! i = Some f -> allFiles !! j = Some f -> i = j.
Proof. intros Hi Hj. eapply NoDup_lookup; eauto. Qed.

(** *** One turn of the loop keeps the invariant *)

Lemma processFile_inv i file st :
  inv i st -> allFiles !! i = Some file ->
  inv (S i) (processFile allFiles t i file st).
Proof.
  intros [Hsets Hindex Hnodup Hdups] Hfile. unfold processFile.
  set (words := wordSet (basename file)).
  destruct (candidateIndices_spec (index st) words) as [Hcnd Hcin].
  set (cands := candidateIndices (index st) words) in *.
  rewrite scoreCandidates_omap.
  set (g := fun j => match <[i:=words]> (wordSets st) !! j, allFiles !! j with
                     | Some ow, Some fj =>
                         if geb (jaccard words ow) t
                         then Some (mkCandidate fj file (jaccard words ow) None None)
                         else None
                     | _, _ => None end).
  assert (Hg : forall j, j ∈ cands ->
               exists fj, j < i /\ allFiles !! j = Some fj /\ shares fj file
                          /\ g j = scored fj file).
  { intros j Hj. apply Hcin in Hj. destruct Hj as (w & Hw & Hb).
    apply Hindex in Hb. destruct Hb as (Hlt & fj & Hfj & Hwj).
    exists fj. repeat split; try assumption.
    - exists w. split; assumption.
    - unfold g. rewrite lookup_insert_ne by lia.
      now rewrite (Hsets j fj Hlt Hfj), Hfj. }
  assert (Hblock : forall c, c ∈ omap g cands <->
            exists j fj, j < i /\ allFiles !! j = Some fj /\ shares fj file
                         /\ scored fj file = Some c).
  { intros c. rewrite list_elem_of_omap. split.
    - intros (j & Hj & Hc). destruct (Hg j Hj) as (fj & ? & ? & ? & E).
      rewrite E in Hc. eauto 10.
    - intros (j & fj & Hlt & Hfj & (w & Hw1 & Hw2) & Hc).
      assert (Hj : j ∈ cands).
      { apply Hcin. exists w. split; [assumption |]. apply Hindex. eauto. }
      exists j. split; [assumption |].
      destruct (Hg j Hj) as (fj' & _ & Hfj' & _ & E).
      rewrite E. congruence. }
  constructor; simpl.
  - intros j fj Hj Hfj. destruct (decide (j = i)) as [-> | Hne].
    + rewrite lookup_insert_eq. assert (fj = file) by congruence.
      now subst.
    + rewrite lookup_insert_ne by congruence. apply Hsets; [lia | assumption].
  - intros w j. rewrite insertIntoIndex_spec, Hindex. split.
    + intros [(Hlt & H) | (-> & Hw)]; [split; [lia | assumption] |].
      split; [lia | eauto].
    + intros (Hlt & fj & Hfj & Hw). destruct (decide (j = i)) as [-> | Hne].
      * right. split; [reflexivity |]. assert (fj = file) by congruence.
        now subst.
      * left. split; [lia | eauto].
  - apply NoDup_app. repeat split; [exact Hnodup | | ].
    + intros c Hc Hc'. apply Hdups in Hc. apply Hblock in Hc'.
      destruct Hc as (j & k & fj & fk & _ & Hk & _ & Hfk & _ & Hs).
      destruct Hc' as (j' & fj' & _ & _ & _ & Hs').
      apply scored_files in Hs, Hs'. destruct Hs as [_ Hs], Hs' as [_ Hs'].
      assert (k = i) by (eapply lookup_inj; [exact Hfk | congruence]). lia.
    + apply NoDup_omap_inj; [exact Hcnd |].
      intros x y c Hx Hy Ex Ey.
      destruct (Hg x Hx) as (fx & _ & Hfx & _ & Ex').
      destruct (Hg y Hy) as (fy & _ & Hfy & _ & Ey').
      rewrite Ex' in Ex. rewrite Ey' in Ey.
      apply scored_files in Ex, Ey. destruct Ex as [Ex _], Ey as [Ey _].
      eapply lookup_inj; [exact Hfx | congruence].
  - intros c. rewrite elem_of_app, Hdups, Hblock. split.
    + intros [(j & k & fj & fk & ? & ? & ? & ? & ? & ?) | (j & fj & ? & ? & ? & ?)].
      * exists j, k, fj, fk. repeat split; try assumption. lia.
      * exists j, i, fj, file. repeat split; try assumption. lia.
    + intros (j & k & fj & fk & Hjk & Hk & Hfj & Hfk & Hsh & Hs).
      destruct (decide (k = i)) as [-> | Hne].
      * right. exists j, fj. assert (fk = file) by congruence. subst. auto.
      * left. exists j, k, fj, fk. repeat split; try assumption. lia.
Qed.

(** *** The whole loop *)

Lemma runFrom_inv rest : forall i st,
  inv i st ->
  (forall k f, rest !! k = Some f -> allFiles !! (i + k) = Some f) ->
  inv (i + length rest) (runFrom rest i st).
Proof.
  induction rest as [| file rest IH]; intros i st Hinv Hrest; simpl.
  - now rewrite Nat.add_0_r.
  - replace (i + S (length rest)) with (S i + length rest) by lia.
    apply IH.
    + apply processFile_inv; [assumption |].
      specialize (Hrest 0 file eq_refl). now rewrite Nat.add_0_r in Hrest.
    + intros k f Hk. replace (S i + k) with (i + S k) by lia. now apply Hrest.
Qed.

Lemma titleLoop_quiet signal onProgress rest : forall i st task,
  quiet signal ->
  exists task',
    titleLoop allFiles t signal onProgress rest i st task
    = (Ok (runFrom rest i st), task').
Proof.
  induction rest as [| file rest IH]; intros i st task Hq; simpl.
  - eexists. reflexivity.
  - unfold bind at 1. rewrite aborted_quiet by assumption.
    unfold bind, yieldToEventLoop, suspend, modify. simpl.
    destruct onProgress; simpl; apply IH; assumption.
Qed.

Lemma findTitleDuplicates_quiet signal onProgress task :
  quiet signal ->
  exists task',
    findTitleDuplicates allFiles t signal onProgress task
    = (Ok (sort byTitle (duplicates (runFrom allFiles 0 (mkIndexState [] ∅ ∅)))),
       task').
Proof.
  intros Hq. unfold findTitleDuplicates, bind.
  destruct (titleLoop_quiet signal onProgress allFiles 0 (mkIndexState [] ∅ ∅)
              task Hq) as [task' ->].
  eexists. reflexivity.
Qed.

Lemma runFrom_all_inv :
  inv (length allFiles) (runFrom allFiles 0 (mkIndexState [] ∅ ∅)).
Proof. apply (runFrom_inv allFiles 0 _ inv_init). intros k f H. exact H. Qed.

End Loop.

End IndexFacts.

(** ** The all-pairs comparison *)

Module NaiveFacts.
Import Js ListFacts Scanner JaccardFacts AllPairs.

Lemma elem_of_pairs files a b :
  (a, b) ∈ pairs files <->
  exists i j, i < j /\ files !! i = Some a /\ files !! j = Some b.
Proof.
  induction files as [| f rest IH]; simpl.
  - rewrite elem_of_nil. split; [tauto |]. intros (i & j & _ & H & _). discriminate.
  - rewrite elem_of_app, IH, elem_of_map. split.
    + intros [(x & E & Hx) | (i & j & Hij & Hi & Hj)].
      * inversion E; subst. apply list_elem_of_lookup in Hx.
        destruct Hx as [j Hj]. exists 0, (S j). repeat split; [lia | assumption].
      * exists (S i), (S j). repeat split; [lia | assumption | assumption].
    + intros (i & j & Hij & Hi & Hj). destruct j as [| j]; [lia |].
      destruct i as [| i]; simpl in *.
      * left. inversion Hi; subst. exists b. split; [reflexivity |].
        eapply list_elem_of_lookup_2; eauto.
      * right. exists i, j. repeat split; [lia | assumption | assumption].
Qed.

Lemma NoDup_pairs files : NoDup files -> NoDup (pairs files).
Proof.
  induction 1 as [| f rest Hf Hrest IH]; simpl; [constructor |].
  apply NoDup_app. repeat split.
  - apply NoDup_map_inj; [| assumption]. intros x y _ _ E. now inversion E.
  - intros [a b] Hin Hin'. apply elem_of_map in Hin.
    destruct Hin as (x & E & _). inversion E; subst.
    apply elem_of_pairs in Hin'. destruct Hin' as (i & j & _ & Hi & _).
    apply Hf. eapply list_elem_of_lookup_2; eauto.
  - exact IH.
Qed.

(** *** Pair keys *)

Lemma sortStrings_pair a b :
  sortStrings [a; b] = [a; b] \/ sortStrings [a; b] = [b; a].
Proof.
  unfold sortStrings. simpl. destruct (ltb (ofString b) (ofString a)); auto.
Qed.

Lemma pairKey_chars f1 f2 :
  exists x y,
    ofString (pairKey f1 f2) = ofString x ++ "|"%char :: ofString y
    /\ ((x = path f1 /\ y = path f2) \/ (x = path f2 /\ y = path f1)).
Proof.
  unfold pairKey, joinStrings.
  destruct (sortStrings_pair (path f1) (path f2)) as [-> | ->];
    rewrite ofString_toString; simpl; eauto 10.
Qed.

Lemma bar_split x : forall x' y y',
  "|"%char ∉ x -> "|"%char ∉ x' ->
  x ++ "|"%char :: y = x' ++ "|"%char :: y' -> x = x' /\ y = y'.
Proof.
  induction x as [| c x IH]; intros [| c' x'] y y' Hx Hx' E; simpl in E.
  - now inversion E.
  - inversion E; subst. exfalso. apply Hx'. left.
  - inversion E; subst. exfalso. apply Hx. left.
  - inversion E; subst. destruct (IH x' y y') as [-> ->]; try assumption.
    + intros H. apply Hx. now right.
    + intros H. apply Hx'. now right.
    + auto.
Qed.

Lemma pairKey_inj a b a' b' :
  noBar a -> noBar b -> noBar a' -> noBar b' ->
  pairKey a b = pairKey a' b' ->
  (path a = path a' /\ path b = path b') \/ (path a = path b' /\ path b = path a').
Proof.
  intros Ha Hb Ha' Hb' E. apply (f_equal ofString) in E.
  destruct (pairKey_chars a b) as (x & y & Ex & Hxy).
  destruct (pairKey_chars a' b') as (x' & y' & Ex' & Hxy').
  rewrite Ex, Ex' in E.
  assert (Hx : "|"%char ∉ ofString x) by (destruct Hxy as [[-> _] | [-> _]]; assumption).
  assert (Hx' : "|"%char ∉ ofString x')
    by (destruct Hxy' as [[-> _] | [-> _]]; assumption).
  destruct (bar_split _ _ _ _ Hx Hx' E) as [E1 E2].
  apply ofString_inj in E1, E2. subst x' y'.
  destruct Hxy as [[-> ->] | [-> ->]], Hxy' as [[E1 E2] | [E1 E2]]; auto.
Qed.

Section Naive.
Variables (files : list TFile) (t : Q).
Hypothesis distinctPaths : NoDup (map path files).
Hypothesis noBars : Forall noBar files.

Local Abbreviation naiveScored := (AllPairs.naiveScored t).

Lemma path_position i j a b :
  files !! i = Some a -> files !! j = Some b -> path a = path b -> i = j.
Proof.
  intros Hi Hj E. eapply (NoDup_lookup (map path files)); [assumption | |].
  - rewrite lookup_map, Hi. reflexivity.
  - rewrite lookup_map, Hj. simpl. now rewrite E.
Qed.

Lemma distinctFiles : NoDup files.
Proof. now apply (NoDup_map_1 path). Qed.

Lemma noBar_lookup i f : files !! i = Some f -> noBar f.
Proof.
  intros H. rewrite Forall_forall in noBars. apply noBars.
  eapply list_elem_of_lookup_2; eauto.
Qed.

Lemma keyOf_inj p q :
  p ∈ pairs files -> q ∈ pairs files -> keyOf p = keyOf q -> p = q.
Proof.
  destruct p as [a b], q as [a' b']. intros Hp Hq E.
  apply elem_of_pairs in Hp, Hq.
  destruct Hp as (i & j & Hij & Hi & Hj), Hq as (i' & j' & Hij' & Hi' & Hj').
  unfold keyOf in E. simpl in E.
  apply pairKey_inj in E; eauto using noBar_lookup.
  destruct E as [[E1 E2] | [E1 E2]].
  - assert (i = i') by (eapply path_position; eauto).
    assert (j = j') by (eapply path_position; eauto). subst. congruence.
  - assert (i = j') by (eapply path_position; eauto).
    assert (j = i') by (eapply path_position; eauto). lia.
Qed.

Lemma NoDup_keys : NoDup (map keyOf (pairs files)).
Proof.
  apply NoDup_map_inj.
  - intros p q. apply keyOf_inj.
  - apply NoDup_pairs, distinctFiles.
Qed.

(** *** The loops without the set of checked pairs *)

Lemma naiveInner_spec file1 rest : forall dups keys,
  NoDup (keys ++ map (pairKey file1) rest) ->
  naiveInner t file1 rest (dups, keys)
  = (dups ++ omap (fun file2 => naiveScored (file1, file2)) rest,
     keys ++ map (pairKey file1) rest).
Proof.
  induction rest as [| file2 rest IH]; intros dups keys H.
  - simpl. now rewrite !app_nil_r.
  - cbn [naiveInner map].
    assert (Hfresh : has (pairKey file1 file2) keys = false).
    { apply has_false. apply NoDup_app in H. destruct H as (_ & H & _).
      intros Hin. apply (H _ Hin). left. }
    rewrite Hfresh. unfold setAdd. rewrite Hfresh.
    assert (H' : NoDup ((keys ++ [pairKey file1 file2]) ++ map (pairKey file1) rest))
      by (rewrite <- app_assoc; exact H).
    cbn [omap list_omap]. unfold AllPairs.naiveScored at 1. cbn [fst snd].
    destruct (geb _ t); rewrite IH by exact H'; rewrite <- !app_assoc; reflexivity.
Qed.

Lemma naiveOuter_spec l : forall dups keys,
  NoDup (keys ++ map keyOf (pairs l)) ->
  naiveOuter t l (dups, keys)
  = (dups ++ omap naiveScored (pairs l), keys ++ map keyOf (pairs l)).
Proof.
  induction l as [| f rest IH]; intros dups keys H.
  - simpl. now rewrite !app_nil_r.
  - cbn [naiveOuter pairs]. cbn [pairs] in H.
    rewrite map_app, map_map in H. cbn [keyOf fst snd] in H.
    rewrite naiveInner_spec.
    + rewrite IH by (rewrite <- app_assoc; exact H).
      rewrite omap_app, IndexFacts.omap_map, map_app, map_map.
      now rewrite <- !app_assoc.
    + rewrite app_assoc in H. apply NoDup_app in H. tauto.
Qed.

Lemma findTitleDuplicatesNaive_pairs :
  findTitleDuplicatesNaive files t
  = sort Index.byTitle (omap naiveScored (pairs files)).
Proof.
  unfold findTitleDuplicatesNaive.
  rewrite naiveOuter_spec by (simpl; apply NoDup_keys). reflexivity.
Qed.

Lemma naiveScored_files p c :
  naiveScored p = Some c -> p = (file1 c, file2 c).
Proof.
  unfold AllPairs.naiveScored. destruct (geb _ t); [| discriminate].
  intros H. inversion H. now destruct p.
Qed.

Lemma NoDup_naive : NoDup (omap naiveScored (pairs files)).
Proof.
  apply IndexFacts.NoDup_omap_inj; [apply NoDup_pairs, distinctFiles |].
  intros p q c _ _ Hp Hq.
  apply naiveScored_files in Hp, Hq. congruence.
Qed.

Lemma elem_of_naive c :
  c ∈ omap naiveScored (pairs files) <->
  exists j k fj fk,
    j < k /\ files !! j = Some fj /\ files !! k = Some fk
    /\ naiveScored (fj, fk) = Some c.
Proof.
  rewrite list_elem_of_omap. split.
  - intros ([fj fk] & Hp & Hc). apply elem_of_pairs in Hp.
    destruct Hp as (j & k & ? & ? & ?). eauto 10.
  - intros (j & k & fj & fk & ? & ? & ? & ?). exists (fj, fk).
    split; [| assumption]. apply elem_of_pairs. eauto.
Qed.

End Naive.

End NaiveFacts.

(** ** The inverted index against the all-pairs comparison *)

Module RefinementFacts.
Import Js ListFacts Scanner JaccardFacts Index AllPairs IndexFacts NaiveFacts.

Lemma shares_tokens fj fk :
  shares fj fk <->
  exists w, w ∈ Stated.tokenSet (basename fj) /\ w ∈ Stated.tokenSet (basename fk).
Proof.
  unfold shares. rewrite <- !wordSet_tokenSet.
  split; intros (w & H1 & H2); exists w;
    rewrite ?elem_of_list_to_set in *; auto.
Qed.

Lemma scored_sim fj fk :
  jaccard (wordSet (basename fk)) (wordSet (basename fj))
  = Stated.jaccard (Stated.tokenSet (basename fj)) (Stated.tokenSet (basename fk)).
Proof.
  rewrite jaccard_sets by apply wordsOf_NoDup. now rewrite !wordSet_tokenSet.
Qed.

(** With a positive threshold the two scorings of a pair agree. *)
Lemma scored_naive t fj fk c :
  (0 < t)%Q ->
  (shares fj fk /\ scored t fj fk = Some c) <-> naiveScored t (fj, fk) = Some c.
Proof.
  intros Ht. unfold scored, naiveScored. cbn [fst snd]. rewrite scored_sim. split.
  - intros [Hsh Hc]. apply shares_tokens in Hsh.
    now rewrite (jaccard_titleSimilarity _ _ Hsh).
  - intros Hc.
    destruct (geb (Similarity.titleSimilarity (basename fj) (basename fk)) t) eqn:E;
      [| discriminate].
    destruct (titleSimilarity_passes _ _ t Ht E) as [Hsh Hsim].
    split; [now apply shares_tokens |].
    rewrite Hsim in E, Hc. now rewrite E.
Qed.

End RefinementFacts.

(** C1, as stated, for every threshold: it fails at threshold 0, where the
    all-pairs comparison reports the pair of two files that share no word
    (similarity 0) and the inverted index, which only scores files sharing
    a word, reports nothing. *)
Lemma findTitleDuplicates_threshold_zero :
  ~ (exists out task',
       Scanner.findTitleDuplicates [alpha; beta] 0 None false (Async.mkTask 0 [])
       = (Async.Ok out, task')
       /\ out ≡ₚ Scanner.findTitleDuplicatesNaive [alpha; beta] 0).
Proof.
  intros (out & task' & E & P). vm_compute in E. inversion E; subst.
  vm_compute in P. apply Permutation_nil in P. discriminate.
Qed.

(** C1, amended: for every list of files with pairwise distinct paths
    that contain no vertical bar and every threshold above 0,
    [findTitleDuplicates] returns, up to order, exactly the candidates of the
    all-pairs comparison; no two candidates are the same unordered pair;
    [file1] stands before [file2] in the input; and the similarity of a
    candidate is the Jaccard similarity of the two token sets. *)
Theorem findTitleDuplicates_matches_naive
    (files : list TFile) (t : Q) (onProgress : bool) (task : Async.Task)
    (distinctPaths : NoDup (map path files))
    (noBars : Forall (fun f => "|"%char ∉ ofString (path f)) files)
    (aboveZero : (0 < t)%Q) :
  exists out task',
    Scanner.findTitleDuplicates files t None onProgress task = (Async.Ok out, task')
    /\ out ≡ₚ Scanner.findTitleDuplicatesNaive files t
    /\ (forall a b ca cb,
          a <> b -> out !! a = Some ca -> out !! b = Some cb ->
          ~ Stated.samePair ca cb)
    /\ (forall c, c ∈ out ->
          (exists i j, i < j /\ files !! i = Some (file1 c)
                       /\ files !! j = Some (file2 c))
          /\ titleSimilarity c
             = Stated.jaccard (Stated.tokenSet (basename (file1 c)))
                 (Stated.tokenSet (basename (file2 c)))).
Proof.
  pose proof (NaiveFacts.distinctFiles files distinctPaths) as Hfiles.
  destruct (IndexFacts.findTitleDuplicates_quiet files t None onProgress task I)
    as [task' Hrun].
  pose proof (IndexFacts.runFrom_all_inv files t Hfiles) as [_ _ Hnodup Hdups].
  set (found := Scanner.duplicates _) in *.
  exists (Js.sort Index.byTitle found), task'.
  assert (Hmem : forall c, c ∈ found <->
            exists j k fj fk, j < k /\ files !! j = Some fj /\ files !! k = Some fk
                              /\ AllPairs.naiveScored t (fj, fk) = Some c).
  { intros c. rewrite Hdups. unfold Index.emitted. split.
    - intros (j & k & fj & fk & ? & ? & ? & ? & Hsh & Hc).
      exists j, k, fj, fk. repeat split; try assumption.
      apply RefinementFacts.scored_naive; auto.
    - intros (j & k & fj & fk & ? & ? & Hk & Hc).
      apply RefinementFacts.scored_naive in Hc; [| assumption].
      exists j, k, fj, fk. repeat split; try tauto.
      now apply lookup_lt_Some in Hk. }
  split; [exact Hrun |]. split; [| split].
  - rewrite (NaiveFacts.findTitleDuplicatesNaive_pairs files t distinctPaths noBars).
    rewrite !ListFacts.sort_perm.
    apply NoDup_Permutation; [assumption | now apply NaiveFacts.NoDup_naive |].
    intros c. now rewrite Hmem, NaiveFacts.elem_of_naive.
  - intros a b ca cb Hab Ha Hb Hsame.
    assert (Hnd : NoDup (Js.sort Index.byTitle found))
      by now rewrite ListFacts.sort_perm.
    apply Hab. eapply NoDup_lookup; [exact Hnd | exact Ha |].
    rewrite Hb. f_equal.
    apply list_elem_of_lookup_2, ListFacts.elem_of_sort, Hmem in Ha, Hb.
    destruct Ha as (j & k & fj & fk & Hjk & Hj & Hk & Hc).
    destruct Hb as (j' & k' & fj' & fk' & Hjk' & Hj' & Hk' & Hc').
    pose proof (NaiveFacts.naiveScored_files _ _ _ Hc) as E.
    pose proof (NaiveFacts.naiveScored_files _ _ _ Hc') as E'.
    inversion E; inversion E'; subst fj fk fj' fk'.
    destruct Hsame as [[E1 E2] | [E1 E2]].
    + assert (j = j') by (eapply NaiveFacts.path_position; eauto).
      assert (k = k') by (eapply NaiveFacts.path_position; eauto).
      subst. rewrite Hj in Hj'. rewrite Hk in Hk'.
      inversion Hj' as [F1]. inversion Hk' as [F2].
      rewrite F1, F2 in Hc. congruence.
    + assert (j = k') by (eapply NaiveFacts.path_position; eauto).
      assert (k = j') by (eapply NaiveFacts.path_position; eauto). lia.
  - intros c Hc. apply ListFacts.elem_of_sort, Hdups in Hc.
    destruct Hc as (j & k & fj & fk & Hjk & Hk & Hfj & Hfk & _ & Hc).
    unfold Index.scored in Hc. destruct (Js.geb _ t); [| discriminate].
    inversion Hc; subst c; cbn [file1 file2 titleSimilarity].
    split; [eauto |]. apply RefinementFacts.scored_sim.
Qed.

Lemma findTitleDuplicates_matches_naive_witness :
  exists out task',
    Scanner.findTitleDuplicates [notesA; notesB; untitled] (8 # 10) None true
      (Async.mkTask 0 []) = (Async.Ok out, task')
    /\ out ≡ₚ Scanner.findTitleDuplicatesNaive [notesA; notesB; untitled] (8 # 10)
    /\ (forall a b ca cb,
          a <> b -> out !! a = Some ca -> out !! b = Some cb ->
          ~ Stated.samePair ca cb)
    /\ (forall c, c ∈ out ->
          (exists i j, i < j /\ [notesA; notesB; untitled] !! i = Some (file1 c)
                       /\ [notesA; notesB; untitled] !! j = Some (file2 c))
          /\ titleSimilarity c
             = Stated.jaccard (Stated.tokenSet (basename (file1 c)))
                 (Stated.tokenSet (basename (file2 c)))).
Proof.
  apply (findTitleDuplicates_matches_naive [notesA; notesB; untitled] (8 # 10) true
           (Async.mkTask 0 [])).
  - apply (bool_decide_unpack _). vm_compute. exact I.
  - apply (bool_decide_unpack _). vm_compute. exact I.
  - reflexivity.
Defined.

Example findTitleDuplicates_notes :
  fst (Scanner.findTitleDuplicates [notesA; notesB; untitled] (8 # 10) None true
         (Async.mkTask 0 []))
  = Async.Ok [mkCandidate notesA notesB 1 None None].
Proof. vm_compute. reflexivity. Qed.

(** ** Content refinement *)

Module RefineFacts.
Import Js ListFacts Async Scanner Index IndexFacts.

Section Refine.
Variables (app : App) (contentThreshold : Q) (maxChars : Z).

Local Abbreviation refined := (Refined.refined app contentThreshold maxChars).
Local Abbreviation byCombined := Refined.byCombined.

Lemma refined_same item :
  file1 (refined item) = file1 item
  /\ file2 (refined item) = file2 item
  /\ titleSimilarity (refined item) = titleSimilarity item.
Proof.
  unfold Refined.refined.
  destruct (cachedRead app (file1 item)), (cachedRead app (file2 item)); auto.
Qed.

(** The body never throws: a failed read is caught. *)
Lemma refineItem_spec item acc task :
  exists task',
    refineItem app contentThreshold maxChars item acc task
    = (Ok (acc ++ [refined item]), task').
Proof.
  unfold refineItem, tryCatch, bind, read, suspend, modify, Refined.refined. simpl.
  destruct (cachedRead app (file1 item)) as [c1 |]; simpl.
  - destruct (cachedRead app (file2 item)) as [c2 |]; simpl; eexists; reflexivity.
  - eexists. reflexivity.
Qed.

(** The loop handles a prefix of the candidates, all of them when the
    signal stays quiet. *)
Lemma refineLoop_spec signal onProgress total rest : forall i acc task,
  exists n task',
    refineLoop app contentThreshold maxChars signal onProgress total rest i acc task
    = (Ok (acc ++ map refined (take n rest)), task')
    /\ (quiet signal -> n = length rest).
Proof.
  induction rest as [| item rest IH]; intros i acc task; simpl.
  - exists 0, task. rewrite app_nil_r. auto.
  - unfold bind at 1. unfold aborted at 1, gets.
    destruct (match signal with Some s => s (clock task) | None => false end) eqn:E.
    + exists 0, task. simpl. rewrite app_nil_r. split; [reflexivity |].
      intros Hq. destruct signal as [s |]; [| discriminate].
      simpl in Hq. rewrite Hq in E. discriminate.
    + unfold bind at 1.
      destruct (refineItem_spec item acc task) as [task1 ->].
      unfold bind, yieldToEventLoop, suspend, modify. simpl.
      set (task2 := mkTask _ _).
      destruct (report onProgress (mkProgress refining (i + 1) total) task2)
        as [r task3] eqn:Er.
      assert (r = Ok tt) as ->.
      { unfold report in Er. destruct onProgress; inversion Er; reflexivity. }
      destruct (IH (S i) (acc ++ [refined item]) task3) as (n & task' & -> & Hn).
      exists (S n), task'. simpl. rewrite <- app_assoc. simpl.
      split; [reflexivity |]. intros Hq. now rewrite Hn.
Qed.

Lemma refineWithContent_spec candidates signal onProgress task :
  exists n task',
    refineWithContent app candidates contentThreshold maxChars signal onProgress task
    = (Ok (sort byCombined (map refined (take n candidates))), task')
    /\ (quiet signal -> n = length candidates).
Proof.
  unfold refineWithContent, bind.
  destruct (refineLoop_spec signal onProgress (length candidates) candidates 0 [] task)
    as (n & task' & -> & Hn).
  exists n, task'. split; [reflexivity | exact Hn].
Qed.


End Refine.

End RefineFacts.



Example refineWithContent_small :
  fst (Scanner.refineWithContent smallVault
         [mkCandidate notesA untitled (1 # 2) None None;
          mkCandidate notesA notesB 1 None None]
         (6 # 10) 1000 None true (Async.mkTask 0 []))
  = Async.Ok [mkCandidate notesA notesB 1 (Some (5 # 5)) (Some true);
              mkCandidate notesA untitled (1 # 2) None (Some false)].
Proof. vm_compute. reflexivity. Qed.

(** The sums are sums of doubles: 0.8 + 0.4 is a double above 1.2, which
    is what 1 + 0.2 gives, so the second candidate moves to the front. *)
Example combined_scores_are_doubles :
  Js.sort Refined.byCombined
    [mkCandidate notesA notesB 1 (Some (2 # 10)) (Some false);
     mkCandidate alpha beta (8 # 10) (Some (4 # 10)) (Some false)]
  = [mkCandidate alpha beta (8 # 10) (Some (4 # 10)) (Some false);
     mkCandidate notesA notesB 1 (Some (2 # 10)) (Some false)]
  /\ Scanner.combinedScore (mkCandidate alpha beta (8 # 10) (Some (4 # 10)) (Some false))
     = S754_finite false 5404319552844596 (-52)
  /\ Scanner.combinedScore (mkCandidate notesA notesB 1 (Some (2 # 10)) (Some false))
     = S754_finite false 5404319552844595 (-52).
Proof. repeat split; vm_compute; reflexivity. Qed.

(** C7. [refineWithContent] never throws; and when the signal is not
    aborted every candidate is in the output: with no content score and
    [likelyDuplicate] false if the read of either file fails, and with the
    content similarity of the two contents and [likelyDuplicate] telling
    whether it reaches the threshold if both reads succeed. *)
Theorem refineWithContent_read_failures
    (app : App) (candidates : list DuplicateCandidate)
    (contentThreshold : Q) (maxChars : Z)
    (signal : option Async.AbortSignal) (onProgress : bool) (task : Async.Task) :
  exists out task',
    Scanner.refineWithContent app candidates contentThreshold maxChars
      signal onProgress task = (Async.Ok out, task')
    /\ (Index.quiet signal ->
        length out = length candidates
        /\ forall c, c ∈ candidates ->
           (cachedRead app (file1 c) = None \/ cachedRead app (file2 c) = None ->
            mkCandidate (file1 c) (file2 c) (titleSimilarity c) None (Some false) ∈ out)
           /\ (forall content1 content2,
                 cachedRead app (file1 c) = Some content1 ->
                 cachedRead app (file2 c) = Some content2 ->
                 let cSim := Similarity.contentSimilarity content1 content2 maxChars in
                 mkCandidate (file1 c) (file2 c) (titleSimilarity c)
                   (Some cSim) (Some (Js.geb cSim contentThreshold)) ∈ out)).
Proof.
  destruct (RefineFacts.refineWithContent_spec app contentThreshold maxChars
              candidates signal onProgress task) as (n & task' & E & Hn).
  eexists _, task'. split; [exact E |]. intros Hq.
  rewrite (Hn Hq), firstn_all.
  split; [now rewrite ListFacts.length_sort, length_map |].
  intros c Hc.
  assert (Hin : Refined.refined app contentThreshold maxChars c
                ∈ Js.sort (Refined.byCombined)
                    (map (Refined.refined app contentThreshold maxChars) candidates)).
  { apply ListFacts.elem_of_sort, ListFacts.elem_of_map. eauto. }
  unfold Refined.refined in Hin. split.
  - intros [H | H]; rewrite H in Hin; [exact Hin |].
    destruct (cachedRead app (file1 c)); exact Hin.
  - intros content1 content2 H1 H2. rewrite H1, H2 in Hin. exact Hin.
Qed.

Lemma refineWithContent_read_failures_witness :
  exists out,
    fst (Scanner.refineWithContent smallVault
           [mkCandidate notesA untitled (1 # 2) None None;
            mkCandidate notesA notesB 1 None None]
           (6 # 10) 1000 None true (Async.mkTask 0 [])) = Async.Ok out
    /\ mkCandidate notesA untitled (1 # 2) None (Some false) ∈ out.
Proof.
  destruct (refineWithContent_read_failures smallVault
              [mkCandidate notesA untitled (1 # 2) None None;
               mkCandidate notesA notesB 1 None None]
              (6 # 10) 1000 None true (Async.mkTask 0 []))
    as (out & task' & E & H).
  exists out. rewrite E. split; [reflexivity |].
  destruct (H I) as [_ Hc].
  apply (Hc (mkCandidate notesA untitled (1 # 2) None None)).
  - left.
  - right. reflexivity.
Defined.

(** ** Exclusions and the full scan *)

Module ScanFacts.
Import Js ListFacts Async Scanner Index IndexFacts Scan.



(** Whether a candidate is kept depends on its two files only. *)
Lemma notExcluded_files m c d :
  file1 c = file1 d -> file2 c = file2 d -> notExcluded m c = notExcluded m d.
Proof. unfold notExcluded. now intros -> ->. Qed.

Lemma report_ok onProgress p task :
  exists task', report onProgress p task = (Ok tt, task').
Proof. unfold report. destruct onProgress; eexists; reflexivity. Qed.

Lemma processFile_fromFiles allFiles t i file st :
  file ∈ allFiles -> fromFiles allFiles (duplicates st) ->
  fromFiles allFiles (duplicates (processFile allFiles t i file st)).
Proof.
  intros Hfile Hst c Hc. unfold processFile in Hc. cbn [duplicates] in Hc.
  rewrite scoreCandidates_omap in Hc. apply elem_of_app in Hc.
  destruct Hc as [Hc | Hc]; [now apply Hst |].
  apply list_elem_of_omap in Hc. destruct Hc as (j & _ & Hj).
  destruct (_ !! j) as [ow |]; [| discriminate].
  destruct (allFiles !! j) as [fj |] eqn:Ej; [| discriminate].
  destruct (geb _ t); [| discriminate]. inversion Hj; subst c. simpl.
  split; [| assumption]. eapply list_elem_of_lookup_2; eauto.
Qed.

Lemma titleLoop_total allFiles t signal onProgress rest : forall i st task,
  (forall f, f ∈ rest -> f ∈ allFiles) ->
  fromFiles allFiles (duplicates st) ->
  exists st' task',
    titleLoop allFiles t signal onProgress rest i st task = (Ok st', task')
    /\ fromFiles allFiles (duplicates st').
Proof.
  induction rest as [| file rest IH]; intros i st task Hrest Hst; simpl.
  - eauto.
  - unfold bind at 1, aborted at 1, gets.
    destruct (match signal with Some s => s (clock task) | None => false end).
    + eauto.
    + unfold bind, yieldToEventLoop, suspend, modify. simpl.
      assert (Hnext : fromFiles allFiles
                        (duplicates (processFile allFiles t i file st)))
        by (apply processFile_fromFiles; [apply Hrest; left | assumption]).
      assert (Hrest' : forall f, f ∈ rest -> f ∈ allFiles)
        by (intros f Hf; apply Hrest; now right).
      destruct onProgress; simpl; now apply IH.
Qed.

Lemma findTitleDuplicates_total files t signal onProgress task :
  exists out task',
    findTitleDuplicates files t signal onProgress task = (Ok out, task')
    /\ fromFiles files out.
Proof.
  unfold findTitleDuplicates, bind.
  destruct (titleLoop_total files t signal onProgress files 0
              (mkIndexState [] ∅ ∅) task) as (st & task' & -> & Hst).
  - auto.
  - intros c Hc. now apply elem_of_nil in Hc.
  - eexists _, task'. split; [reflexivity |].
    intros c Hc. apply elem_of_sort in Hc. now apply Hst.
Qed.

(** *** Grouping adds no candidate *)

Lemma groupStep_candidates gs c g x :
  g ∈ groupStep gs c -> x ∈ candidates g ->
  x = c \/ exists g0, g0 ∈ gs /\ x ∈ candidates g0.
Proof.
  unfold groupStep. intros Hg Hx.
  apply elem_of_map in Hg. destruct Hg as (g0 & <- & Hg0).
  assert (Hsrc : g0 ∈ gs \/ candidates g0 = []).
  { destruct (negb _); [| now left].
    apply elem_of_app in Hg0. destruct Hg0 as [H | H]; [now left |].
    apply list_elem_of_singleton in H. subst. now right. }
  destruct (String.eqb (normalizedTitle g0) _).
  - cbn [addToGroup candidates] in Hx. apply elem_of_app in Hx.
    destruct Hx as [Hx | Hx].
    + destruct Hsrc as [H | H]; [eauto |]. rewrite H in Hx.
      now apply elem_of_nil in Hx.
    + apply list_elem_of_singleton in Hx. now left.
  - destruct Hsrc as [H | H]; [eauto |]. rewrite H in Hx.
    now apply elem_of_nil in Hx.
Qed.

Lemma foldl_groupStep_candidates cands : forall gs g x,
  g ∈ foldl groupStep gs cands -> x ∈ candidates g ->
  x ∈ cands \/ exists g0, g0 ∈ gs /\ x ∈ candidates g0.
Proof.
  induction cands as [| c cands IH]; intros gs g x Hg Hx; simpl in Hg.
  - right. eauto.
  - destruct (IH _ _ _ Hg Hx) as [H | (g1 & Hg1 & Hx1)]; [left; now right |].
    destruct (groupStep_candidates _ _ _ _ Hg1 Hx1) as [-> | H]; [left; left | now right].
Qed.

Lemma groupDuplicates_candidates cands g x :
  g ∈ groupDuplicates cands -> x ∈ candidates g -> x ∈ cands.
Proof.
  unfold groupDuplicates. intros Hg Hx. apply elem_of_sort in Hg.
  destruct (foldl_groupStep_candidates _ _ _ _ Hg Hx) as [H | (g0 & H & _)];
    [assumption | now apply elem_of_nil in H].
Qed.

Lemma pushFile_elem fs f x : x ∈ pushFile fs f -> x ∈ fs \/ x = f.
Proof.
  unfold pushFile. destruct (negb _); [| now left].
  rewrite elem_of_app, list_elem_of_singleton. tauto.
Qed.

Lemma groupStep_files gs c g f :
  g ∈ groupStep gs c -> f ∈ files g ->
  f = file1 c \/ f = file2 c \/ exists g0, g0 ∈ gs /\ f ∈ files g0.
Proof.
  unfold groupStep. intros Hg Hf.
  apply elem_of_map in Hg. destruct Hg as (g0 & <- & Hg0).
  assert (Hsrc : g0 ∈ gs \/ files g0 = []).
  { destruct (negb _); [| now left].
    apply elem_of_app in Hg0. destruct Hg0 as [H | H]; [now left |].
    apply list_elem_of_singleton in H. subst. now right. }
  assert (Hold : f ∈ files g0 -> exists g1, g1 ∈ gs /\ f ∈ files g1).
  { intros H. destruct Hsrc as [H0 | H0]; [eauto |].
    rewrite H0 in H. now apply elem_of_nil in H. }
  destruct (String.eqb (normalizedTitle g0) _); [| auto].
  cbn [addToGroup files] in Hf.
  apply pushFile_elem in Hf. destruct Hf as [Hf | ->]; [| auto].
  apply pushFile_elem in Hf. destruct Hf as [Hf | ->]; auto.
Qed.

Lemma foldl_groupStep_files cands : forall gs g f,
  g ∈ foldl groupStep gs cands -> f ∈ files g ->
  (exists c, c ∈ cands /\ (f = file1 c \/ f = file2 c))
  \/ exists g0, g0 ∈ gs /\ f ∈ files g0.
Proof.
  induction cands as [| c cands IH]; intros gs g f Hg Hf; simpl in Hg.
  - right. eauto.
  - destruct (IH _ _ _ Hg Hf) as [(c' & Hc' & H) | (g1 & Hg1 & Hf1)].
    + left. exists c'. split; [now right | assumption].
    + destruct (groupStep_files _ _ _ _ Hg1 Hf1) as [-> | [-> | H]].
      * left. exists c. split; [left | now left].
      * left. exists c. split; [left | now right].
      * now right.
Qed.

Lemma groupDuplicates_files cands g f :
  g ∈ groupDuplicates cands -> f ∈ files g ->
  exists c, c ∈ cands /\ (f = file1 c \/ f = file2 c).
Proof.
  unfold groupDuplicates. intros Hg Hf. apply elem_of_sort in Hg.
  destruct (foldl_groupStep_files _ _ _ _ Hg Hf) as [H | (g0 & H & _)];
    [assumption | now apply elem_of_nil in H].
Qed.

Lemma collectMarkdownFiles_vault app folder ignored f :
  f ∈ collectMarkdownFiles app folder ignored -> f ∈ getMarkdownFiles app.
Proof. unfold collectMarkdownFiles. intros H. now apply elem_of_bfilter in H. Qed.

(** *** The scan returns, and what it returns passed the filter *)

Lemma scanForDuplicates_spec app folder cfg refine signal onProgress task :
  let scanned := collectMarkdownFiles app folder (ignoredFolders cfg) in
  exists groups task',
    scanForDuplicates app folder cfg refine signal onProgress task = (Ok groups, task')
    /\ (forall g c, g ∈ groups -> c ∈ candidates g ->
                    passed (buildExclusionMap app scanned) scanned c)
    /\ (forall g f, g ∈ groups -> f ∈ files g -> f ∈ scanned).
Proof.
  intros scanned. unfold scanForDuplicates. fold scanned.
  set (m := buildExclusionMap app scanned).
  assert (Hnil : forall task0 : Task,
            exists groups task',
              (Ok ([] : list DuplicateGroup), task0) = (Ok groups, task')
              /\ (forall g c, g ∈ groups -> c ∈ candidates g -> passed m scanned c)
              /\ (forall g f, g ∈ groups -> f ∈ files g -> f ∈ scanned)).
  { intros task0. exists [], task0. split; [reflexivity |].
    split; intros g c Hg; now apply elem_of_nil in Hg. }
  destruct (length scanned <? 2); [apply Hnil |].
  unfold bind at 1.
  destruct (report_ok onProgress
              (mkProgress collecting (length scanned) (length scanned)) task)
    as [task1 ->].
  unfold bind at 1.
  destruct (findTitleDuplicates_total scanned (titleSimilarityThreshold cfg) signal
              onProgress task1) as (found & task2 & -> & Hfound).
  unfold bind at 1, aborted at 1, gets.
  destruct (match signal with Some s => s (clock task2) | None => false end);
    [apply Hnil |].
  set (kept := filterExcludedCandidates found m).
  assert (Hkept : forall c, c ∈ kept -> passed m scanned c).
  { intros c Hc. unfold kept, filterExcludedCandidates in Hc.
    apply elem_of_bfilter in Hc. destruct Hc as [Hc Hk].
    split; [exact Hk | now apply Hfound]. }
  assert (Hrefined : exists cands task3,
            (if refine && (0 <? length kept)
             then refineWithContent app kept (contentSimilarityThreshold cfg)
                    (contentCharsToAnalyze cfg) signal onProgress
             else ret kept) task2 = (Ok cands, task3)
            /\ forall c, c ∈ cands -> passed m scanned c).
  { destruct (refine && (0 <? length kept)).
    - destruct (RefineFacts.refineWithContent_spec app (contentSimilarityThreshold cfg)
                  (contentCharsToAnalyze cfg) kept signal onProgress task2)
        as (n & task3 & E & _).
      eexists _, task3. split; [exact E |].
      intros c Hc. apply elem_of_sort, elem_of_map in Hc.
      destruct Hc as (c0 & <- & Hc0).
      destruct (RefineFacts.refined_same app (contentSimilarityThreshold cfg)
                  (contentCharsToAnalyze cfg) c0) as (E1 & E2 & _).
      destruct (Hkept c0) as (Hk & H1 & H2); [now apply (subseteq_take n kept) |].
      unfold passed. rewrite (notExcluded_files m _ c0 E1 E2), E1, E2. auto.
    - exists kept, task2. split; [reflexivity | exact Hkept]. }
  destruct Hrefined as (cands & task3 & E & Hcands).
  unfold bind at 1. rewrite E.
  unfold bind at 1, aborted at 1, gets.
  destruct (match signal with Some s => s (clock task3) | None => false end);
    [apply Hnil |].
  unfold bind at 1.
  destruct (report_ok onProgress (mkProgress grouping 0 (length cands)) task3)
    as [task4 ->].
  unfold bind at 1.
  destruct (report_ok onProgress
              (mkProgress done (length (groupDuplicates cands))
                 (length (groupDuplicates cands))) task4) as [task5 ->].
  exists (groupDuplicates cands), task5. split; [reflexivity |]. split.
  - intros g c Hg Hc. apply Hcands. eapply groupDuplicates_candidates; eauto.
  - intros g f Hg Hf.
    destruct (groupDuplicates_files _ _ _ Hg Hf) as (c & Hc & [-> | ->]);
      now apply Hcands.
Qed.

End ScanFacts.

Example scan_without_exclusion :
  fst (Scanner.scanForDuplicates smallVault (mkFolder "/") DEFAULT_SETTINGS false
         None true (Async.mkTask 0 []))
  = Async.Ok [mkGroup "notes" ["Notes"]%string [notesA; notesB]
                [mkCandidate notesA notesB 1 None None]].
Proof. vm_compute. reflexivity. Qed.

Example scan_with_exclusion :
  Scanner.buildExclusionMap excludingVault [notesA; notesB; untitled]
  = {[ "a/Notes.md"%string := {[ "b/Notes.md"%string ]} ]}
  /\ fst (Scanner.scanForDuplicates excludingVault (mkFolder "/") DEFAULT_SETTINGS false
            None true (Async.mkTask 0 []))
     = Async.Ok [].
Proof. split; vm_compute; reflexivity. Qed.

(** ** The cache manager *)

Module CacheFacts.
Import Js ListFacts Str Cache Fingerprint.

Lemma ofString_app s1 s2 : ofString (s1 ++ s2) = ofString s1 ++ ofString s2.
Proof. induction s1 as [| c s1 IH]; simpl; [reflexivity |]. now rewrite IH. Qed.

Lemma startsWith_spec p s : startsWith p s = true <-> exists rest, s = p ++ rest.
Proof.
  revert s. induction p as [| a p IH]; intros s; simpl.
  - split; eauto.
  - destruct s as [| b s].
    + split; [discriminate | intros [rest H]; discriminate].
    + rewrite andb_true_iff, bool_decide_eq_true, IH. split.
      * intros [-> [rest ->]]. eauto.
      * intros [rest H]. inversion H; subst. eauto.
Qed.

Lemma startsWith_scope scope d :
  startsWith (ofString (scope ++ "/")) (ofString d) = true <->
  exists rest, d = (scope ++ "/" ++ rest)%string.
Proof.
  rewrite startsWith_spec. split.
  - intros [rest H]. exists (toString rest). apply ofString_inj.
    rewrite H, !ofString_app, ofString_toString, <- app_assoc. reflexivity.
  - intros [rest ->]. exists (ofString rest).
    now rewrite !ofString_app, <- app_assoc.
Qed.

Lemma dirtyInside_spec this entry :
  dirtyInside this entry = true <->
  exists d, d ∈ dirtyPaths this /\ Stated.inScope (folderPath entry) d.
Proof.
  unfold dirtyInside, Stated.inScope.
  rewrite andb_true_iff, orb_true_iff, Nat.ltb_lt, String.eqb_eq, existsb_exists.
  split.
  - intros [Hsize [Hroot | (d & Hd & Hpre)]].
    + apply size_pos_elem_of in Hsize. destruct Hsize as [d Hd]. eauto.
    + exists d. split.
      * now apply elem_of_elements, list_elem_of_In.
      * right. now apply startsWith_scope.
  - intros (d & Hd & Hin). split.
    + assert (base.size (dirtyPaths this) <> 0); [| lia].
      apply size_non_empty_iff. intros He. apply (not_elem_of_empty (C:=gset string) d).
      now rewrite <- He.
    + destruct Hin as [Hroot | Hpre]; [now left | right].
      exists d. split.
      * now apply list_elem_of_In, elem_of_elements.
      * now apply startsWith_scope.
Qed.

Lemma maxMtimeOf_from files : forall m0,
  foldl (fun maxMtime f => if (maxMtime <? mtime f)%N then mtime f else maxMtime)
    m0 files
  = N.max m0 (Stated.latest files).
Proof.
  induction files as [| f files IH]; intros m0; simpl.
  - now rewrite N.max_0_r.
  - rewrite IH. destruct (m0 <? mtime f)%N eqn:E.
    + apply N.ltb_lt in E. lia.
    + apply N.ltb_ge in E. lia.
Qed.

Lemma maxMtimeOf_latest files : maxMtimeOf files = Stated.latest files.
Proof. unfold maxMtimeOf. now rewrite maxMtimeOf_from, N.max_0_l. Qed.

Lemma settingsDiffer_spec c cfg :
  settingsDiffer c cfg = false <->
  Stated.sameConfig (Stated.recorded c) (Stated.current cfg).
Proof.
  unfold settingsDiffer, Stated.sameConfig, Stated.recorded, Stated.current, numEq.
  rewrite !orb_false_iff, !negb_false_iff, !Qeq_bool_iff, Z.eqb_eq, eqb_true_iff.
  tauto.
Qed.

Lemma isValid_unfold this entry liveFiles cfg :
  isValid this entry liveFiles cfg
  = negb (dirtyInside this entry)
    && (length liveFiles =? fileCount entry)
    && (maxMtimeOf liveFiles =? maxMtime entry)%N
    && negb (settingsDiffer (entrySettings entry) cfg).
Proof.
  unfold isValid. fold (dirtyInside this entry).
  destruct (dirtyInside this entry); [reflexivity |].
  destruct (length liveFiles =? fileCount entry); [| reflexivity].
  destruct (maxMtimeOf liveFiles =? maxMtime entry)%N; [| reflexivity].
  destruct (settingsDiffer (entrySettings entry) cfg); reflexivity.
Qed.

Lemma isValid_false this entry liveFiles cfg :
  isValid this entry liveFiles cfg = false <->
  (exists d, d ∈ dirtyPaths this /\ Stated.inScope (folderPath entry) d)
  \/ length liveFiles <> fileCount entry
  \/ Stated.latest liveFiles <> maxMtime entry
  \/ ~ Stated.sameConfig (Stated.recorded (entrySettings entry)) (Stated.current cfg).
Proof.
  rewrite isValid_unfold, <- dirtyInside_spec, <- maxMtimeOf_latest,
    <- settingsDiffer_spec.
  rewrite !andb_false_iff, !negb_false_iff, Nat.eqb_neq, N.eqb_neq.
  destruct (settingsDiffer (entrySettings entry) cfg); intuition congruence.
Qed.

Lemma get_put this app now scope liveFiles groups cfg cfg' :
  get (put this now scope liveFiles groups cfg) app scope liveFiles cfg'
  = let after := put this now scope liveFiles groups cfg in
    let entry := mkEntry scope now (length liveFiles) (maxMtimeOf liveFiles)
                   (map serializeGroup groups)
                   (mkCacheSettings (titleSimilarityThreshold cfg)
                      (enableContentSimilarity cfg)
                      (contentSimilarityThreshold cfg)
                      (contentCharsToAnalyze cfg)) in
    if negb (isValid after entry liveFiles cfg')
    then (None, mkCache (delete scope (entries after)) (dirtyPaths after))
    else (Some (deserialize app entry), after).
Proof. unfold get, put. cbn [entries]. now rewrite lookup_insert_eq. Qed.

(** *** Reconstitution *)

Lemma resolvePaths_from app paths : forall acc,
  foldl (fun files path =>
           match getFileByPath app path with
           | Some file => files ++ [file]
           | None => files
           end) acc paths
  = acc ++ omap (getFileByPath app) paths.
Proof.
  induction paths as [| p paths IH]; intros acc; simpl.
  - now rewrite app_nil_r.
  - rewrite IH. destruct (getFileByPath app p); [| reflexivity].
    now rewrite <- app_assoc.
Qed.

Lemma resolvePaths_paths app fs :
  Stated.resolvable app fs ->
  map path (resolvePaths app (map path fs)) = map path fs.
Proof.
  unfold resolvePaths. rewrite resolvePaths_from. simpl.
  induction fs as [| f fs IH]; intros H; simpl; [reflexivity |].
  destruct (H f) as (f' & -> & E); [left |]. simpl. rewrite E. f_equal.
  apply IH. intros x Hx. apply H. now right.
Qed.

Lemma deserialize_from app sgs : forall acc,
  foldl (fun groups sg =>
           let files := resolvePaths app (filePaths sg) in
           if length files <? 2 then groups
           else groups ++ [mkGroup (sg_normalizedTitle sg) (setOf (sg_originalTitles sg))
                             files []]) acc sgs
  = acc ++ omap (fun sg =>
                   let files := resolvePaths app (filePaths sg) in
                   if length files <? 2 then None
                   else Some (mkGroup (sg_normalizedTitle sg)
                                (setOf (sg_originalTitles sg)) files [])) sgs.
Proof.
  induction sgs as [| sg sgs IH]; intros acc; simpl.
  - now rewrite app_nil_r.
  - rewrite IH. destruct (length (resolvePaths app (filePaths sg)) <? 2); [reflexivity |].
    now rewrite <- app_assoc.
Qed.

Lemma deserialize_membership app entry gs :
  groups entry = map serializeGroup gs ->
  (forall g, g ∈ gs -> 2 <= length (files g) /\ Stated.resolvable app (files g)) ->
  Stated.membership (deserialize app entry) = Stated.membership gs
  /\ map normalizedTitle (deserialize app entry) = map normalizedTitle gs.
Proof.
  intros E H. unfold deserialize. rewrite E, deserialize_from. clear E. simpl.
  induction gs as [| g gs IH]; simpl; [auto |].
  destruct (H g) as [Hlen Hres]; [left |].
  pose proof (resolvePaths_paths app (files g) Hres) as Hp.
  assert (Hl : length (resolvePaths app (map path (files g))) = length (files g)).
  { rewrite <- (length_map path), Hp. apply length_map. }
  rewrite Hl. destruct (length (files g) <? 2) eqn:E; [apply Nat.ltb_lt in E; lia |].
  destruct IH as [IH1 IH2]; [intros x Hx; apply H; now right |].
  unfold Stated.membership in *.
  split; cbn [map files normalizedTitle]; f_equal; assumption.
Qed.

End CacheFacts.

(** C2. [isValid] returns false exactly when a recorded dirty path falls
    inside the scope of the entry (any dirty path for the root scope, a path
    below the folder otherwise), or the number of live files differs from
    the recorded count, or their latest modification time differs from the
    recorded one, or one of the four similarity settings differs; so after
    [put], a [get] with the same files returns none when a similarity setting
    was changed, and when a dirty path inside the scope was registered. *)
Theorem isValid_fingerprint
    (this : Cache.CacheManager) (entry : CacheEntry) (liveFiles : list TFile)
    (cfg : DuplicateReviewerSettings) :
  (Cache.isValid this entry liveFiles cfg = false <->
     (exists d, d ∈ Cache.dirtyPaths this /\ Stated.inScope (folderPath entry) d)
     \/ length liveFiles <> fileCount entry
     \/ Stated.latest liveFiles <> maxMtime entry
     \/ ~ Stated.sameConfig (Stated.recorded (entrySettings entry)) (Stated.current cfg))
  /\ (forall app now scope gs changed,
        ~ Stated.sameConfig (Stated.current cfg) (Stated.current changed) ->
        fst (Cache.get (Cache.put this now scope liveFiles gs cfg) app scope liveFiles
               changed) = None)
  /\ (forall app now scope gs d,
        Stated.inScope scope d ->
        fst (Cache.get (Cache.markDirty (Cache.put this now scope liveFiles gs cfg) d)
               app scope liveFiles cfg) = None).
Proof.
  split; [apply CacheFacts.isValid_false | split].
  - intros app now scope gs changed Hchanged.
    rewrite CacheFacts.get_put. cbv zeta.
    set (entry' := mkEntry _ _ _ _ _ _).
    assert (E : Cache.isValid (Cache.put this now scope liveFiles gs cfg) entry'
                  liveFiles changed = false).
    { apply CacheFacts.isValid_false. right. right. right. exact Hchanged. }
    now rewrite E.
  - intros app now scope gs d Hd.
    unfold Cache.get, Cache.markDirty, Cache.put. cbn [Cache.entries Cache.dirtyPaths].
    rewrite lookup_insert_eq.
    set (entry' := mkEntry _ _ _ _ _ _). set (cm := Cache.mkCache _ _).
    assert (E : Cache.isValid cm entry' liveFiles cfg = false).
    { apply CacheFacts.isValid_false. left. exists d. split; [| exact Hd].
      unfold cm. cbn [Cache.dirtyPaths]. apply elem_of_union. right.
      now apply elem_of_singleton. }
    now rewrite E.
Qed.

(** C3, as stated, for every manager, group list and file list with
    nothing happening between [put] and [get]: it fails when a dirty path
    inside the scope was recorded before the [put], which [put] does not
    clear ([get] returns none), and when a group has fewer than two files,
    which the reconstitution drops. *)
Lemma cache_round_trip_fails :
  fst (Cache.get
         (Cache.put (Cache.mkCache ∅ {[ "a/Notes.md"%string ]}) 7 "/"
            [notesA; notesB; untitled] [pairGroup] DEFAULT_SETTINGS)
         smallVault "/" [notesA; notesB; untitled] DEFAULT_SETTINGS)
  = None
  /\ fst (Cache.get
            (Cache.put (Cache.mkCache ∅ ∅) 7 "/"
               [notesA; notesB; untitled] [pairGroup; loneGroup] DEFAULT_SETTINGS)
            smallVault "/" [notesA; notesB; untitled] DEFAULT_SETTINGS)
     = Some [mkGroup "notes" ["Notes"]%string [notesA; notesB] []].
Proof. split; vm_compute; reflexivity. Qed.

(** C3, amended: when no recorded dirty path falls inside the scope, and
    every group has at least two files, each resolvable by its path, [put]
    followed by [get] with the same files and settings returns a group list
    with the membership (by path) and the normalised titles of the original
    groups, and leaves the entry in place. *)
Theorem cache_round_trip
    (this : Cache.CacheManager) (app : App) (now : N) (scope : string)
    (liveFiles : list TFile) (gs : list DuplicateGroup)
    (cfg : DuplicateReviewerSettings)
    (clean : forall d, d ∈ Cache.dirtyPaths this -> ~ Stated.inScope scope d)
    (members : forall g, g ∈ gs ->
                 2 <= length (files g) /\ Stated.resolvable app (files g)) :
  exists cached,
    Cache.get (Cache.put this now scope liveFiles gs cfg) app scope liveFiles cfg
    = (Some cached, Cache.put this now scope liveFiles gs cfg)
    /\ Stated.membership cached = Stated.membership gs
    /\ map normalizedTitle cached = map normalizedTitle gs.
Proof.
  rewrite CacheFacts.get_put. cbv zeta.
  set (entry := mkEntry _ _ _ _ _ _).
  assert (E : Cache.isValid (Cache.put this now scope liveFiles gs cfg) entry
                liveFiles cfg = true).
  { apply not_false_iff_true. intros H. apply CacheFacts.isValid_false in H.
    destruct H as [(d & Hd & Hin) | [H | [H | H]]].
    - exact (clean d Hd Hin).
    - now apply H.
    - apply H. symmetry. apply CacheFacts.maxMtimeOf_latest.
    - apply H. unfold Stated.sameConfig, Stated.recorded, Stated.current. simpl.
      repeat split; reflexivity. }
  rewrite E. simpl. eexists. split; [reflexivity |].
  now apply CacheFacts.deserialize_membership.
Qed.

Lemma cache_round_trip_witness :
  exists cached,
    Cache.get
      (Cache.put (Cache.mkCache ∅ {[ "elsewhere/x.md"%string ]}) 7 "a"
         [notesA] [pairGroup] DEFAULT_SETTINGS)
      smallVault "a" [notesA] DEFAULT_SETTINGS
    = (Some cached,
       Cache.put (Cache.mkCache ∅ {[ "elsewhere/x.md"%string ]}) 7 "a"
         [notesA] [pairGroup] DEFAULT_SETTINGS)
    /\ Stated.membership cached = Stated.membership [pairGroup]
    /\ map normalizedTitle cached = map normalizedTitle [pairGroup].
Proof.
  apply (cache_round_trip (Cache.mkCache ∅ {[ "elsewhere/x.md"%string ]}) smallVault
           7 "a" [notesA] [pairGroup] DEFAULT_SETTINGS).
  - intros d Hd. simpl in Hd. apply elem_of_singleton in Hd. subst d.
    intros [H | [rest H]]; discriminate.
  - intros g Hg. apply list_elem_of_singleton in Hg. subst g. split.
    + simpl. lia.
    + intros f Hf. apply elem_of_cons in Hf. destruct Hf as [-> | Hf].
      * exists notesA. split; reflexivity.
      * apply list_elem_of_singleton in Hf. subst f.
        exists notesB. split; reflexivity.
Defined.

(** ** The orchestration *)

Module MainFacts.
Import Js ListFacts Async Main.

(** *** Running the monad step by step *)

Lemma bind_modify {S B} (f : S -> S) (k : unit -> M S B) s :
  bind (modify f) k s = k tt (f s).
Proof. reflexivity. Qed.

Lemma bind_gets {S A B} (f : S -> A) (k : A -> M S B) s :
  bind (gets f) k s = k (f s) s.
Proof. reflexivity. Qed.

Lemma bind_onTask {A B} (c : M Task A) (k : A -> M Plugin B) p a t' :
  c (task p) = (Ok a, t') -> bind (onTask c) k p = k a (withTask t' p).
Proof. intros H. unfold bind, onTask, zoom. now rewrite H. Qed.

Lemma bind_notice {B} n (k : unit -> M Plugin B) p :
  bind (notice n) k p = k tt (withNotices (notices p ++ [n]) p).
Proof. reflexivity. Qed.

(** A cache lookup writes nothing: it keeps the entries or evicts one. *)
(** What [save] writes: every entry but one under [__proto__]. *)
Lemma serialized_entries {A} (m : gmap string A) :
  map_fold (fun key entry serialized => Js.setProperty serialized key entry) ∅ m
  = delete "__proto__"%string m.
Proof.
  apply (map_fold_weak_ind (fun r m => r = delete "__proto__"%string m)).
  - now rewrite delete_empty.
  - intros i x m' r Hi ->. unfold Js.setProperty.
    destruct (String.eqb i "__proto__") eqn:E.
    + apply String.eqb_eq in E. subst i. now rewrite delete_insert_eq.
    + apply String.eqb_neq in E. now rewrite delete_insert_ne by congruence.
Qed.

Lemma cacheSave_run p :
  cacheSave p
  = (Ok tt,
     mkPlugin (settings p) (cacheManager p) (duplicateReviewView p) (scanControllers p)
       (dismissedGroups p) (dismissedSet p)
       (mkData (Some (delete "__proto__"%string (Cache.entries (cacheManager p))))
          (storedDismissedGroups (data p)))
       (notices p)
       (mkTask (S (S (clock (task p)))) (progress (task p)))).
Proof.
  unfold cacheSave, loadData, saveData, bind, onTask, zoom, suspend, modify, gets, ret.
  cbn [task withTask withData data]. now rewrite serialized_entries.
Qed.

Lemma bind_cacheSave {B} (k : unit -> M Plugin B) p :
  bind cacheSave k p
  = k tt (mkPlugin (settings p) (cacheManager p) (duplicateReviewView p)
            (scanControllers p) (dismissedGroups p) (dismissedSet p)
            (mkData (Some (delete "__proto__"%string (Cache.entries (cacheManager p))))
               (storedDismissedGroups (data p)))
            (notices p)
            (mkTask (S (S (clock (task p)))) (progress (task p)))).
Proof. unfold bind at 1. now rewrite cacheSave_run. Qed.

Lemma get_keeps cm app key fs cfg r cm' :
  Cache.get cm app key fs cfg = (r, cm') ->
  Cache.entries cm' ⊆ Cache.entries cm /\ Cache.dirtyPaths cm' = Cache.dirtyPaths cm.
Proof.
  unfold Cache.get. destruct (Cache.entries cm !! key) as [entry |].
  - destruct (negb _); intros H; inversion H; subst; simpl;
      (split; [| reflexivity]); [apply delete_subseteq | reflexivity].
  - intros H. inversion H; subst. split; reflexivity.
Qed.

(** A scan whose signal is aborted throughout returns no group. *)
Lemma scanForDuplicates_aborted app folder cfg refine signal onProgress t :
  (forall k, signal k = true) ->
  exists t',
    Scanner.scanForDuplicates app folder cfg refine (Some signal) onProgress t
    = (Ok [], t').
Proof.
  intros Hs. unfold Scanner.scanForDuplicates.
  destruct (length _ <? 2); [eexists; reflexivity |].
  unfold bind at 1.
  destruct (ScanFacts.report_ok onProgress
              (mkProgress collecting
                 (length (Scanner.collectMarkdownFiles app folder (ignoredFolders cfg)))
                 (length (Scanner.collectMarkdownFiles app folder (ignoredFolders cfg))))
              t) as [t1 ->].
  unfold bind at 1.
  destruct (ScanFacts.findTitleDuplicates_total
              (Scanner.collectMarkdownFiles app folder (ignoredFolders cfg))
              (titleSimilarityThreshold cfg) (Some signal) onProgress t1)
    as (found & t2 & -> & _).
  unfold bind at 1, aborted at 1, gets. rewrite Hs. eexists. reflexivity.
Qed.

(** What a cancelled scan leaves of the [try] blocks: nothing but the
    task's clock and progress. *)
Lemma reviewScan_aborted app now folder folderPath cacheKey fs signal p :
  (forall k, signal k = true) ->
  exists t', reviewScan app now folder folderPath cacheKey fs signal p
             = (Ok tt, withTask t' p).
Proof.
  intros Hs. unfold reviewScan. rewrite bind_gets.
  destruct (scanForDuplicates_aborted app folder (settings p)
              (enableContentSimilarity (settings p)) signal true (task p) Hs)
    as [t' E].
  rewrite (bind_onTask _ _ p [] t' E).
  unfold bind, onTask, zoom, aborted, gets. simpl. rewrite Hs.
  exists t'. reflexivity.
Qed.

Lemma buildScan_aborted app now folder folderPath cacheKey signal p :
  (forall k, signal k = true) ->
  exists t', buildScan app now folder folderPath cacheKey signal p
             = (Ok tt, withTask t' p).
Proof.
  intros Hs. unfold buildScan. rewrite bind_gets.
  destruct (scanForDuplicates_aborted app folder (settings p)
              (enableContentSimilarity (settings p)) signal true (task p) Hs)
    as [t' E].
  rewrite (bind_onTask _ _ p [] t' E).
  unfold bind, onTask, zoom, aborted, gets. simpl. rewrite Hs.
  exists t'. reflexivity.
Qed.

End MainFacts.

(** C5. When the signal is aborted at every check, [scanForDuplicates]
    returns the empty list and does not throw; the background cache build
    returns with the cache manager and the persisted data unchanged; and the
    review returns with the persisted data unchanged and the cache manager as
    the cache lookup before the scan left it (no entry added or replaced, the
    dirty paths as they were): neither performs a [put] or a [save]. *)
Theorem cancelled_scan_writes_nothing
    (app : App) (now : N) (folder : TFolder) (cfg : DuplicateReviewerSettings)
    (refine onProgress : bool) (signal : Async.AbortSignal)
    (t : Async.Task) (p : Main.Plugin)
    (cancelled : forall k, signal k = true) :
  (exists t',
     Scanner.scanForDuplicates app folder cfg refine (Some signal) onProgress t
     = (Async.Ok [], t'))
  /\ (exists p',
        Main.buildCacheInBackground app now folder signal p = (Async.Ok tt, p')
        /\ Main.cacheManager p' = Main.cacheManager p
        /\ Main.data p' = Main.data p)
  /\ (exists p',
        Main.startDuplicateReview app now folder signal p = (Async.Ok tt, p')
        /\ Main.cacheManager p'
           = snd (Cache.get (Main.cacheManager p) app (folder_path folder)
                    (Scanner.collectMarkdownFiles app folder
                       (ignoredFolders (Main.settings p)))
                    (Main.settings p))
        /\ Cache.entries (Main.cacheManager p') ⊆ Cache.entries (Main.cacheManager p)
        /\ Cache.dirtyPaths (Main.cacheManager p') = Cache.dirtyPaths (Main.cacheManager p)
        /\ Main.data p' = Main.data p).
Proof.
  split; [now apply MainFacts.scanForDuplicates_aborted | split].
  - unfold Main.buildCacheInBackground.
    rewrite MainFacts.bind_modify, MainFacts.bind_notice.
    unfold Async.tryFinally, Async.tryCatch.
    match goal with
    | |- context [Main.buildScan ?a ?n ?f ?fp ?k ?s ?q] =>
        destruct (MainFacts.buildScan_aborted a n f fp k s q cancelled) as [t' ->]
    end.
    eexists. split; [reflexivity |]. split; reflexivity.
  - unfold Main.startDuplicateReview.
    unfold Main.activateView. rewrite (MainFacts.bind_onTask Async.suspend _ p tt _ eq_refl).
    unfold Main.showScanning. rewrite MainFacts.bind_modify, MainFacts.bind_gets.
    set (p1 := match Main.duplicateReviewView _ with Some _ => _ | None => _ end).
    assert (Hp1 : Main.cacheManager p1 = Main.cacheManager p
                  /\ Main.data p1 = Main.data p /\ Main.settings p1 = Main.settings p).
    { unfold p1. destruct (Main.duplicateReviewView _); auto. }
    destruct Hp1 as (Hc & Hd & Hcfg). rewrite Hcfg.
    unfold Async.bind at 1. rewrite Hc.
    destruct (Cache.get _ _ _ _ _) as [[cached |] cm] eqn:Eg; simpl snd.
    + destruct (MainFacts.get_keeps _ _ _ _ _ _ _ Eg) as [Hsub Hdirty].
      rewrite MainFacts.bind_gets. unfold Main.setGroups.
      rewrite MainFacts.bind_modify.
      destruct (length _ =? 0); unfold Main.notice, Async.modify;
        (eexists; split; [reflexivity |]);
        simpl; destruct (Main.duplicateReviewView p1); simpl; auto.
    + destruct (MainFacts.get_keeps _ _ _ _ _ _ _ Eg) as [Hsub Hdirty].
      rewrite MainFacts.bind_modify, MainFacts.bind_notice.
      unfold Async.tryFinally, Async.tryCatch.
      match goal with
      | |- context [Main.reviewScan ?a ?n ?f ?fp ?k ?fs ?s ?q] =>
          destruct (MainFacts.reviewScan_aborted a n f fp k fs s q cancelled) as [t' ->]
      end.
      eexists. split; [reflexivity |]. simpl. auto.
Qed.

Lemma cancelled_scan_writes_nothing_witness :
  (exists t',
     Scanner.scanForDuplicates smallVault (mkFolder "/") DEFAULT_SETTINGS true
       (Some (fun _ => true)) true (Async.mkTask 0 []) = (Async.Ok [], t'))
  /\ (exists p',
        Main.buildCacheInBackground smallVault 7 (mkFolder "/") (fun _ => true) idlePlugin
        = (Async.Ok tt, p')
        /\ Main.cacheManager p' = Main.cacheManager idlePlugin
        /\ Main.data p' = Main.data idlePlugin)
  /\ (exists p',
        Main.startDuplicateReview smallVault 7 (mkFolder "/") (fun _ => true) idlePlugin
        = (Async.Ok tt, p')
        /\ Main.cacheManager p'
           = snd (Cache.get (Main.cacheManager idlePlugin) smallVault "/"
                    (Scanner.collectMarkdownFiles smallVault (mkFolder "/")
                       (ignoredFolders (Main.settings idlePlugin)))
                    (Main.settings idlePlugin))
        /\ Cache.entries (Main.cacheManager p') ⊆ Cache.entries (Main.cacheManager idlePlugin)
        /\ Cache.dirtyPaths (Main.cacheManager p')
           = Cache.dirtyPaths (Main.cacheManager idlePlugin)
        /\ Main.data p' = Main.data idlePlugin).
Proof.
  apply (cancelled_scan_writes_nothing smallVault 7 (mkFolder "/") DEFAULT_SETTINGS
           true true (fun _ => true) (Async.mkTask 0 []) idlePlugin).
  reflexivity.
Defined.

(** ** Dismissals *)

Module DismissalFacts.
Import Js ListFacts Str Async Main Dismissal.

Lemma insertString_perm x l : insertString x l ≡ₚ x :: l.
Proof.
  induction l as [| y l IH]; simpl; [reflexivity |].
  destruct (ltb (ofString y) (ofString x)); [| reflexivity].
  rewrite IH. apply perm_swap.
Qed.

Lemma sortStrings_perm l : sortStrings l ≡ₚ l.
Proof.
  unfold sortStrings. induction l as [| x l IH]; simpl; [reflexivity |].
  rewrite insertString_perm. now constructor.
Qed.

(** *** Sorting a sorted list changes nothing *)

Lemma ltb_asym s : forall t, ltb s t = true -> ltb t s = false.
Proof.
  induction s as [| a s IH]; intros [| b t]; simpl; try congruence.
  destruct (Char.code a <? Char.code b) eqn:E1,
           (Char.code b <? Char.code a) eqn:E2; try congruence.
  - apply Nat.ltb_lt in E1, E2. lia.
  - apply IH.
Qed.

Lemma insertString_sorted x l :
  Sorted inOrder l -> Sorted inOrder (insertString x l).
Proof.
  induction 1 as [| y l Hl IH Hy]; simpl; [repeat constructor |].
  destruct (ltb (ofString y) (ofString x)) eqn:E.
  - constructor; [exact IH |].
    destruct l as [| z l]; simpl.
    + constructor. now apply ltb_asym.
    + destruct (ltb (ofString z) (ofString x)); constructor;
        [now inversion Hy | now apply ltb_asym].
  - constructor; [now constructor |]. now constructor.
Qed.

Lemma sortStrings_sorted l : Sorted inOrder (sortStrings l).
Proof.
  unfold sortStrings. induction l as [| x l IH]; simpl; [constructor |].
  now apply insertString_sorted.
Qed.

Lemma sortStrings_fixed l : Sorted inOrder l -> sortStrings l = l.
Proof.
  unfold sortStrings. induction 1 as [| x l Hl IH Hx]; simpl; [reflexivity |].
  rewrite IH. destruct Hx as [| y l Hxy]; simpl; [reflexivity |].
  unfold inOrder in Hxy. now rewrite Hxy.
Qed.

Lemma sortStrings_idempotent l : sortStrings (sortStrings l) = sortStrings l.
Proof. apply sortStrings_fixed, sortStrings_sorted. Qed.

(** *** Keys of well-formed paths tell the sorted path lists apart *)

Lemma nul_split x : forall x' r r',
  nul ∉ x -> nul ∉ x' -> tailLike r -> tailLike r' ->
  x ++ r = x' ++ r' -> x = x' /\ r = r'.
Proof.
  induction x as [| c x IH]; intros [| c' x'] r r' Hx Hx' Hr Hr' E; simpl in E.
  - auto.
  - exfalso. destruct Hr as [-> | [t ->]]; [discriminate |].
    inversion E; subst. apply Hx'. left.
  - exfalso. destruct Hr' as [-> | [t ->]]; [discriminate |].
    inversion E; subst. apply Hx. left.
  - inversion E; subst. destruct (IH x' r r') as [-> ->]; auto.
    + intros H. apply Hx. now right.
    + intros H. apply Hx'. now right.
Qed.

Lemma join_cons_tail x l :
  exists r, join [nul] (x :: l) = x ++ r
            /\ tailLike r
            /\ (l = [] -> r = [])
            /\ (l <> [] -> r = nul :: join [nul] l).
Proof.
  destruct l as [| y l].
  - exists []. simpl. rewrite app_nil_r. unfold tailLike. intuition congruence.
  - exists (nul :: join [nul] (y :: l)). unfold tailLike.
    repeat split; eauto; congruence.
Qed.

Lemma join_nul_inj l1 : forall l2,
  Forall clean l1 -> Forall clean l2 ->
  join [nul] l1 = join [nul] l2 -> l1 = l2.
Proof.
  induction l1 as [| x l1 IH]; intros [| y l2] H1 H2 E.
  - reflexivity.
  - exfalso. inversion H2 as [| ? ? [Hy _] _]; subst.
    destruct (join_cons_tail y l2) as (r & Er & _). rewrite Er in E.
    simpl in E. destruct y; [congruence | discriminate].
  - exfalso. inversion H1 as [| ? ? [Hx _] _]; subst.
    destruct (join_cons_tail x l1) as (r & Er & _). rewrite Er in E.
    simpl in E. destruct x; [congruence | discriminate].
  - inversion H1 as [| ? ? [_ Hx] H1']; inversion H2 as [| ? ? [_ Hy] H2']; subst.
    destruct (join_cons_tail x l1) as (r1 & E1 & T1 & N1 & C1).
    destruct (join_cons_tail y l2) as (r2 & E2 & T2 & N2 & C2).
    rewrite E1, E2 in E.
    destruct (nul_split x y r1 r2 Hx Hy T1 T2 E) as [-> Er].
    f_equal. destruct l1 as [| a l1], l2 as [| b l2]; [reflexivity | | |].
    + rewrite (N1 eq_refl), C2 in Er by discriminate. discriminate.
    + rewrite (N2 eq_refl), C1 in Er by discriminate. discriminate.
    + rewrite C1, C2 in Er by discriminate. inversion Er. now apply IH.
Qed.

Lemma wellFormed_clean p : Stated.wellFormedPath p -> clean (ofString p).
Proof.
  intros [Hne Hnul]. split; [| exact Hnul].
  intros E. apply Hne. apply ofString_inj. now rewrite E.
Qed.

Lemma map_ofString_inj l1 : forall l2,
  map ofString l1 = map ofString l2 -> l1 = l2.
Proof.
  induction l1 as [| x l1 IH]; intros [| y l2] E; simpl in E; try discriminate;
    [reflexivity |].
  inversion E. f_equal; [now apply ofString_inj | now apply IH].
Qed.

Lemma dismissalKey_inj l1 l2 :
  Forall Stated.wellFormedPath l1 -> Forall Stated.wellFormedPath l2 ->
  dismissalKey l1 = dismissalKey l2 -> sortStrings l1 = sortStrings l2.
Proof.
  intros H1 H2 E. unfold dismissalKey, joinStrings in E.
  apply toString_inj in E. apply map_ofString_inj.
  apply join_nul_inj; [| | exact E].
  - apply Forall_forall. intros x Hx. apply elem_of_map in Hx.
    destruct Hx as (s & <- & Hs). apply wellFormed_clean.
    rewrite sortStrings_perm in Hs. rewrite Forall_forall in H1. now apply H1.
  - apply Forall_forall. intros x Hx. apply elem_of_map in Hx.
    destruct Hx as (s & <- & Hs). apply wellFormed_clean.
    rewrite sortStrings_perm in Hs. rewrite Forall_forall in H2. now apply H2.
Qed.

(** *** The lookup set and the persisted list agree *)

Lemma keys_from groups : forall acc : gset string,
  foldl (fun set group => set ∪ {[ dismissalKey group ]}) acc groups
  = acc ∪ list_to_set (map dismissalKey groups).
Proof.
  induction groups as [| g groups IH]; intros acc; simpl.
  - apply set_eq. intros x. rewrite elem_of_union, elem_of_empty. tauto.
  - rewrite IH. apply set_eq. intros x.
    rewrite !elem_of_union, elem_of_singleton. tauto.
Qed.

Lemma rebuildDismissalSet_consistent p : consistent (rebuildDismissalSet p).
Proof.
  unfold consistent, rebuildDismissalSet. simpl. rewrite keys_from.
  apply set_eq. intros x. rewrite elem_of_union, elem_of_empty. tauto.
Qed.

Lemma dismissGroup_consistent paths p :
  consistent p ->
  exists p', dismissGroup paths p = (Ok tt, p')
             /\ consistent p'
             /\ isDismissed p' paths = true.
Proof.
  intros H. eexists. split; [reflexivity |]. unfold consistent, isDismissed in *.
  simpl. split.
  - rewrite H. apply set_eq. intros x.
    rewrite elem_of_union, !elem_of_list_to_set, elem_of_singleton, !elem_of_map.
    split.
    + intros [(d & E & Hd) | ->].
      * exists d. split; [assumption |]. apply elem_of_app. now left.
      * exists (sortStrings paths). split.
        -- unfold dismissalKey. now rewrite sortStrings_idempotent.
        -- apply elem_of_app. right. now apply list_elem_of_singleton.
    + intros (d & E & Hd). apply elem_of_app in Hd. destruct Hd as [Hd | Hd].
      * left. eauto.
      * right. apply list_elem_of_singleton in Hd. subst.
        unfold dismissalKey. now rewrite sortStrings_idempotent.
  - apply bool_decide_eq_true. apply elem_of_union. right.
    now apply elem_of_singleton.
Qed.

Lemma isDismissed_spec p paths :
  consistent p ->
  Forall (Forall Stated.wellFormedPath) (dismissedGroups p) ->
  Forall Stated.wellFormedPath paths ->
  isDismissed p paths = true <->
  exists d, d ∈ dismissedGroups p /\ sortStrings d = sortStrings paths.
Proof.
  intros Hc Hd Hp. unfold isDismissed. rewrite bool_decide_eq_true, Hc.
  rewrite elem_of_list_to_set, elem_of_map. split.
  - intros (d & E & Hin). exists d. split; [assumption |].
    apply dismissalKey_inj; [| assumption | assumption].
    rewrite Forall_forall in Hd. now apply Hd.
  - intros (d & Hin & E). exists d. split; [| assumption].
    unfold dismissalKey. now rewrite E.
Qed.

End DismissalFacts.

Module ReviewFacts.
Import Js ListFacts Async Main MainFacts.

Lemma clearDirty_entries cm key :
  Cache.entries (Cache.clearDirtyPathsForFolder cm key) = Cache.entries cm.
Proof. unfold Cache.clearDirtyPathsForFolder. now destruct (String.eqb key "/"). Qed.

(** The [try] block of the review when the scan completes and the signal
    is not aborted afterwards. *)
Lemma reviewScan_completed app now folder folderPath cacheKey fs signal p gs t' view :
  Scanner.scanForDuplicates app folder (settings p)
    (enableContentSimilarity (settings p)) (Some signal) true (task p) = (Ok gs, t') ->
  signal (clock t') = false ->
  duplicateReviewView p = Some view ->
  exists p',
    reviewScan app now folder folderPath cacheKey fs signal p = (Ok tt, p')
    /\ cacheManager p'
       = Cache.clearDirtyPathsForFolder
           (Cache.put (cacheManager p) now cacheKey fs gs (settings p)) cacheKey
    /\ data p' = mkData (Some (delete "__proto__"%string
                                  (Cache.entries (cacheManager p'))))
                   (storedDismissedGroups (data p))
    /\ duplicateReviewView p'
       = Some (mkView (filterDismissedGroups p gs) folderPath false false)
    /\ dismissedGroups p' = dismissedGroups p
    /\ dismissedSet p' = dismissedSet p.
Proof.
  intros Hscan Hsig Hview. unfold reviewScan. rewrite bind_gets.
  rewrite (bind_onTask _ _ p gs t' Hscan).
  unfold bind at 1, onTask at 1, zoom, aborted, gets. cbn [task withTask].
  rewrite Hsig. rewrite !bind_modify, bind_cacheSave.
  unfold bind, onTask, zoom, suspend, modify, gets, setGroups, notice.
  cbn [duplicateReviewView withCache withTask]. rewrite Hview.
  destruct (length _ =? 0); eexists; repeat split; reflexivity.
Qed.

End ReviewFacts.

(** Dismissal filters the display only.  In a review that misses the cache
    and whose scan is not cancelled, the cache entry written for the scope
    holds every group of the scan, dismissed or not: its title, its
    original titles and the paths of its files.  The groups shown are the
    scan's groups, in their order, without exactly those whose sorted path
    list equals the sorted path list of some dismissed group.  What is
    persisted are the entries of the cache manager but one under the key
    [__proto__], so that the entry of any other scope is persisted. *)
Theorem dismissal_filters_display_only
    (app : App) (now : N) (folder : TFolder) (signal : Async.AbortSignal)
    (p : Main.Plugin) (view : Main.View)
    (notCancelled : forall k, signal k = false)
    (paneOpen : Main.duplicateReviewView p = Some view)
    (miss : fst (Cache.get (Main.cacheManager p) app (folder_path folder)
                   (Scanner.collectMarkdownFiles app folder
                      (ignoredFolders (Main.settings p)))
                   (Main.settings p)) = None)
    (consistent : Main.dismissedSet p
                  = list_to_set (map Main.dismissalKey (Main.dismissedGroups p)))
    (vaultPaths : Forall (fun f => Stated.wellFormedPath (path f)) (getMarkdownFiles app))
    (dismissedPaths : Forall (Forall Stated.wellFormedPath) (Main.dismissedGroups p)) :
  exists gs p' entry shown,
    Main.startDuplicateReview app now folder signal p = (Async.Ok tt, p')
    /\ fst (Scanner.scanForDuplicates app folder (Main.settings p)
              (enableContentSimilarity (Main.settings p)) (Some signal) true
              (Async.mkTask (S (Async.clock (Main.task p)))
                 (Async.progress (Main.task p)))) = Async.Ok gs
    /\ Cache.entries (Main.cacheManager p') !! folder_path folder = Some entry
    /\ Forall2 (fun stored g =>
                  sg_normalizedTitle stored = normalizedTitle g
                  /\ sg_originalTitles stored = originalTitles g
                  /\ filePaths stored = map path (files g))
         (groups entry) gs
    /\ Main.duplicateCache (Main.data p')
       = Some (delete "__proto__"%string (Cache.entries (Main.cacheManager p')))
    /\ (folder_path folder <> "__proto__"%string ->
        exists stored,
          Main.duplicateCache (Main.data p') = Some stored
          /\ stored !! folder_path folder = Some entry)
    /\ Main.duplicateReviewView p' = Some shown
    /\ sublist (Main.viewGroups shown) gs
    /\ forall g,
         g ∈ Main.viewGroups shown <->
         g ∈ gs
         /\ ~ exists d, d ∈ Main.dismissedGroups p
                        /\ Js.sortStrings d = Js.sortStrings (map path (files g)).
Proof.
  set (scanned := Scanner.collectMarkdownFiles app folder
                    (ignoredFolders (Main.settings p))) in *.
  set (t1 := Async.mkTask _ _).
  destruct (ScanFacts.scanForDuplicates_spec app folder (Main.settings p)
              (enableContentSimilarity (Main.settings p)) (Some signal) true t1)
    as (gs & t2 & Hscan & _ & Hfiles).
  set (folderPath := if String.eqb (folder_path folder) "/"
                     then "Entire vault"%string else folder_path folder).
  set (view1 := Main.mkView [] folderPath true false).
  set (p1 := Main.withView (Some view1) (Main.withTask t1 p)).
  set (p2 := Main.withNotices (Main.notices p1 ++ [Main.Scanning folderPath])
               (Main.withControllers (Main.scanControllers p1 ∪ {[ folder_path folder ]})
                  (Main.withCache
                     (snd (Cache.get (Main.cacheManager p) app (folder_path folder)
                             scanned (Main.settings p))) p1))).
  destruct (ReviewFacts.reviewScan_completed app now folder folderPath
              (folder_path folder) scanned signal p2 gs t2 view1)
    as (p3 & Hrun & Hcache & Hdata & Hview & Hgroups & Hset);
    [exact Hscan | apply notCancelled | reflexivity |].
  assert (Hstart : Main.startDuplicateReview app now folder signal p
                   = (Async.Ok tt,
                      Main.withControllers
                        (Main.scanControllers p3 ∖ {[ folder_path folder ]}) p3)).
  { unfold Main.startDuplicateReview, Main.activateView.
    rewrite (MainFacts.bind_onTask Async.suspend _ p tt t1 eq_refl).
    unfold Main.showScanning. rewrite MainFacts.bind_modify.
    cbn [Main.duplicateReviewView Main.withTask]. rewrite paneOpen.
    fold folderPath view1 p1. rewrite MainFacts.bind_gets.
    change (Main.settings p1) with (Main.settings p).
    unfold Async.bind at 1.
    change (Main.cacheManager p1) with (Main.cacheManager p). fold scanned.
    destruct (Cache.get (Main.cacheManager p) app (folder_path folder) scanned
                (Main.settings p)) as [r cm] eqn:Eg.
    simpl in miss. subst r.
    rewrite MainFacts.bind_modify, MainFacts.bind_notice.
    unfold Async.tryFinally, Async.tryCatch. fold scanned in Hrun.
    change (Main.withNotices _ _) with p2. rewrite Hrun. reflexivity. }
  eexists gs, _, _, _. split; [exact Hstart |].
  split; [now rewrite Hscan |].
  cbn [Main.cacheManager Main.withControllers Main.data Main.duplicateReviewView].
  rewrite Hcache, ReviewFacts.clearDirty_entries.
  split; [unfold Cache.put; cbn [Cache.entries]; apply lookup_insert_eq |].
  split.
  { cbn [groups]. clear. induction gs as [| g gs IH]; simpl; constructor; auto. }
  split; [rewrite Hdata, Hcache, ReviewFacts.clearDirty_entries; reflexivity |].
  split.
  { intros Hkey. rewrite Hdata, Hcache, ReviewFacts.clearDirty_entries.
    eexists. split; [reflexivity |].
    rewrite lookup_delete_ne by congruence.
    unfold Cache.put. cbn [Cache.entries]. apply lookup_insert_eq. }
  split; [exact Hview |].
  cbn [Main.viewGroups]. unfold Main.filterDismissedGroups. split.
  - clear. induction gs as [| g gs IH]; simpl; [constructor |].
    destruct (negb _); now constructor.
  - intros g. rewrite ListFacts.elem_of_bfilter, negb_true_iff.
    assert (Hsame : Main.isDismissed p2 (map path (files g))
                    = Main.isDismissed p (map path (files g))) by reflexivity.
    rewrite Hsame. split.
    + intros [Hg Hd]. split; [assumption |]. intros Hex.
      apply (DismissalFacts.isDismissed_spec p) in Hex;
        [congruence | assumption | assumption |].
      apply Forall_forall. intros x Hx. apply ListFacts.elem_of_map in Hx.
      destruct Hx as (f & <- & Hf). rewrite Forall_forall in vaultPaths.
      apply vaultPaths. eapply ScanFacts.collectMarkdownFiles_vault. eauto.
    + intros [Hg Hd]. split; [assumption |].
      apply not_true_iff_false. intros Hdis. apply Hd.
      apply (DismissalFacts.isDismissed_spec p); try assumption.
      apply Forall_forall. intros x Hx. apply ListFacts.elem_of_map in Hx.
      destruct Hx as (f & <- & Hf). rewrite Forall_forall in vaultPaths.
      apply vaultPaths. eapply ScanFacts.collectMarkdownFiles_vault. eauto.
Qed.

Lemma smallVault_paths :
  Forall (fun f => Stated.wellFormedPath (path f)) (getMarkdownFiles smallVault).
Proof.
  repeat constructor; try discriminate;
    apply (bool_decide_unpack _); vm_compute; exact I.
Qed.

Example dismissal_filters_display_only_small :
  exists gs p' entry shown,
    Main.startDuplicateReview smallVault 7 (mkFolder "/") (fun _ => false) dismissingPlugin
    = (Async.Ok tt, p')
    /\ fst (Scanner.scanForDuplicates smallVault (mkFolder "/")
              (Main.settings dismissingPlugin)
              (enableContentSimilarity (Main.settings dismissingPlugin))
              (Some (fun _ => false)) true
              (Async.mkTask (S (Async.clock (Main.task dismissingPlugin)))
                 (Async.progress (Main.task dismissingPlugin)))) = Async.Ok gs
    /\ Cache.entries (Main.cacheManager p') !! folder_path (mkFolder "/") = Some entry
    /\ Forall2 (fun stored g =>
                  sg_normalizedTitle stored = normalizedTitle g
                  /\ sg_originalTitles stored = originalTitles g
                  /\ filePaths stored = map path (files g))
         (groups entry) gs
    /\ Main.duplicateCache (Main.data p')
       = Some (delete "__proto__"%string (Cache.entries (Main.cacheManager p')))
    /\ (folder_path (mkFolder "/") <> "__proto__"%string ->
        exists stored,
          Main.duplicateCache (Main.data p') = Some stored
          /\ stored !! folder_path (mkFolder "/") = Some entry)
    /\ Main.duplicateReviewView p' = Some shown
    /\ sublist (Main.viewGroups shown) gs
    /\ forall g,
         g ∈ Main.viewGroups shown <->
         g ∈ gs
         /\ ~ exists d, d ∈ Main.dismissedGroups dismissingPlugin
                        /\ Js.sortStrings d = Js.sortStrings (map path (files g)).
Proof.
  apply (dismissal_filters_display_only smallVault 7 (mkFolder "/") (fun _ => false)
           dismissingPlugin (Main.mkView [] "Entire vault" false false)).
  - reflexivity.
  - reflexivity.
  - vm_compute. reflexivity.
  - vm_compute. reflexivity.
  - exact smallVault_paths.
  - repeat constructor; try discriminate;
      apply (bool_decide_unpack _); vm_compute; exact I.
Qed.

Example dismissed_group_cached_not_shown :
  exists p',
    Main.startDuplicateReview smallVault 7 (mkFolder "/") (fun _ => false) dismissingPlugin
    = (Async.Ok tt, p')
    /\ option_map Main.viewGroups (Main.duplicateReviewView p') = Some []
    /\ option_map groups (Cache.entries (Main.cacheManager p') !! "/"%string)
       = Some [mkSerialized "notes" ["Notes"]%string ["a/Notes.md"; "b/Notes.md"]%string]
    /\ Main.duplicateCache (Main.data p') = Some (Cache.entries (Main.cacheManager p')).
Proof. eexists. split; [vm_compute; reflexivity |]. repeat split. Qed.

(** C6, at a scope the code mishandles: a review of the root folder named
    [__proto__] finds the group of its two notes and stores it in the cache
    manager, but persists no entry for the scope: [save] assigns the entry
    to the key [__proto__] of a plain object, which sets the prototype of
    the object and writes nothing. *)
Theorem review_of_proto_folder_not_persisted :
  exists p' entry,
    Main.startDuplicateReview protoVault 7 (mkFolder "__proto__") (fun _ => false)
      idlePlugin = (Async.Ok tt, p')
    /\ option_map Main.viewGroups (Main.duplicateReviewView p')
       = Some [mkGroup "notes" ["Notes"]%string [protoNotes; protoNotesOld]
                 [mkCandidate protoNotes protoNotesOld 1 None None]]
    /\ Cache.entries (Main.cacheManager p') !! "__proto__"%string = Some entry
    /\ groups entry
       = [mkSerialized "notes" ["Notes"]%string
            ["__proto__/Notes.md"; "__proto__/old/Notes.md"]%string]
    /\ Main.duplicateCache (Main.data p') = Some ∅.
Proof. eexists _, _. split; [vm_compute; reflexivity |]. repeat split. Qed.

(** ** Laws of the two similarity scores *)

Module SimilarityLaws.
Import Js Str Similarity Stated JaccardFacts.

Implicit Types (X Y : gset string).

Lemma ratio_range a b : a <= b -> (0 <= ratio a b <= 1)%Q.
Proof.
  intros H. unfold ratio, Qle. simpl. split; [lia |].
  destruct b as [| b]; [assert (a = 0) by lia; subst; simpl; lia |].
  rewrite Z.mul_1_r, Z.mul_1_l.
  replace (Z.pos (Pos.of_nat (S b))) with (Z.of_nat (S b)); [lia |].
  rewrite <- positive_nat_Z, Nat2Pos.id by lia. reflexivity.
Qed.

Lemma ratio_one a b : 0 < b -> (ratio a b == 1)%Q <-> a = b.
Proof.
  intros H. unfold ratio, Qeq. simpl. rewrite Z.mul_1_r.
  replace (Z.pos (Pos.of_nat b)) with (Z.of_nat b)
    by (rewrite <- positive_nat_Z, Nat2Pos.id by lia; reflexivity).
  lia.
Qed.

Lemma inter_subseteq_union X Y : X ∩ Y ⊆ X ∪ Y.
Proof. intros x. rewrite elem_of_intersection, elem_of_union. tauto. Qed.

Lemma similarity_comm X Y : similarity X Y = similarity Y X.
Proof.
  unfold similarity, jaccard. rewrite (orb_comm (size X =? 0)).
  now rewrite (jaccard_comm_sizes X Y).
Qed.

Lemma similarity_range X Y : (0 <= similarity X Y <= 1)%Q.
Proof.
  unfold similarity, jaccard.
  destruct ((size X =? 0) || (size Y =? 0)); [split; discriminate |].
  apply ratio_range, subseteq_size, inter_subseteq_union.
Qed.

Lemma inter_union_same X Y : size (X ∩ Y) = size (X ∪ Y) -> X = Y.
Proof.
  intros H.
  assert (E : X ∩ Y = X ∪ Y)
    by (apply set_subseteq_size_eq; [apply inter_subseteq_union | lia]).
  apply set_eq. intros x.
  assert (E' : x ∈ X ∩ Y <-> x ∈ X ∪ Y) by now rewrite E.
  rewrite elem_of_intersection, elem_of_union in E'. tauto.
Qed.

(** The score is 1 exactly for equal sets that are not empty. *)
Lemma similarity_one X Y : (similarity X Y == 1)%Q <-> X = Y /\ X <> ∅.
Proof.
  unfold similarity, jaccard.
  destruct (size X =? 0) eqn:EX; simpl.
  - apply Nat.eqb_eq, size_empty_iff in EX. apply leibniz_equiv in EX.
    split; [discriminate | tauto].
  - apply Nat.eqb_neq in EX.
    assert (HX : X <> ∅) by (intros ->; now rewrite size_empty in EX).
    destruct (size Y =? 0) eqn:EY.
    + apply Nat.eqb_eq, size_empty_iff in EY. apply leibniz_equiv in EY.
      split; [discriminate |]. intros [-> _]. congruence.
    + assert (0 < size (X ∪ Y)).
      { assert (size X <= size (X ∪ Y)); [| lia].
        apply subseteq_size. intros x. rewrite elem_of_union. tauto. }
      rewrite ratio_one by assumption. split.
      * intros H'. split; [now apply inter_union_same | assumption].
      * intros [-> _]. f_equal. apply set_eq. intros x.
        rewrite elem_of_intersection, elem_of_union. tauto.
Qed.

Lemma take_nothing (n : Z) (l : chars) : (n <= 0)%Z -> substring0 n l = [].
Proof.
  intros H. unfold substring0. replace (Z.to_nat n) with 0 by lia. reflexivity.
Qed.

End SimilarityLaws.

(** X1. [titleSimilarity] does not depend on the order of its two
    arguments, and its value lies between 0 and 1. *)
Theorem titleSimilarity_symmetric_bounded (title1 title2 : string) :
  Similarity.titleSimilarity title1 title2 = Similarity.titleSimilarity title2 title1
  /\ (0 <= Similarity.titleSimilarity title1 title2 <= 1)%Q.
Proof.
  pose proof (JaccardFacts.titleSimilarity_sets title1 title2) as E12.
  pose proof (JaccardFacts.titleSimilarity_sets title2 title1) as E21.
  fold (Stated.similarity (Stated.tokenSet title1) (Stated.tokenSet title2)) in E12.
  fold (Stated.similarity (Stated.tokenSet title2) (Stated.tokenSet title1)) in E21.
  rewrite E12, E21. split.
  - apply SimilarityLaws.similarity_comm.
  - apply SimilarityLaws.similarity_range.
Qed.

(** X2. Two titles score 1 exactly when their normalised titles have the
    same set of words and that set is not empty: the order of the words and
    their repetition do not count.  A title that normalises to nothing
    scores 0 against every title, also against itself. *)
Theorem titleSimilarity_one_iff_same_words (title1 title2 : string) :
  ((Similarity.titleSimilarity title1 title2 == 1)%Q
   <-> Stated.tokenSet title1 = Stated.tokenSet title2
       /\ Stated.tokenSet title1 <> ∅)
  /\ (Stated.tokenSet title1 = ∅ \/ Stated.tokenSet title2 = ∅ ->
      Similarity.titleSimilarity title1 title2 = 0%Q)
  /\ (Stated.tokenSet title1 = ∅ -> Similarity.titleSimilarity title1 title1 = 0%Q).
Proof.
  assert (Z : forall t1 t2,
            Stated.tokenSet t1 = ∅ \/ Stated.tokenSet t2 = ∅ ->
            Similarity.titleSimilarity t1 t2 = 0%Q).
  { intros t1 t2 H. rewrite (JaccardFacts.titleSimilarity_sets t1 t2).
    destruct H as [-> | ->]; rewrite size_empty; [reflexivity |].
    now rewrite orb_true_r. }
  split; [| split].
  - pose proof (JaccardFacts.titleSimilarity_sets title1 title2) as E.
    fold (Stated.similarity (Stated.tokenSet title1) (Stated.tokenSet title2)) in E.
    rewrite E. apply SimilarityLaws.similarity_one.
  - apply Z.
  - intros H. apply Z. now left.
Qed.

(** X3. A normalised title is a sequence of non-empty words separated by
    single spaces, with no space at either end, each word made of lower-case
    letters, digits and underscores only. *)
Theorem normalizeTitle_normal_form (title : string) :
  Normal.normalForm (ofString (Title.normalizeTitle title)).
Proof.
  unfold Title.normalizeTitle. rewrite ofString_toString.
  apply TitleFacts.normalizeChars_normalForm.
Qed.

(** X4. [contentSimilarity] does not depend on the order of the two
    contents, and its value lies between 0 and 1; with a number of
    characters to analyse that is zero or negative nothing of either body is
    compared, and the score is 0 whatever the contents. *)
Theorem contentSimilarity_symmetric_bounded (content1 content2 : string) (maxChars : Z) :
  Similarity.contentSimilarity content1 content2 maxChars
  = Similarity.contentSimilarity content2 content1 maxChars
  /\ (0 <= Similarity.contentSimilarity content1 content2 maxChars <= 1)%Q
  /\ ((maxChars <= 0)%Z ->
      Similarity.contentSimilarity content1 content2 maxChars = 0%Q).
Proof.
  split; [| split].
  - rewrite !JaccardFacts.contentSimilarity_sets. apply SimilarityLaws.similarity_comm.
  - rewrite !JaccardFacts.contentSimilarity_sets. apply SimilarityLaws.similarity_range.
  - intros nothing. unfold Similarity.contentSimilarity. cbv zeta.
    rewrite !SimilarityLaws.take_nothing by assumption. reflexivity.
Qed.

(** ** Collecting the files of a folder *)

Module PathFacts.
Import Str Scanner Paths ListFacts CacheFacts.

Lemma includes_spec sub s : includes sub s = true <-> occursIn sub s.
Proof.
  unfold occursIn. induction s as [| c s IH]; simpl.
  - rewrite orb_false_r, startsWith_spec. split.
    + intros [rest H]. exists [], rest. exact H.
    + intros (before & after & H). symmetry in H.
      apply app_eq_nil in H. destruct H as [-> H].
      apply app_eq_nil in H. destruct H as [-> ->]. now exists [].
  - rewrite orb_true_iff, startsWith_spec, IH. split.
    + intros [[rest H] | (before & after & H)].
      * exists [], rest. exact H.
      * exists (c :: before), after. now rewrite H.
    + intros (before & after & H). destruct before as [| b before].
      * left. now exists after.
      * right. inversion H; subst. now exists before, after.
Qed.

Lemma includes_empty s : includes [] s = true.
Proof. destruct s; reflexivity. Qed.

Local Abbreviation slash := ["/"%char].
Local Abbreviation dot := ["."%char].

Lemma startsWith_dot s : startsWith dot s = true <-> exists rest, s = "."%char :: rest.
Proof. rewrite startsWith_spec. reflexivity. Qed.

Lemma occurs_slash_dot c s :
  occursIn (ofString "/.") (c :: s) <->
  (c = "/"%char /\ exists rest, s = "."%char :: rest) \/ occursIn (ofString "/.") s.
Proof.
  unfold occursIn. simpl. split.
  - intros (before & after & H). destruct before as [| b before].
    + left. inversion H; subst. eauto.
    + right. inversion H; subst. eauto.
  - intros [[-> [rest ->]] | (before & after & ->)].
    + now exists [], rest.
    + now exists (c :: before), after.
Qed.

(** Some piece between slashes starts with a dot exactly when the text
    read so far and what follows make a hidden path. *)
Lemma splitOn_hidden s : forall cur,
  existsb (startsWith dot) (splitOn slash 0 cur s) = true <->
  startsWith dot (rev cur ++ s) = true \/ occursIn (ofString "/.") s.
Proof.
  induction s as [| c s IH]; intros cur.
  - simpl. rewrite orb_false_r, app_nil_r. split; [tauto |].
    intros [H | (before & after & H)]; [exact H |].
    destruct before; discriminate.
  - cbn [splitOn]. cbn [startsWith].
    rewrite andb_true_r. cbn [length Nat.sub].
    destruct (bool_decide ("/"%char = c)) eqn:E.
    + apply bool_decide_eq_true in E. subst c.
      cbn [existsb]. rewrite orb_true_iff, (IH []). simpl rev. simpl app at 1.
      rewrite occurs_slash_dot, startsWith_dot.
      assert (Hhead : startsWith dot (rev cur) = true <->
                      startsWith dot (rev cur ++ "/"%char :: s) = true).
      { destruct (rev cur) as [| a r]; [split; discriminate | reflexivity]. }
      rewrite <- Hhead. intuition.
    + apply bool_decide_eq_false in E.
      rewrite (IH (c :: cur)), occurs_slash_dot. simpl rev.
      rewrite <- app_assoc. simpl app. intuition congruence.
Qed.

Lemma hidden_spec p :
  existsb (fun part => startsWith ["."%char] part) (split ["/"%char] p) = true
  <-> hidden p.
Proof.
  unfold split, hidden. rewrite (splitOn_hidden p []). simpl rev. simpl app.
  now rewrite startsWith_dot.
Qed.

Lemma shouldSkipPath_spec p ignored :
  shouldSkipPath p ignored = true <->
  (exists ignore, ignore ∈ ignored /\ occursIn (ofString ignore) (ofString p))
  \/ hidden (ofString p).
Proof.
  unfold shouldSkipPath.
  destruct (existsb _ ignored) eqn:E.
  - split; [| reflexivity]. intros _. left.
    apply existsb_exists in E. destruct E as (ignore & Hin & H).
    exists ignore. split; [now apply list_elem_of_In | now apply includes_spec].
  - rewrite hidden_spec. split; [tauto |].
    intros [(ignore & Hin & H) | H]; [| exact H].
    assert (existsb (fun ignore => includes (ofString ignore) (ofString p)) ignored
            = true); [| congruence].
    apply existsb_exists. exists ignore.
    split; [now apply list_elem_of_In | now apply includes_spec].
Qed.

Lemma inScope_test folder f :
  (String.eqb (if String.eqb (folder_path folder) "/" then ""%string
               else (folder_path folder ++ "/")%string) ""
   || startsWith
        (ofString (if String.eqb (folder_path folder) "/" then ""%string
                   else (folder_path folder ++ "/")%string))
        (ofString (path f))) = true
  <-> Stated.inScope (folder_path folder) (path f).
Proof.
  unfold Stated.inScope.
  destruct (String.eqb_spec (folder_path folder) "/") as [E | E].
  - simpl. tauto.
  - assert (String.eqb (folder_path folder ++ "/") "" = false) as ->.
    { apply String.eqb_neq. destruct (folder_path folder); discriminate. }
    simpl. rewrite startsWith_scope. tauto.
Qed.

Lemma elem_of_collect app folder ignored f :
  f ∈ collectMarkdownFiles app folder ignored <->
  f ∈ getMarkdownFiles app
  /\ Stated.inScope (folder_path folder) (path f)
  /\ shouldSkipPath (path f) ignored = false.
Proof.
  unfold collectMarkdownFiles.
  rewrite elem_of_bfilter, andb_true_iff, negb_true_iff, inScope_test. tauto.
Qed.

Lemma bfilter_sublist {A} (f g : A -> bool) l :
  (forall x, f x = true -> g x = true) ->
  sublist (List.filter f l) (List.filter g l).
Proof.
  intros H. induction l as [| x l IH]; simpl; [constructor |].
  destruct (f x) eqn:E.
  - rewrite (H x E). now constructor.
  - destruct (g x); [now constructor | exact IH].
Qed.

Lemma bfilter_sublist_all {A} (f : A -> bool) l : sublist (List.filter f l) l.
Proof.
  induction l as [| x l IH]; simpl; [constructor |].
  destruct (f x); now constructor.
Qed.

End PathFacts.

(** X5. [shouldSkipPath] skips a path exactly when one of the ignored names
    occurs anywhere in it, as a substring and not only as a folder name, or
    when one of its components starts with a dot. *)
Theorem shouldSkipPath_iff (p : string) (ignored : list string) :
  Scanner.shouldSkipPath p ignored = true <->
  (exists ignore, ignore ∈ ignored /\ Paths.occursIn (ofString ignore) (ofString p))
  \/ Paths.hidden (ofString p).
Proof. apply PathFacts.shouldSkipPath_spec. Qed.

(** X6. [collectMarkdownFiles] returns, in the order of the vault, exactly
    the markdown files that lie inside the folder (below its path followed
    by a slash, or anywhere for the root) and are not skipped; so the files
    collected for a folder are among those collected for the root. *)
Theorem collectMarkdownFiles_scope (app : App) (folder : TFolder)
    (ignored : list string) :
  (forall f,
     f ∈ Scanner.collectMarkdownFiles app folder ignored <->
     f ∈ getMarkdownFiles app
     /\ Stated.inScope (folder_path folder) (path f)
     /\ Scanner.shouldSkipPath (path f) ignored = false)
  /\ sublist (Scanner.collectMarkdownFiles app folder ignored)
       (Scanner.collectMarkdownFiles app Paths.root ignored)
  /\ sublist (Scanner.collectMarkdownFiles app Paths.root ignored)
       (getMarkdownFiles app).
Proof.
  split; [intros f; apply PathFacts.elem_of_collect | split].
  - unfold Scanner.collectMarkdownFiles. apply PathFacts.bfilter_sublist.
    intros f H. apply andb_true_iff in H. destruct H as [_ H].
    simpl. exact H.
  - apply PathFacts.bfilter_sublist_all.
Qed.

(** X7. An empty string among the ignored folders occurs in every path:
    then every file is skipped, nothing is collected, and a scan returns no
    group, without reporting progress or suspending. *)
Theorem empty_ignored_name_skips_everything
    (app : App) (folder : TFolder) (cfg : DuplicateReviewerSettings) (refine : bool)
    (signal : option Async.AbortSignal) (onProgress : bool) (task : Async.Task)
    (blank : ""%string ∈ ignoredFolders cfg) :
  (forall p, Scanner.shouldSkipPath p (ignoredFolders cfg) = true)
  /\ Scanner.collectMarkdownFiles app folder (ignoredFolders cfg) = []
  /\ Scanner.scanForDuplicates app folder cfg refine signal onProgress task
     = (Async.Ok [], task).
Proof.
  assert (Hskip : forall p, Scanner.shouldSkipPath p (ignoredFolders cfg) = true).
  { intros p. apply PathFacts.shouldSkipPath_spec. left. exists ""%string.
    split; [exact blank |]. apply PathFacts.includes_spec, PathFacts.includes_empty. }
  assert (Hnone : Scanner.collectMarkdownFiles app folder (ignoredFolders cfg) = []).
  { unfold Scanner.collectMarkdownFiles.
    induction (getMarkdownFiles app) as [| f l IH]; [reflexivity |].
    simpl. now rewrite Hskip, andb_false_r. }
  split; [exact Hskip | split; [exact Hnone |]].
  unfold Scanner.scanForDuplicates. rewrite Hnone. reflexivity.
Qed.

Lemma empty_ignored_name_skips_everything_witness :
  (forall p, Scanner.shouldSkipPath p [".git"; ""]%string = true)
  /\ Scanner.collectMarkdownFiles smallVault Paths.root [".git"; ""]%string = []
  /\ Scanner.scanForDuplicates smallVault Paths.root
       (mkSettings (8 # 10) false (6 # 10) 1000 [".git"; ""]%string [] 3) false
       None true (Async.mkTask 0 [])
     = (Async.Ok [], Async.mkTask 0 []).
Proof.
  apply (empty_ignored_name_skips_everything smallVault Paths.root
           (mkSettings (8 # 10) false (6 # 10) 1000 [".git"; ""]%string [] 3) false
           None true (Async.mkTask 0 [])).
  simpl. apply elem_of_cons. right. apply elem_of_cons. now left.
Defined.

(** ** The run of a scan: results, progress and cancellation *)

Module RunFacts.
Import Js ListFacts Async Scanner Index IndexFacts RefineFacts ScanFacts.

(** Two word sets with a common word have a similarity above 0. *)
Lemma jaccard_shared words otherWords w :
  w ∈ words -> w ∈ otherWords -> (0 < jaccard words otherWords)%Q.
Proof.
  intros Hw Ho. unfold jaccard. cbv zeta.
  set (common := List.filter (fun w => has w otherWords) words).
  assert (Hin : w ∈ common) by (apply elem_of_bfilter; split; [| apply has_true]; auto).
  assert (1 <= length common) by (destruct common; [inversion Hin | simpl; lia]).
  assert (length common <= length words) by apply filter_length_le.
  assert (1 <= length otherWords) by (destruct otherWords; [inversion Ho | simpl; lia]).
  destruct (length words + length otherWords - length common =? 0) eqn:E;
    [apply Nat.eqb_eq in E; lia |].
  unfold ratio, Qlt. simpl. lia.
Qed.

Lemma scored_positive t fj fk c :
  shares fj fk -> scored t fj fk = Some c ->
  (0 < titleSimilarity c)%Q /\ geb (titleSimilarity c) t = true
  /\ contentSimilarity c = None /\ likelyDuplicate c = None.
Proof.
  intros (w & Hj & Hk) H. unfold scored in H. cbv zeta in H.
  destruct (geb _ t) eqn:E; [| discriminate]. inversion H; subst c. simpl.
  repeat split; [| exact E]. eapply jaccard_shared; eassumption.
Qed.

(** The progress events of a loop over [n] items from index [i]. *)
Local Abbreviation steps := (fun (stage : Stage) (total i n : nat) =>
  map (fun k => mkProgress stage (k + 1) total) (seq i n)).

Lemma titleLoop_progress allFiles t signal onProgress rest : forall i st task,
  quiet signal ->
  titleLoop allFiles t signal onProgress rest i st task
  = (Ok (runFrom allFiles t rest i st),
     mkTask (clock task + length rest)
       (progress task
        ++ if onProgress then steps comparing (length allFiles) i (length rest)
           else [])).
Proof.
  induction rest as [| file rest IH]; intros i st task Hq; simpl.
  - unfold ret. rewrite Nat.add_0_r. destruct task, onProgress; simpl;
      now rewrite ?app_nil_r.
  - unfold bind at 1. rewrite aborted_quiet by assumption.
    unfold bind, yieldToEventLoop, suspend, modify, report.
    destruct onProgress; simpl; rewrite IH by assumption; simpl.
    + replace (clock task + S (length rest)) with (S (clock task + length rest)) by lia.
      now rewrite <- app_assoc.
    + replace (clock task + S (length rest)) with (S (clock task + length rest)) by lia.
      reflexivity.
Qed.

Lemma findTitleDuplicates_progress files t signal onProgress task :
  quiet signal ->
  findTitleDuplicates files t signal onProgress task
  = (Ok (sort byTitle (duplicates (runFrom files t files 0 (mkIndexState [] ∅ ∅)))),
     mkTask (clock task + length files)
       (progress task
        ++ if onProgress then steps comparing (length files) 0 (length files)
           else [])).
Proof.
  intros Hq. unfold findTitleDuplicates, bind.
  now rewrite titleLoop_progress by assumption.
Qed.

Lemma refineItem_progress app contentThreshold maxChars item acc task :
  exists task',
    refineItem app contentThreshold maxChars item acc task
    = (Ok (acc ++ [Refined.refined app contentThreshold maxChars item]), task')
    /\ progress task' = progress task.
Proof.
  unfold refineItem, tryCatch, bind, read, suspend, modify, Refined.refined. simpl.
  destruct (cachedRead app (file1 item)) as [c1 |]; simpl.
  - destruct (cachedRead app (file2 item)) as [c2 |]; simpl; eexists;
      (split; [reflexivity |]); reflexivity.
  - eexists. split; reflexivity.
Qed.

Lemma refineLoop_progress app contentThreshold maxChars signal onProgress total rest :
  forall i acc task,
    quiet signal ->
    exists task',
      refineLoop app contentThreshold maxChars signal onProgress total rest i acc task
      = (Ok (acc ++ map (Refined.refined app contentThreshold maxChars) rest), task')
      /\ progress task'
         = progress task
           ++ if onProgress then steps refining total i (length rest) else [].
Proof.
  induction rest as [| item rest IH]; intros i acc task Hq; simpl.
  - exists task. rewrite !app_nil_r. destruct onProgress; now rewrite ?app_nil_r.
  - unfold bind at 1. rewrite aborted_quiet by assumption.
    unfold bind at 1.
    destruct (refineItem_progress app contentThreshold maxChars item acc task)
      as (task1 & -> & P1).
    unfold bind, yieldToEventLoop, suspend, modify, report.
    destruct onProgress; simpl.
    + destruct (IH (S i) (acc ++ [Refined.refined app contentThreshold maxChars item])
                  (mkTask (S (clock task1))
                     (progress task1 ++ [mkProgress refining (i + 1) total])) Hq)
        as (task' & -> & P').
      exists task'. rewrite <- app_assoc. split; [reflexivity |].
      rewrite P'. simpl. rewrite P1, <- app_assoc. reflexivity.
    + destruct (IH (S i) (acc ++ [Refined.refined app contentThreshold maxChars item])
                  (mkTask (S (clock task1)) (progress task1)) Hq)
        as (task' & -> & P').
      exists task'. rewrite <- app_assoc. split; [reflexivity |].
      rewrite P'. simpl. now rewrite P1.
Qed.

Lemma refineWithContent_progress app candidates contentThreshold maxChars
    signal onProgress task :
  quiet signal ->
  exists task',
    refineWithContent app candidates contentThreshold maxChars signal onProgress task
    = (Ok (sort Refined.byCombined
             (map (Refined.refined app contentThreshold maxChars) candidates)), task')
    /\ progress task'
       = progress task
         ++ if onProgress
            then steps refining (length candidates) 0 (length candidates) else [].
Proof.
  intros Hq. unfold refineWithContent, bind.
  destruct (refineLoop_progress app contentThreshold maxChars signal onProgress
              (length candidates) candidates 0 [] task Hq) as (task' & -> & P).
  exists task'. split; [reflexivity | exact P].
Qed.

(** The value of [signal?.aborted] in a task. *)
Local Abbreviation abortedIn := (fun (signal : option AbortSignal) (task : Task) =>
  match signal with Some s => s (clock task) | None => false end).

Lemma report_clock onProgress p task :
  exists task', report onProgress p task = (Ok tt, task') /\ clock task' = clock task.
Proof. unfold report. destruct onProgress; eexists; split; reflexivity. Qed.

(** A scan returns; and it returns no group when its signal is aborted
    by the time of its return. *)
Lemma scanForDuplicates_late app folder cfg refine signal onProgress task :
  exists groups task',
    scanForDuplicates app folder cfg refine signal onProgress task = (Ok groups, task')
    /\ (abortedIn signal task' = true -> groups = []).
Proof.
  unfold scanForDuplicates.
  set (scanned := collectMarkdownFiles app folder (ignoredFolders cfg)).
  destruct (length scanned <? 2); [exists [], task; split; reflexivity |].
  unfold bind at 1.
  destruct (report_ok onProgress
              (mkProgress collecting (length scanned) (length scanned)) task)
    as [task1 ->].
  unfold bind at 1.
  destruct (findTitleDuplicates_total scanned (titleSimilarityThreshold cfg) signal
              onProgress task1) as (found & task2 & -> & _).
  unfold bind at 1, aborted at 1, gets.
  destruct (abortedIn signal task2); [exists [], task2; split; reflexivity |].
  set (kept := filterExcludedCandidates found _).
  assert (Hrefined : exists cands task3,
            (if refine && (0 <? length kept)
             then refineWithContent app kept (contentSimilarityThreshold cfg)
                    (contentCharsToAnalyze cfg) signal onProgress
             else ret kept) task2 = (Ok cands, task3)).
  { destruct (refine && (0 <? length kept)).
    - destruct (refineWithContent_spec app (contentSimilarityThreshold cfg)
                  (contentCharsToAnalyze cfg) kept signal onProgress task2)
        as (n & task3 & E & _). eauto.
    - exists kept, task2. reflexivity. }
  destruct Hrefined as (cands & task3 & E).
  unfold bind at 1. rewrite E.
  unfold bind at 1, aborted at 1, gets.
  destruct (abortedIn signal task3) eqn:Ea; [exists [], task3; split; reflexivity |].
  unfold bind at 1.
  destruct (report_clock onProgress (mkProgress grouping 0 (length cands)) task3)
    as (task4 & -> & C4).
  unfold bind at 1.
  destruct (report_clock onProgress
              (mkProgress done (length (groupDuplicates cands))
                 (length (groupDuplicates cands))) task4) as (task5 & -> & C5).
  exists (groupDuplicates cands), task5. split; [reflexivity |].
  intros H. rewrite C5, C4 in H. destruct signal; congruence.
Qed.

(** The refinement loop handles a prefix of the candidates: none when
    the signal is aborted at the first check, all when it never is. *)
Lemma refineLoop_prefix app contentThreshold maxChars signal onProgress total rest :
  forall i acc task,
    exists n task',
      refineLoop app contentThreshold maxChars signal onProgress total rest i acc task
      = (Ok (acc ++ map (Refined.refined app contentThreshold maxChars) (take n rest)),
         task')
      /\ n <= length rest
      /\ (quiet signal -> n = length rest)
      /\ (abortedIn signal task = true -> n = 0).
Proof.
  induction rest as [| item rest IH]; intros i acc task; simpl.
  - exists 0, task. rewrite app_nil_r. auto.
  - unfold bind at 1. unfold aborted at 1, gets.
    destruct (abortedIn signal task) eqn:E.
    + exists 0, task. simpl. rewrite app_nil_r.
      split; [reflexivity | split; [lia | split; [| auto]]].
      intros Hq. destruct signal as [s |]; [| discriminate].
      simpl in Hq. rewrite Hq in E. discriminate.
    + unfold bind at 1.
      destruct (refineItem_progress app contentThreshold maxChars item acc task)
        as (task1 & -> & _).
      unfold bind, yieldToEventLoop, suspend, modify. simpl.
      set (task2 := mkTask _ _).
      destruct (report onProgress (mkProgress refining (i + 1) total) task2)
        as [r task3] eqn:Er.
      assert (r = Ok tt) as ->.
      { unfold report in Er. destruct onProgress; inversion Er; reflexivity. }
      destruct (IH (S i) (acc ++ [Refined.refined app contentThreshold maxChars item])
                  task3) as (n & task' & -> & Hle & Hall & _).
      exists (S n), task'. simpl. rewrite <- app_assoc. simpl.
      split; [reflexivity | split; [lia | split; [| discriminate]]].
      intros Hq. now rewrite Hall.
Qed.

End RunFacts.

(** X8. For distinct files and a signal that is not aborted,
    [findTitleDuplicates] returns, for every threshold, exactly one candidate
    for each pair of an earlier and a later file whose normalised titles
    share a word and whose similarity reaches the threshold.  The candidates
    are sorted by descending similarity; each has a similarity above 0 and
    no content score yet. *)
Theorem findTitleDuplicates_sharing_pairs
    (files : list TFile) (t : Q) (signal : option Async.AbortSignal)
    (onProgress : bool) (task : Async.Task)
    (distinct : NoDup files) (notCancelled : Index.quiet signal) :
  exists out task',
    Scanner.findTitleDuplicates files t signal onProgress task = (Async.Ok out, task')
    /\ (forall c, c ∈ out <-> Index.emitted files t (length files) c)
    /\ NoDup out
    /\ Sorted (Stated.descending titleSimilarity) out
    /\ (forall c, c ∈ out ->
          (0 < titleSimilarity c)%Q /\ Js.geb (titleSimilarity c) t = true
          /\ contentSimilarity c = None /\ likelyDuplicate c = None).
Proof.
  destruct (IndexFacts.findTitleDuplicates_quiet files t signal onProgress task
              notCancelled) as [task' E].
  pose proof (IndexFacts.runFrom_all_inv files t distinct) as [_ _ Hnodup Hdups].
  eexists _, task'. split; [exact E |].
  assert (Hmem : forall c,
            c ∈ Js.sort Index.byTitle
                  (Scanner.duplicates
                     (Index.runFrom files t files 0 (Scanner.mkIndexState [] ∅ ∅)))
            <-> Index.emitted files t (length files) c)
    by (intros c; now rewrite ListFacts.elem_of_sort).
  split; [exact Hmem | split; [| split]].
  - now rewrite ListFacts.sort_perm.
  - apply (ListFacts.sort_sorted titleSimilarity).
  - intros c Hc. apply Hmem in Hc.
    destruct Hc as (j & k & fj & fk & _ & _ & _ & _ & Hsh & Hc).
    eapply RunFacts.scored_positive; eassumption.
Qed.

Lemma findTitleDuplicates_sharing_pairs_witness :
  exists out task',
    Scanner.findTitleDuplicates [notesA; notesB; untitled] 0 None false
      (Async.mkTask 0 []) = (Async.Ok out, task')
    /\ (forall c, c ∈ out <-> Index.emitted [notesA; notesB; untitled] 0 3 c)
    /\ NoDup out
    /\ Sorted (Stated.descending titleSimilarity) out
    /\ (forall c, c ∈ out ->
          (0 < titleSimilarity c)%Q /\ Js.geb (titleSimilarity c) 0 = true
          /\ contentSimilarity c = None /\ likelyDuplicate c = None).
Proof.
  apply (findTitleDuplicates_sharing_pairs [notesA; notesB; untitled] 0 None false
           (Async.mkTask 0 [])).
  - apply (bool_decide_unpack _). vm_compute. exact I.
  - exact I.
Defined.

(** X9. Whatever the signal does, [refineWithContent] returns without
    throwing: it refines the candidates in their order until a check finds
    the signal aborted, and returns the refined ones sorted by descending
    combined score.  These are the first [n] candidates for some [n]: none
    when the signal is aborted at the first check, all when it is never
    aborted. *)
Theorem refineWithContent_cancelled_prefix
    (app : App) (candidates : list DuplicateCandidate)
    (contentThreshold : Q) (maxChars : Z)
    (signal : option Async.AbortSignal) (onProgress : bool) (task : Async.Task) :
  exists n task',
    Scanner.refineWithContent app candidates contentThreshold maxChars
      signal onProgress task
    = (Async.Ok (Js.sort Refined.byCombined
                   (map (Refined.refined app contentThreshold maxChars)
                      (take n candidates))),
       task')
    /\ n <= length candidates
    /\ (Index.quiet signal -> n = length candidates)
    /\ (match signal with
        | Some s => s (Async.clock task) = true
        | None => False
        end -> n = 0).
Proof.
  unfold Scanner.refineWithContent, Async.bind.
  destruct (RunFacts.refineLoop_prefix app contentThreshold maxChars signal onProgress
              (length candidates) candidates 0 [] task)
    as (n & task' & -> & Hle & Hall & Hnone).
  exists n, task'. split; [reflexivity | split; [exact Hle | split; [exact Hall |]]].
  intros H. apply Hnone. destruct signal; [exact H | contradiction].
Qed.

(** ** Grouping *)

Module GroupFacts.
Import Js ListFacts Scanner Grouping.

Lemma built_snoc title cs c :
  built title (cs ++ [c]) = addToGroup c (built title cs).
Proof. unfold built. now rewrite foldl_app. Qed.

Lemma normalizedTitle_built title cs : normalizedTitle (built title cs) = title.
Proof.
  induction cs as [| c cs IH] using rev_ind; [reflexivity |].
  now rewrite built_snoc.
Qed.

Lemma candidates_built title cs : candidates (built title cs) = cs.
Proof.
  induction cs as [| c cs IH] using rev_ind; [reflexivity |].
  rewrite built_snoc. cbn [addToGroup candidates]. now rewrite IH.
Qed.

Lemma filed_snoc title l c :
  filed title (l ++ [c])
  = filed title l ++ if String.eqb (titleOf c) title then [c] else [].
Proof. unfold filed. rewrite List.filter_app. reflexivity. Qed.

Lemma filed_none title l : title ∉ map titleOf l -> filed title l = [].
Proof.
  intros H. unfold filed. induction l as [| c l IH]; [reflexivity |].
  simpl. destruct (String.eqb_spec (titleOf c) title) as [E | E].
  - exfalso. apply H. simpl. rewrite E. left.
  - apply IH. intros Hin. apply H. simpl. now right.
Qed.

Lemma setOf_snoc (l : list string) x : setOf (l ++ [x]) = setAdd (setOf l) x.
Proof. unfold setOf. now rewrite foldl_app. Qed.

(** The [Map] of groups after the loop: one group per title in the
    order of first occurrence, built from the candidates of that title. *)
Lemma titleGroups_spec cands :
  foldl groupStep [] cands
  = map (fun title => built title (filed title cands)) (setOf (map titleOf cands)).
Proof.
  induction cands as [| c l IH] using rev_ind; [reflexivity |].
  rewrite foldl_app. cbn [foldl]. rewrite IH. clear IH.
  rewrite map_app. cbn [map]. rewrite setOf_snoc.
  set (titles := setOf (map titleOf l)).
  unfold groupStep. fold (titleOf c).
  assert (Hex : existsb (fun g => String.eqb (normalizedTitle g) (titleOf c))
                  (map (fun title => built title (filed title l)) titles)
                = has (titleOf c) titles).
  { apply eq_true_iff_eq. rewrite existsb_exists, has_true. split.
    - intros (g & Hg & E). apply list_elem_of_In, elem_of_map in Hg.
      destruct Hg as (title & <- & Ht).
      rewrite normalizedTitle_built in E. apply String.eqb_eq in E. now subst.
    - intros Ht. exists (built (titleOf c) (filed (titleOf c) l)). split.
      + apply list_elem_of_In, elem_of_map. eauto.
      + rewrite normalizedTitle_built. apply String.eqb_refl. }
  rewrite Hex. unfold setAdd.
  assert (Hold : forall ts,
            map (fun g => if String.eqb (normalizedTitle g) (titleOf c)
                          then addToGroup c g else g)
              (map (fun title => built title (filed title l)) ts)
            = map (fun title => built title (filed title (l ++ [c]))) ts).
  { intros ts. rewrite map_map. apply map_ext. intros title.
    rewrite normalizedTitle_built, filed_snoc, String.eqb_sym.
    destruct (String.eqb (titleOf c) title).
    - symmetry. apply built_snoc.
    - now rewrite app_nil_r. }
  destruct (has (titleOf c) titles) eqn:E; simpl.
  - exact (Hold titles).
  - rewrite !map_app, Hold. f_equal. cbn [map].
    rewrite String.eqb_refl, filed_snoc, String.eqb_refl.
    rewrite filed_none; [reflexivity |].
    apply has_false in E. intros Hin. apply E. unfold titles.
    now apply elem_of_setOf.
Qed.

Lemma elem_of_groupDuplicates cands g :
  g ∈ groupDuplicates cands <->
  exists title, title ∈ map titleOf cands /\ g = built title (filed title cands).
Proof.
  unfold groupDuplicates. rewrite elem_of_sort, titleGroups_spec, elem_of_map.
  split.
  - intros (title & <- & H). rewrite elem_of_setOf in H. exists title. now split.
  - intros (title & H & ->). exists title. split; [reflexivity |].
    now apply elem_of_setOf.
Qed.

(** *** The files and titles of a group *)

Lemma hasPath_spec p fs : hasPath p fs = true <-> p ∈ map path fs.
Proof.
  unfold hasPath. rewrite existsb_exists, elem_of_map. split.
  - intros (f & Hf & E). apply String.eqb_eq in E.
    exists f. split; [assumption | now apply list_elem_of_In].
  - intros (f & E & Hf). exists f.
    split; [now apply list_elem_of_In | now apply String.eqb_eq].
Qed.

Lemma pushFile_paths fs f p :
  p ∈ map path (pushFile fs f) <-> p ∈ map path fs \/ p = path f.
Proof.
  unfold pushFile. destruct (hasPath (path f) fs) eqn:E; simpl.
  - apply hasPath_spec in E. split; [auto | intros [H | ->]; assumption].
  - rewrite map_app, elem_of_app. simpl. rewrite list_elem_of_singleton. tauto.
Qed.

Lemma pushFile_NoDup fs f : NoDup (map path fs) -> NoDup (map path (pushFile fs f)).
Proof.
  intros H. unfold pushFile. destruct (hasPath (path f) fs) eqn:E; simpl;
    [assumption |].
  rewrite map_app. apply NoDup_app. repeat split; [assumption | | apply NoDup_singleton].
  intros p Hp Hq. simpl in Hq. apply list_elem_of_singleton in Hq. subst p.
  apply hasPath_spec in Hp. congruence.
Qed.

Lemma built_paths title cs p :
  p ∈ map path (files (built title cs)) <->
  exists c, c ∈ cs /\ (p = path (file1 c) \/ p = path (file2 c)).
Proof.
  induction cs as [| c cs IH] using rev_ind.
  - simpl. split; [intros H; inversion H | intros (c & H & _); inversion H].
  - rewrite built_snoc. cbn [addToGroup files].
    rewrite !pushFile_paths, IH. split.
    + intros [[(c0 & H0 & Hp) | ->] | ->].
      * exists c0. split; [apply elem_of_app; now left | exact Hp].
      * exists c. split; [apply elem_of_app; right; left | now left].
      * exists c. split; [apply elem_of_app; right; left | now right].
    + intros (c0 & H0 & Hp). apply elem_of_app in H0.
      destruct H0 as [H0 | H0]; [left; left; eauto |].
      apply list_elem_of_singleton in H0. subst c0. tauto.
Qed.

Lemma built_NoDup title cs : NoDup (map path (files (built title cs))).
Proof.
  induction cs as [| c cs IH] using rev_ind; [constructor |].
  rewrite built_snoc. cbn [addToGroup files]. now do 2 apply pushFile_NoDup.
Qed.

Lemma built_titles title cs x :
  x ∈ originalTitles (built title cs) <->
  exists c, c ∈ cs /\ (x = basename (file1 c) \/ x = basename (file2 c)).
Proof.
  induction cs as [| c cs IH] using rev_ind.
  - simpl. split; [intros H; inversion H | intros (c & H & _); inversion H].
  - rewrite built_snoc. cbn [addToGroup originalTitles].
    rewrite !elem_of_setAdd, IH. split.
    + intros [[(c0 & H0 & Hp) | ->] | ->].
      * exists c0. split; [apply elem_of_app; now left | exact Hp].
      * exists c. split; [apply elem_of_app; right; left | now left].
      * exists c. split; [apply elem_of_app; right; left | now right].
    + intros (c0 & H0 & Hp). apply elem_of_app in H0.
      destruct H0 as [H0 | H0]; [left; left; eauto |].
      apply list_elem_of_singleton in H0. subst c0. tauto.
Qed.

Lemma built_titles_NoDup title cs : NoDup (originalTitles (built title cs)).
Proof.
  induction cs as [| c cs IH] using rev_ind; [constructor |].
  rewrite built_snoc. cbn [addToGroup originalTitles]. now do 2 apply NoDup_setAdd.
Qed.

Lemma two_paths (ps : list string) a b :
  NoDup ps -> a ∈ ps -> b ∈ ps -> a <> b -> 2 <= length ps.
Proof.
  intros Hnd Ha Hb Hab. destruct ps as [| x [| y ps]]; simpl; [| | lia].
  - inversion Ha.
  - apply list_elem_of_singleton in Ha, Hb. congruence.
Qed.

Lemma built_two title cs c :
  c ∈ cs -> proper c -> 2 <= length (files (built title cs)).
Proof.
  intros Hc Hp. rewrite <- (length_map path).
  apply (two_paths _ (path (file1 c)) (path (file2 c))).
  - apply built_NoDup.
  - apply built_paths. eauto.
  - apply built_paths. eauto.
  - exact Hp.
Qed.

Lemma elem_of_filed title cands c :
  c ∈ filed title cands <-> c ∈ cands /\ titleOf c = title.
Proof. unfold filed. now rewrite elem_of_bfilter, String.eqb_eq. Qed.

Lemma filed_some title cands : title ∈ map titleOf cands -> filed title cands <> [].
Proof.
  intros H. apply elem_of_map in H. destruct H as (c & E & Hc).
  assert (Hin : c ∈ filed title cands) by now apply elem_of_filed.
  intros E0. rewrite E0 in Hin. inversion Hin.
Qed.

(** *** The order of the groups *)

Lemma sizeOf_le a b : (sizeOf b <= sizeOf a)%Q <-> length (files b) <= length (files a).
Proof. unfold sizeOf. rewrite <- Zle_Qle. lia. Qed.

Lemma Sorted_weaken {A} (R S : A -> A -> Prop) l :
  (forall x y, R x y -> S x y) -> Sorted R l -> Sorted S l.
Proof.
  intros H. induction 1 as [| x l Hl IH Hx]; constructor; [assumption |].
  destruct Hx; constructor. now apply H.
Qed.

Lemma groupDuplicates_sorted cands :
  Sorted (fun a b => length (files b) <= length (files a)) (groupDuplicates cands).
Proof.
  apply (Sorted_weaken (Stated.descending sizeOf)).
  - intros x y. apply sizeOf_le.
  - apply (sort_sorted sizeOf).
Qed.

(** Every candidate is filed once: the groups hold as many candidates as
    were given. *)
Lemma filed_cons_count c l (titles : list string) :
  NoDup titles ->
  length (concat (map (fun title => filed title (c :: l)) titles))
  = (if bool_decide (titleOf c ∈ titles) then 1 else 0)
    + length (concat (map (fun title => filed title l) titles)).
Proof.
  induction 1 as [| title titles Hnot Hnd IH]; [reflexivity |].
  cbn [map concat]. rewrite !length_app, IH. unfold filed at 1. cbn [List.filter].
  fold (filed title l).
  destruct (String.eqb (titleOf c) title) eqn:E.
  - apply String.eqb_eq in E. subst title.
    rewrite (bool_decide_eq_true_2 (titleOf c ∈ titleOf c :: titles)) by left.
    rewrite (bool_decide_eq_false_2 (titleOf c ∈ titles)) by assumption.
    cbn [length]. lia.
  - apply String.eqb_neq in E.
    destruct (bool_decide (titleOf c ∈ titles)) eqn:B.
    + apply bool_decide_eq_true_1 in B.
      rewrite (bool_decide_eq_true_2 (titleOf c ∈ title :: titles)) by now right.
      lia.
    + apply bool_decide_eq_false_1 in B.
      rewrite (bool_decide_eq_false_2 (titleOf c ∈ title :: titles)); [lia |].
      intros H. apply elem_of_cons in H. destruct H; [congruence | tauto].
Qed.

Lemma filed_count l (titles : list string) :
  NoDup titles -> (forall c, c ∈ l -> titleOf c ∈ titles) ->
  length (concat (map (fun title => filed title l) titles)) = length l.
Proof.
  intros Hnd. induction l as [| c l IH]; intros Hall.
  - clear. induction titles as [| t ts IH]; [reflexivity |].
    cbn [map concat]. rewrite length_app, IH. reflexivity.
  - rewrite filed_cons_count by assumption.
    rewrite bool_decide_eq_true_2 by (apply Hall; left).
    rewrite IH; [reflexivity |]. intros c' H. apply Hall. now right.
Qed.

Lemma groupDuplicates_count cands :
  length (concat (map candidates (groupDuplicates cands))) = length cands.
Proof.
  unfold groupDuplicates.
  assert (P : concat (map candidates (sort
                (fun a b => (inject_Z (Z.of_nat (length (files b)))
                             - inject_Z (Z.of_nat (length (files a))))%Q)
                (foldl groupStep [] cands)))
              ≡ₚ concat (map candidates (foldl groupStep [] cands)))
    by now rewrite sort_perm.
  rewrite P, titleGroups_spec, map_map.
  rewrite (map_ext _ (fun title => filed title cands))
    by (intros title; apply candidates_built).
  apply filed_count; [apply NoDup_setOf |].
  intros c Hc. apply elem_of_setOf, elem_of_map. now exists c.
Qed.

End GroupFacts.

(** X10. [groupDuplicates] partitions the candidates by the normalised
    title of their first file: the groups have pairwise different titles,
    the candidates of a group are the candidates of its title, none left out
    and in their order, so every candidate is in exactly one group and no
    group is empty; and the groups are ordered by descending number of
    files. *)
Theorem groupDuplicates_partitions (cands : list DuplicateCandidate) :
  NoDup (map normalizedTitle (Scanner.groupDuplicates cands))
  /\ (forall g, g ∈ Scanner.groupDuplicates cands ->
        candidates g = Grouping.filed (normalizedTitle g) cands
        /\ candidates g <> [])
  /\ (forall c, c ∈ cands ->
        exists g, g ∈ Scanner.groupDuplicates cands
                  /\ normalizedTitle g = Grouping.titleOf c /\ c ∈ candidates g)
  /\ Sorted (fun a b => length (files b) <= length (files a))
       (Scanner.groupDuplicates cands).
Proof.
  split; [| split; [| split]].
  - unfold Scanner.groupDuplicates.
    rewrite (ListFacts.sort_perm _ _), GroupFacts.titleGroups_spec, map_map.
    erewrite map_ext; [rewrite map_id; apply ListFacts.NoDup_setOf |].
    intros title. apply GroupFacts.normalizedTitle_built.
  - intros g Hg. apply GroupFacts.elem_of_groupDuplicates in Hg.
    destruct Hg as (title & Ht & ->).
    rewrite GroupFacts.normalizedTitle_built, GroupFacts.candidates_built.
    split; [reflexivity | now apply GroupFacts.filed_some].
  - intros c Hc.
    exists (Grouping.built (Grouping.titleOf c) (Grouping.filed (Grouping.titleOf c) cands)).
    split; [| split].
    + apply GroupFacts.elem_of_groupDuplicates. exists (Grouping.titleOf c).
      split; [| reflexivity]. apply ListFacts.elem_of_map. eauto.
    + apply GroupFacts.normalizedTitle_built.
    + rewrite GroupFacts.candidates_built. now apply GroupFacts.elem_of_filed.
  - apply GroupFacts.groupDuplicates_sorted.
Qed.

(** X11. In every group of [groupDuplicates] the files have pairwise
    different paths and are, by path, exactly the first and second files of
    the group's candidates; the original titles are exactly the names of
    those files, each once; and the group has at least two files as soon as
    one of its candidates is a pair of files with different paths. *)
Theorem groupDuplicates_members (cands : list DuplicateCandidate) :
  forall g, g ∈ Scanner.groupDuplicates cands ->
    NoDup (map path (files g))
    /\ (forall p, p ∈ map path (files g) <->
          exists c, c ∈ candidates g /\ (p = path (file1 c) \/ p = path (file2 c)))
    /\ (forall f, f ∈ files g ->
          exists c, c ∈ candidates g /\ (f = file1 c \/ f = file2 c))
    /\ NoDup (originalTitles g)
    /\ (forall x, x ∈ originalTitles g <->
          exists c, c ∈ candidates g
                    /\ (x = basename (file1 c) \/ x = basename (file2 c)))
    /\ (forall c, c ∈ candidates g -> Grouping.proper c -> 2 <= length (files g)).
Proof.
  intros g Hg. pose proof Hg as Hfiles.
  apply GroupFacts.elem_of_groupDuplicates in Hg. destruct Hg as (title & Ht & E).
  assert (Ec : candidates g = Grouping.filed title cands)
    by (rewrite E; apply GroupFacts.candidates_built).
  split; [| split; [| split; [| split; [| split]]]].
  - rewrite E. apply GroupFacts.built_NoDup.
  - intros p. rewrite Ec, E. apply GroupFacts.built_paths.
  - intros f Hf. rewrite Ec. rewrite E in Hf. clear Hfiles.
    revert Hf. generalize (Grouping.filed title cands). intros cs.
    induction cs as [| c cs IH] using rev_ind; [intros H; inversion H |].
    rewrite GroupFacts.built_snoc. cbn [Scanner.addToGroup files]. intros Hf.
    apply ScanFacts.pushFile_elem in Hf. destruct Hf as [Hf | ->].
    + apply ScanFacts.pushFile_elem in Hf. destruct Hf as [Hf | ->].
      * destruct (IH Hf) as (c0 & H0 & Hc0). exists c0.
        split; [apply elem_of_app; now left | exact Hc0].
      * exists c. split; [apply elem_of_app; right; left | now left].
    + exists c. split; [apply elem_of_app; right; left | now right].
  - rewrite E. apply GroupFacts.built_titles_NoDup.
  - intros x. rewrite Ec, E. apply GroupFacts.built_titles.
  - intros c Hc Hp. rewrite Ec in Hc. rewrite E.
    eapply GroupFacts.built_two; eassumption.
Qed.

Lemma groupDuplicates_members_witness :
  NoDup (map path (files pairGroup))
  /\ (forall p, p ∈ map path (files pairGroup) <->
        exists c, c ∈ candidates pairGroup
                  /\ (p = path (file1 c) \/ p = path (file2 c)))
  /\ (forall f, f ∈ files pairGroup ->
        exists c, c ∈ candidates pairGroup /\ (f = file1 c \/ f = file2 c))
  /\ NoDup (originalTitles pairGroup)
  /\ (forall x, x ∈ originalTitles pairGroup <->
        exists c, c ∈ candidates pairGroup
                  /\ (x = basename (file1 c) \/ x = basename (file2 c)))
  /\ (forall c, c ∈ candidates pairGroup -> Grouping.proper c ->
        2 <= length (files pairGroup)).
Proof.
  apply (groupDuplicates_members [mkCandidate notesA notesB 1 None None] pairGroup).
  vm_compute. left.
Defined.

(** ** Patterns and exclusion links *)

Module TrimFacts.
Import Char Str.

Lemma dropWhile_sub p s x : x ∈ dropWhile p s -> x ∈ s.
Proof.
  induction s as [| c s IH]; simpl; [auto |].
  destruct (p c); [| auto]. intros H. right. now apply IH.
Qed.

Lemma dropWhile_head p s :
  dropWhile p s = [] \/ exists c r, dropWhile p s = c :: r /\ p c = false.
Proof.
  induction s as [| c s IH]; simpl; [now left |].
  destruct (p c) eqn:E; [exact IH | right; eauto].
Qed.

Lemma dropWhile_suffix p s : exists before, s = before ++ dropWhile p s.
Proof.
  induction s as [| c s [before IH]]; simpl; [now exists [] |].
  destruct (p c); [| now exists []].
  exists (c :: before). simpl. now rewrite <- IH.
Qed.

Lemma dropWhile_stable p s : dropWhile p (dropWhile p s) = dropWhile p s.
Proof.
  induction s as [| c s IH]; simpl; [reflexivity |].
  destruct (p c) eqn:E; [exact IH |]. simpl. now rewrite E.
Qed.

Lemma elem_of_rev {A} (l : list A) x : x ∈ rev l <-> x ∈ l.
Proof. rewrite !list_elem_of_In. symmetry. apply in_rev. Qed.

Lemma trim_sub s x : x ∈ trim s -> x ∈ s.
Proof.
  unfold trim. rewrite elem_of_rev. intros H.
  apply dropWhile_sub in H. rewrite elem_of_rev in H.
  now apply dropWhile_sub in H.
Qed.

Lemma trim_idempotent s : trim (trim s) = trim s.
Proof.
  unfold trim. set (a := dropWhile isSpace s).
  set (b := dropWhile isSpace (rev a)).
  assert (Hb : dropWhile isSpace (rev b) = rev b).
  { destruct (rev b) as [| x r] eqn:E; [reflexivity |].
    destruct (dropWhile_suffix isSpace (rev a)) as [before Hpre]. fold b in Hpre.
    assert (Ha : a = (x :: r) ++ rev before).
    { rewrite <- E, <- rev_app_distr, <- Hpre. now rewrite rev_involutive. }
    destruct (dropWhile_head isSpace s) as [H0 | (c & r' & H0 & Hc)]; fold a in H0.
    - rewrite H0 in Ha. discriminate.
    - rewrite H0 in Ha. inversion Ha; subst c. simpl. now rewrite Hc. }
  rewrite Hb, rev_involutive. unfold b. now rewrite dropWhile_stable.
Qed.

(** A text that neither starts nor ends with white space is its own
    trimming. *)
Lemma trim_ends a m b :
  isSpace a = false -> isSpace b = false -> trim (a :: m ++ [b]) = a :: m ++ [b].
Proof.
  intros Ha Hb. unfold trim. cbn [dropWhile]. rewrite Ha.
  replace (rev (a :: m ++ [b])) with (b :: rev m ++ [a])
    by (simpl; now rewrite rev_app_distr).
  cbn [dropWhile]. rewrite Hb. simpl. rewrite rev_app_distr. simpl.
  now rewrite rev_involutive.
Qed.

End TrimFacts.

Module LinkFacts.
Import Char Str Js Scanner Links ListFacts TrimFacts.

(** Induction on parsed YAML values, with the items of an array. *)
Lemma Yaml_nested_ind (P : Yaml -> Prop) :
  (forall s, P (YString s)) ->
  (forall items, Forall P items -> P (YArray items)) ->
  P YOther ->
  forall v, P v.
Proof.
  intros Hs Ha Ho. fix IH 1. intros [s | items |].
  - apply Hs.
  - apply Ha. induction items as [| item items IHitems]; constructor;
      [apply IH | exact IHitems].
  - exact Ho.
Qed.

Lemma walk_array items : forall results,
  walk (YArray items) results = foldl (fun results item => walk item results) results items.
Proof. induction items as [| item items IH]; intros results; [reflexivity | apply IH]. Qed.

(** [walk] only appends to the results. *)
Lemma walk_app v : forall results, walk v results = results ++ walk v [].
Proof.
  induction v as [s | items IH |] using Yaml_nested_ind; intros results.
  - simpl. destruct (nonEmpty _); [reflexivity | now rewrite app_nil_r].
  - rewrite !walk_array. revert results.
    assert (Hgen : forall acc results,
              foldl (fun results item => walk item results) (results ++ acc) items
              = results ++ foldl (fun results item => walk item results) acc items).
    { induction IH as [| item items Hitem _ IHitems]; intros acc results;
        [reflexivity |].
      simpl. rewrite (Hitem (results ++ acc)), (Hitem acc), <- app_assoc.
      apply IHitems. }
    intros results. rewrite <- (app_nil_r results) at 1. apply Hgen.
  - simpl. now rewrite app_nil_r.
Qed.

Lemma parse_array items :
  parseExclusionTargets (YArray items) = concat (map parseExclusionTargets items).
Proof.
  unfold parseExclusionTargets. rewrite walk_array.
  induction items as [| item items IH]; [reflexivity |].
  simpl. rewrite <- IH. clear IH. generalize (walk item []). intros acc.
  revert acc. induction items as [| x items IH]; intros acc; simpl.
  - now rewrite app_nil_r.
  - rewrite (walk_app x acc), IH, (IH (walk x [])), app_assoc. reflexivity.
Qed.

Lemma beforePipe_free s : "|"%char ∉ beforePipe s.
Proof.
  induction s as [| c s IH]; simpl; [inversion 1 |].
  destruct (bool_decide (c = "|"%char)) eqn:E; [inversion 1 |].
  apply bool_decide_eq_false in E. intros H. apply elem_of_cons in H.
  destruct H as [H | H]; [congruence | now apply IH].
Qed.

Lemma cleanTarget_clean v :
  ("|"%char ∉ cleanTarget v) /\ trim (cleanTarget v) = cleanTarget v.
Proof.
  unfold cleanTarget. split; [| apply trim_idempotent].
  intros H. apply trim_sub in H. now apply beforePipe_free in H.
Qed.

Lemma nonEmpty_true s : nonEmpty s = true <-> s <> [].
Proof. destruct s; simpl; split; congruence. Qed.

Lemma targets_clean raw : forall target,
  target ∈ parseExclusionTargets raw ->
  ofString target <> [] /\ ("|"%char ∉ ofString target)
  /\ trim (ofString target) = ofString target.
Proof.
  induction raw as [s | items IH |] using Yaml_nested_ind; intros target.
  - unfold parseExclusionTargets. simpl.
    destruct (nonEmpty (cleanTarget s)) eqn:E; [| inversion 1].
    intros H. apply list_elem_of_singleton in H. subst target.
    rewrite ofString_toString. split; [now apply nonEmpty_true |].
    apply cleanTarget_clean.
  - rewrite parse_array. intros H. apply list_elem_of_In, in_concat in H.
    destruct H as (l & Hl & Ht). apply list_elem_of_In in Hl, Ht.
    apply elem_of_map in Hl. destruct Hl as (item & <- & Hitem).
    rewrite Forall_forall in IH. now apply (IH item).
  - inversion 1.
Qed.

(** *** The three ways of writing a target *)

Lemma beforePipe_plain name rest :
  Forall (fun c => c <> "|"%char /\ c <> "["%char /\ c <> "]"%char) name ->
  beforePipe (name ++ "|"%char :: rest) = name /\ beforePipe name = name.
Proof.
  induction 1 as [| c name (Hc & _) _ [IH1 IH2]]; simpl.
  - split; reflexivity.
  - rewrite bool_decide_false by assumption. now rewrite IH1, IH2.
Qed.

Lemma stripClose_wrapped r : stripClose (r ++ ofString "]]") = r.
Proof.
  unfold stripClose. rewrite rev_app_distr.
  change (rev (ofString "]]")) with (ofString "]]"). simpl.
  change (drop 0 (rev r)) with (rev r). now rewrite rev_involutive.
Qed.

Lemma stripOpen_plain name :
  Forall (fun c => c <> "|"%char /\ c <> "["%char /\ c <> "]"%char) name ->
  stripOpen name = name.
Proof.
  intros H. unfold stripOpen. destruct H as [| c name (_ & Hc & _) _];
    [reflexivity |].
  simpl. rewrite bool_decide_false by congruence. reflexivity.
Qed.

Lemma stripClose_plain name :
  Forall (fun c => c <> "|"%char /\ c <> "["%char /\ c <> "]"%char) name ->
  stripClose name = name.
Proof.
  intros H. unfold stripClose. apply List.Forall_rev in H.
  destruct H as [| c r (_ & _ & Hc) _]; [reflexivity |].
  simpl. rewrite bool_decide_false by congruence. reflexivity.
Qed.

Lemma trim_wrapped m : trim (ofString "[[" ++ m ++ ofString "]]") = ofString "[[" ++ m ++ ofString "]]".
Proof.
  replace (ofString "[[" ++ m ++ ofString "]]")
    with ("["%char :: ("["%char :: m ++ ["]"%char]) ++ ["]"%char])
    by (simpl; now rewrite <- app_assoc).
  now apply trim_ends.
Qed.

Lemma parse_string v :
  parseExclusionTargets (YString v)
  = if nonEmpty (cleanTarget v) then [toString (cleanTarget v)] else [].
Proof. reflexivity. Qed.


(** *** Resolved targets *)

Lemma resolveTargets_spec app targets p :
  p ∈ resolveTargets app targets <->
  p <> ""%string /\ exists target, target ∈ targets /\ resolveLink app target = Some p.
Proof.
  unfold resolveTargets.
  induction targets as [| x l IH] using rev_ind.
  - simpl. rewrite elem_of_empty. split; [tauto |].
    intros (_ & target & H & _). inversion H.
  - rewrite foldl_app. cbn [foldl].
    assert (Hsnoc : (exists target, target ∈ l ++ [x] /\ resolveLink app target = Some p)
                    <-> (exists target, target ∈ l /\ resolveLink app target = Some p)
                        \/ resolveLink app x = Some p).
    { split.
      - intros (target & H & E). apply elem_of_app in H. destruct H as [H | H].
        + left. eauto.
        + apply list_elem_of_singleton in H. subst. now right.
      - intros [(target & H & E) | E].
        + exists target. split; [apply elem_of_app; now left | exact E].
        + exists x. split; [apply elem_of_app; right; left | exact E]. }
    rewrite Hsnoc. destruct (resolveLink app x) as [q |] eqn:E.
    + destruct (String.eqb_spec q "") as [-> | Hq].
      * rewrite IH. split; [tauto |]. intros (Hp & [H | H]); [tauto | congruence].
      * rewrite elem_of_union, elem_of_singleton, IH. split.
        -- intros [(Hp & H) | ->]; [tauto | auto].
        -- intros (Hp & [H | H]); [tauto |]. right. congruence.
    + rewrite IH. split; [tauto |]. intros (Hp & [H | H]); [tauto | discriminate].
Qed.

(** *** The exclusion map *)

Lemma buildExclusionMap_snoc app files file :
  buildExclusionMap app (files ++ [file])
  = match declared app file with
    | Some resolved => <[path file := resolved]> (buildExclusionMap app files)
    | None => buildExclusionMap app files
    end.
Proof.
  unfold buildExclusionMap, declared. rewrite foldl_app. cbn [foldl].
  destruct (exclusionRaw app file); [| reflexivity].
  cbv zeta. now destruct (0 <? _).
Qed.

Lemma declared_nonempty app file set : declared app file = Some set -> set <> ∅.
Proof.
  unfold declared. destruct (exclusionRaw app file); [| discriminate].
  cbv zeta. destruct (0 <? _) eqn:E; [| discriminate].
  intros H. inversion H; subst. apply Nat.ltb_lt in E.
  intros He. rewrite He, size_empty in E. lia.
Qed.

Lemma buildExclusionMap_sound app files : forall key set,
  buildExclusionMap app files !! key = Some set ->
  exists file, file ∈ files /\ path file = key /\ declared app file = Some set.
Proof.
  induction files as [| file files IH] using rev_ind; intros key set.
  - unfold buildExclusionMap. simpl. rewrite lookup_empty. discriminate.
  - rewrite buildExclusionMap_snoc.
    assert (Hold : buildExclusionMap app files !! key = Some set ->
                   exists f, f ∈ files ++ [file] /\ path f = key
                             /\ declared app f = Some set).
    { intros H. destruct (IH _ _ H) as (f & Hf & E).
      exists f. split; [apply elem_of_app; now left | exact E]. }
    destruct (declared app file) as [resolved |] eqn:E; [| exact Hold].
    destruct (decide (key = path file)) as [-> | Hne].
    + rewrite lookup_insert_eq. intros H. inversion H; subst.
      exists file. split; [apply elem_of_app; right; left | auto].
    + rewrite lookup_insert_ne by congruence. exact Hold.
Qed.

Lemma buildExclusionMap_outside app files key :
  key ∉ map path files -> buildExclusionMap app files !! key = None.
Proof.
  intros H. destruct (buildExclusionMap app files !! key) as [set |] eqn:E;
    [| reflexivity].
  destruct (buildExclusionMap_sound _ _ _ _ E) as (file & Hf & <- & _).
  exfalso. apply H. apply elem_of_map. eauto.
Qed.

Lemma buildExclusionMap_complete app files :
  NoDup (map path files) ->
  forall file, file ∈ files ->
    buildExclusionMap app files !! path file = declared app file.
Proof.
  induction files as [| last files IH] using rev_ind; intros Hnd file Hin;
    [inversion Hin |].
  rewrite map_app in Hnd. apply NoDup_app in Hnd. destruct Hnd as (Hnd & Hsep & _).
  rewrite buildExclusionMap_snoc. apply elem_of_app in Hin.
  destruct Hin as [Hin | Hin].
  - assert (Hne : path file <> path last).
    { intros E. apply (Hsep (path file)); [apply elem_of_map; eauto |].
      simpl. rewrite E. left. }
    destruct (declared app last); [rewrite lookup_insert_ne by congruence |];
      now apply IH.
  - apply list_elem_of_singleton in Hin. subst file.
    destruct (declared app last) as [resolved |] eqn:E.
    + now rewrite lookup_insert_eq.
    + apply buildExclusionMap_outside. intros H. apply (Hsep (path last) H).
      simpl. left.
Qed.

End LinkFacts.

(** X12. [findByPattern] keeps, in their order, exactly the files whose
    name contains one of the patterns, letter case ignored on both sides;
    so no pattern keeps no file, and an empty pattern keeps every file. *)
Theorem findByPattern_matches (files : list TFile) (patterns : list string) :
  (forall f,
     f ∈ Scanner.findByPattern files patterns <->
     f ∈ files
     /\ exists pattern, pattern ∈ patterns
          /\ Paths.occursIn (Str.toLowerCase (ofString pattern))
               (Str.toLowerCase (ofString (basename f))))
  /\ sublist (Scanner.findByPattern files patterns) files
  /\ Scanner.findByPattern files [] = []
  /\ (""%string ∈ patterns -> Scanner.findByPattern files patterns = files).
Proof.
  assert (Hkeep : forall f,
            existsb (fun pattern =>
                       Scanner.includes pattern (Str.toLowerCase (ofString (basename f))))
              (map (fun p => Str.toLowerCase (ofString p)) patterns) = true
            <-> exists pattern, pattern ∈ patterns
                  /\ Paths.occursIn (Str.toLowerCase (ofString pattern))
                       (Str.toLowerCase (ofString (basename f)))).
  { intros f. rewrite existsb_exists. split.
    - intros (lowered & Hin & H). apply list_elem_of_In, ListFacts.elem_of_map in Hin.
      destruct Hin as (pattern & <- & Hp). exists pattern.
      split; [exact Hp | now apply PathFacts.includes_spec].
    - intros (pattern & Hp & H). exists (Str.toLowerCase (ofString pattern)).
      split; [| now apply PathFacts.includes_spec].
      apply list_elem_of_In, ListFacts.elem_of_map. eauto. }
  split; [| split; [| split]].
  - intros f. unfold Scanner.findByPattern. cbv zeta.
    now rewrite ListFacts.elem_of_bfilter, Hkeep.
  - apply PathFacts.bfilter_sublist_all.
  - unfold Scanner.findByPattern. simpl. induction files; [reflexivity | assumption].
  - intros Hblank. unfold Scanner.findByPattern. cbv zeta.
    apply ListFacts.bfilter_all. intros f _. apply Hkeep. exists ""%string.
    split; [exact Hblank |]. apply PathFacts.includes_spec, PathFacts.includes_empty.
Qed.

(** X13. [parseExclusionTargets] flattens nested arrays, in order: the
    targets of an array are the targets of its items one after the other; a
    string gives its cleaned text when that is not empty; any other value
    gives nothing.  No target returned is empty, none contains a vertical
    bar, and none starts or ends with white space. *)
Theorem parseExclusionTargets_flattens (raw : Yaml) (items : list Yaml) (v : string) :
  Scanner.parseExclusionTargets (YArray items)
  = concat (map Scanner.parseExclusionTargets items)
  /\ Scanner.parseExclusionTargets (YString v)
     = (if Str.nonEmpty (Scanner.cleanTarget v)
        then [toString (Scanner.cleanTarget v)] else [])
  /\ Scanner.parseExclusionTargets YOther = []
  /\ Forall (fun target =>
               target <> ""%string
               /\ ("|"%char ∉ ofString target)
               /\ Str.trim (ofString target) = ofString target)
       (Scanner.parseExclusionTargets raw).
Proof.
  split; [apply LinkFacts.parse_array | split; [reflexivity | split; [reflexivity |]]].
  apply Forall_forall. intros target H.
  destruct (LinkFacts.targets_clean raw target H) as (Hne & Hbar & Htrim).
  split; [| split; assumption]. intros ->. now apply Hne.
Qed.

(** X14. A target may be written plainly, as a wiki link, or as a wiki link
    with an alias: for a name that is not empty, has no white space at
    either end and none of the characters vertical bar and square brackets,
    the three writings give that one name. *)
Theorem parseExclusionTargets_link_forms (name alias : string)
    (plain : Links.plainName (ofString name)) :
  Scanner.parseExclusionTargets (YString name) = [name]
  /\ Scanner.parseExclusionTargets (YString ("[[" ++ name ++ "]]")) = [name]
  /\ Scanner.parseExclusionTargets (YString ("[[" ++ name ++ "|" ++ alias ++ "]]"))
     = [name].
Proof.
  destruct plain as (Hne & Htrim & Hchars).
  destruct (LinkFacts.beforePipe_plain (ofString name) (ofString alias) Hchars)
    as [Halias Hplain].
  assert (Hout : forall cleaned,
            cleaned = ofString name ->
            (if Str.nonEmpty cleaned then [toString cleaned] else []) = [name]).
  { intros cleaned ->. apply LinkFacts.nonEmpty_true in Hne. rewrite Hne.
    now rewrite toString_ofString. }
  rewrite !LinkFacts.parse_string. unfold Scanner.cleanTarget.
  split; [| split]; apply Hout.
  - rewrite Htrim, (LinkFacts.stripOpen_plain _ Hchars),
      (LinkFacts.stripClose_plain _ Hchars), Hplain. exact Htrim.
  - rewrite !CacheFacts.ofString_app, LinkFacts.trim_wrapped.
    change (Scanner.stripOpen (ofString "[[" ++ ofString name ++ ofString "]]"))
      with (ofString name ++ ofString "]]").
    rewrite LinkFacts.stripClose_wrapped, Hplain. exact Htrim.
  - rewrite !CacheFacts.ofString_app.
    replace (ofString "[[" ++ ofString name ++ ofString "|" ++ ofString alias
             ++ ofString "]]")
      with (ofString "[[" ++ (ofString name ++ "|"%char :: ofString alias)
            ++ ofString "]]")
      by (now rewrite <- !app_assoc).
    rewrite LinkFacts.trim_wrapped.
    change (Scanner.stripOpen
              (ofString "[[" ++ (ofString name ++ "|"%char :: ofString alias)
               ++ ofString "]]"))
      with ((ofString name ++ "|"%char :: ofString alias) ++ ofString "]]").
    rewrite LinkFacts.stripClose_wrapped, Halias. exact Htrim.
Qed.

Lemma parseExclusionTargets_link_forms_witness :
  Scanner.parseExclusionTargets (YString "b/Notes") = ["b/Notes"]%string
  /\ Scanner.parseExclusionTargets (YString ("[[" ++ "b/Notes" ++ "]]"))
     = ["b/Notes"]%string
  /\ Scanner.parseExclusionTargets
       (YString ("[[" ++ "b/Notes" ++ "|" ++ "the other one" ++ "]]"))
     = ["b/Notes"]%string.
Proof.
  apply (parseExclusionTargets_link_forms "b/Notes" "the other one").
  split; [discriminate | split; [reflexivity |]].
  repeat constructor; discriminate.
Defined.

(** X15. The exclusion map holds, under the path of a file, the set that a
    scanned file of that path declares: the paths, none of them empty, that
    its targets resolve to, and no entry when the file has no exclusion key
    or none of its targets resolves.  With pairwise different paths the map
    holds exactly what each scanned file declares, and nothing under any
    other path. *)
Theorem buildExclusionMap_declared (app : App) (files : list TFile) :
  (forall key set,
     Scanner.buildExclusionMap app files !! key = Some set ->
     set <> ∅
     /\ exists file, file ∈ files /\ path file = key /\ Links.declared app file = Some set)
  /\ (forall key, key ∉ map path files -> Scanner.buildExclusionMap app files !! key = None)
  /\ (NoDup (map path files) ->
      forall file, file ∈ files ->
        Scanner.buildExclusionMap app files !! path file = Links.declared app file)
  /\ (forall targets p,
        p ∈ Scanner.resolveTargets app targets <->
        p <> ""%string
        /\ exists target, target ∈ targets /\ Scanner.resolveLink app target = Some p).
Proof.
  split; [| split; [| split]].
  - intros key set H.
    destruct (LinkFacts.buildExclusionMap_sound _ _ _ _ H) as (file & Hf & E & Hd).
    split; [now apply (LinkFacts.declared_nonempty app file) | eauto].
  - apply LinkFacts.buildExclusionMap_outside.
  - apply LinkFacts.buildExclusionMap_complete.
  - apply LinkFacts.resolveTargets_spec.
Qed.

(** ** What a scan returns *)

Module OutputFacts.
Import Js ListFacts Async Scanner Index Positions IndexFacts RefineFacts ScanFacts.

Lemma processFile_ordered files t i file st :
  ordered files t i st -> files !! i = Some file ->
  ordered files t (S i) (processFile files t i file st).
Proof.
  intros [Hidx Hdups] Hfile. split.
  - intros w j Hj. unfold processFile in Hj. cbn [index] in Hj.
    apply insertIntoIndex_spec in Hj. destruct Hj as [Hj | [-> _]]; [| lia].
    specialize (Hidx w j Hj). lia.
  - intros c Hc. unfold processFile in Hc. cbn [duplicates] in Hc.
    rewrite scoreCandidates_omap in Hc. apply elem_of_app in Hc.
    destruct Hc as [Hc | Hc]; [now apply Hdups |].
    apply list_elem_of_omap in Hc. destruct Hc as (j & Hj & Hc).
    apply candidateIndices_spec in Hj. destruct Hj as (w & _ & Hj).
    specialize (Hidx w j Hj).
    destruct (_ !! j) as [ow |]; [| discriminate].
    destruct (files !! j) as [fj |] eqn:Ej; [| discriminate].
    destruct (geb _ t) eqn:Eg; [| discriminate]. inversion Hc; subst c.
    split; [| simpl; auto]. exists j, i. simpl. auto.
Qed.

(** The loop returns, cancelled or not, and every candidate it found is
    as the comparison leaves it. *)
Lemma titleLoop_ordered files t signal onProgress rest : forall i st task,
  ordered files t i st ->
  (forall k f, rest !! k = Some f -> files !! (i + k) = Some f) ->
  exists st' task',
    titleLoop files t signal onProgress rest i st task = (Ok st', task')
    /\ forall c, c ∈ duplicates st' -> fresh files t c.
Proof.
  induction rest as [| file rest IH]; intros i st task Hst Hrest; simpl.
  - exists st, task. split; [reflexivity | apply Hst].
  - unfold bind at 1, aborted at 1, gets.
    destruct (match signal with Some s => s (clock task) | None => false end).
    + exists st, task. split; [reflexivity | apply Hst].
    + unfold bind, yieldToEventLoop, suspend, modify. simpl.
      assert (Hnext : ordered files t (S i) (processFile files t i file st)).
      { apply processFile_ordered; [assumption |].
        specialize (Hrest 0 file eq_refl). now rewrite Nat.add_0_r in Hrest. }
      assert (Hrest' : forall k f, rest !! k = Some f -> files !! (S i + k) = Some f).
      { intros k f Hk. replace (S i + k) with (i + S k) by lia. now apply Hrest. }
      destruct onProgress; simpl; now apply IH.
Qed.

Lemma findTitleDuplicates_fresh files t signal onProgress task :
  exists out task',
    findTitleDuplicates files t signal onProgress task = (Ok out, task')
    /\ forall c, c ∈ out -> fresh files t c.
Proof.
  unfold findTitleDuplicates, bind.
  destruct (titleLoop_ordered files t signal onProgress files 0
              (mkIndexState [] ∅ ∅) task) as (st & task' & -> & Hst).
  - split.
    + intros w j. unfold bucket. cbn [index]. rewrite lookup_empty. simpl. inversion 1.
    + intros c. simpl. inversion 1.
  - intros k f H. exact H.
  - eexists _, task'. split; [reflexivity |].
    intros c Hc. apply elem_of_sort in Hc. now apply Hst.
Qed.

(** A candidate of a scan: what the title comparison found, and the
    verdict of the content comparison when there was one. *)
Local Abbreviation scanned := (fun (files : list TFile) (cfg : DuplicateReviewerSettings)
    (refine : bool) (c : DuplicateCandidate) =>
  inOrderOf files c
  /\ geb (titleSimilarity c) (titleSimilarityThreshold cfg) = true
  /\ (refine = false -> contentSimilarity c = None /\ likelyDuplicate c = None)
  /\ (refine = true ->
      likelyDuplicate c = Some (verdict (contentSimilarityThreshold cfg) c))).

Lemma refined_scanned app files cfg c :
  fresh files (titleSimilarityThreshold cfg) c ->
  scanned files cfg true
    (Refined.refined app (contentSimilarityThreshold cfg) (contentCharsToAnalyze cfg) c).
Proof.
  intros ((j & k & Hjk & Hj & Hk) & Hg & _).
  unfold Refined.refined, verdict.
  destruct (cachedRead app (file1 c)), (cachedRead app (file2 c)); simpl;
    (split; [exists j, k; auto |]); (split; [exact Hg |]);
    (split; [discriminate | reflexivity]).
Qed.

Lemma scanForDuplicates_candidates app folder cfg refine signal onProgress task :
  let files := collectMarkdownFiles app folder (ignoredFolders cfg) in
  exists cands task',
    scanForDuplicates app folder cfg refine signal onProgress task
    = (Ok (groupDuplicates cands), task')
    /\ forall c, c ∈ cands -> scanned files cfg refine c.
Proof.
  intros files. unfold scanForDuplicates. fold files.
  assert (Hnil : forall task0 : Task,
            exists cands task',
              (Ok ([] : list DuplicateGroup), task0)
              = (Ok (groupDuplicates cands), task')
              /\ forall c, c ∈ cands -> scanned files cfg refine c).
  { intros task0. exists [], task0. split; [reflexivity |].
    intros c Hc. inversion Hc. }
  destruct (length files <? 2); [apply Hnil |].
  unfold bind at 1.
  destruct (report_ok onProgress
              (mkProgress collecting (length files) (length files)) task)
    as [task1 ->].
  unfold bind at 1.
  destruct (findTitleDuplicates_fresh files (titleSimilarityThreshold cfg) signal
              onProgress task1) as (found & task2 & -> & Hfound).
  unfold bind at 1, aborted at 1, gets.
  destruct (match signal with Some s => s (clock task2) | None => false end);
    [apply Hnil |].
  set (kept := filterExcludedCandidates found _).
  assert (Hkept : forall c, c ∈ kept -> fresh files (titleSimilarityThreshold cfg) c).
  { intros c Hc. unfold kept, filterExcludedCandidates in Hc.
    apply elem_of_bfilter in Hc. now apply Hfound. }
  assert (Hrefined : exists cands task3,
            (if refine && (0 <? length kept)
             then refineWithContent app kept (contentSimilarityThreshold cfg)
                    (contentCharsToAnalyze cfg) signal onProgress
             else ret kept) task2 = (Ok cands, task3)
            /\ forall c, c ∈ cands -> scanned files cfg refine c).
  { destruct refine; simpl.
    - destruct (0 <? length kept) eqn:E.
      + destruct (refineWithContent_spec app (contentSimilarityThreshold cfg)
                    (contentCharsToAnalyze cfg) kept signal onProgress task2)
          as (n & task3 & E3 & _).
        eexists _, task3. split; [exact E3 |].
        intros c Hc. apply elem_of_sort, elem_of_map in Hc.
        destruct Hc as (c0 & <- & Hc0). apply refined_scanned, Hkept.
        now apply (subseteq_take n kept).
      + apply Nat.ltb_ge in E. exists kept, task2. split; [reflexivity |].
        intros c Hc. destruct kept; [inversion Hc | simpl in E; lia].
    - exists kept, task2. split; [reflexivity |].
      intros c Hc. destruct (Hkept c Hc) as (Ho & Hg & Hn).
      split; [exact Ho | split; [exact Hg | split; [auto | discriminate]]]. }
  destruct Hrefined as (cands & task3 & E & Hcands).
  unfold bind at 1. rewrite E.
  unfold bind at 1, aborted at 1, gets.
  destruct (match signal with Some s => s (clock task3) | None => false end);
    [apply Hnil |].
  unfold bind at 1.
  destruct (report_ok onProgress (mkProgress grouping 0 (length cands)) task3)
    as [task4 ->].
  unfold bind at 1.
  destruct (report_ok onProgress
              (mkProgress done (length (groupDuplicates cands))
                 (length (groupDuplicates cands))) task4) as [task5 ->].
  exists cands, task5. split; [reflexivity | exact Hcands].
Qed.

Lemma NoDup_paths_filter (f : TFile -> bool) l :
  NoDup (map path l) -> NoDup (map path (List.filter f l)).
Proof.
  induction l as [| x l IH]; simpl; [auto |].
  intros H. apply NoDup_cons in H. destruct H as [Hx Hl].
  destruct (f x); [| auto]. simpl. apply NoDup_cons. split; [| auto].
  intros Hin. apply Hx. apply elem_of_map in Hin. destruct Hin as (y & E & Hy).
  apply elem_of_bfilter in Hy. apply elem_of_map. exists y. tauto.
Qed.

End OutputFacts.

(** X16. The progress a scan reports when its signal is not aborted: with
    fewer than two files nothing, and the scan returns no group at once;
    otherwise one "collecting" event, one "comparing" event per file
    counting from 1 to the number of files, with content refinement one
    "refining" event per remaining candidate counting from 1, then
    "grouping" and, last, "done" with the number of groups returned.  The
    remaining candidates are those of the returned groups, each once. *)
Theorem scanForDuplicates_progress
    (app : App) (folder : TFolder) (cfg : DuplicateReviewerSettings) (refine : bool)
    (signal : option Async.AbortSignal) (task : Async.Task)
    (notCancelled : Index.quiet signal) :
  let n := length (Scanner.collectMarkdownFiles app folder (ignoredFolders cfg)) in
  (n < 2 ->
     Scanner.scanForDuplicates app folder cfg refine signal true task
     = (Async.Ok [], task))
  /\ (2 <= n ->
      exists groups task',
        Scanner.scanForDuplicates app folder cfg refine signal true task
        = (Async.Ok groups, task')
        /\ let m := length (concat (map candidates groups)) in
           Async.progress task'
           = Async.progress task
             ++ [mkProgress collecting n n]
             ++ map (fun k => mkProgress comparing (k + 1) n) (seq 0 n)
             ++ (if refine
                 then map (fun k => mkProgress refining (k + 1) m) (seq 0 m) else [])
             ++ [mkProgress grouping 0 m;
                 mkProgress done (length groups) (length groups)]).
Proof.
  intros n. unfold Scanner.scanForDuplicates.
  set (scanned := Scanner.collectMarkdownFiles app folder (ignoredFolders cfg)) in *.
  split.
  - intros Hn. apply Nat.ltb_lt in Hn. fold n. now rewrite Hn.
  - intros Hn. fold n. assert ((n <? 2) = false) as -> by (now apply Nat.ltb_ge).
    unfold Async.bind at 1. unfold Async.report at 1, Async.modify.
    unfold Async.bind at 1.
    rewrite RunFacts.findTitleDuplicates_progress by assumption.
    unfold Async.bind at 1. rewrite IndexFacts.aborted_quiet by assumption.
    set (kept := Scanner.filterExcludedCandidates _ _).
    set (task2 := Async.mkTask _ _).
    assert (Hrefined : exists cands task3,
              (if refine && (0 <? length kept)
               then Scanner.refineWithContent app kept (contentSimilarityThreshold cfg)
                      (contentCharsToAnalyze cfg) signal true
               else Async.ret kept) task2 = (Async.Ok cands, task3)
              /\ length cands = length kept
              /\ Async.progress task3
                 = Async.progress task2
                   ++ if refine
                      then map (fun k => mkProgress refining (k + 1) (length kept))
                             (seq 0 (length kept))
                      else []).
    { destruct refine; simpl.
      - destruct (0 <? length kept) eqn:E.
        + destruct (RunFacts.refineWithContent_progress app kept
                      (contentSimilarityThreshold cfg) (contentCharsToAnalyze cfg)
                      signal true task2 notCancelled) as (task3 & E3 & P3).
          eexists _, task3. split; [exact E3 |]. split; [| exact P3].
          now rewrite ListFacts.length_sort, length_map.
        + apply Nat.ltb_ge in E. assert (E0 : length kept = 0) by lia.
          exists kept, task2. rewrite E0. simpl. now rewrite app_nil_r.
      - exists kept, task2. now rewrite app_nil_r. }
    destruct Hrefined as (cands & task3 & E3 & Hlen & P3).
    unfold Async.bind at 1. rewrite E3.
    unfold Async.bind at 1. rewrite IndexFacts.aborted_quiet by assumption.
    unfold Async.bind, Async.report, Async.modify, Async.ret. simpl.
    eexists _, _. split; [reflexivity |]. cbv zeta.
    rewrite GroupFacts.groupDuplicates_count, Hlen. simpl.
    rewrite P3. unfold task2. simpl.
    rewrite <- !app_assoc. simpl. reflexivity.
Qed.

Lemma scanForDuplicates_progress_witness :
  let n := length (Scanner.collectMarkdownFiles smallVault Paths.root
                     (ignoredFolders DEFAULT_SETTINGS)) in
  (n < 2 ->
     Scanner.scanForDuplicates smallVault Paths.root DEFAULT_SETTINGS true None true
       (Async.mkTask 0 [])
     = (Async.Ok [], Async.mkTask 0 []))
  /\ (2 <= n ->
      exists groups task',
        Scanner.scanForDuplicates smallVault Paths.root DEFAULT_SETTINGS true None true
          (Async.mkTask 0 [])
        = (Async.Ok groups, task')
        /\ let m := length (concat (map candidates groups)) in
           Async.progress task'
           = Async.progress (Async.mkTask 0 [])
             ++ [mkProgress collecting n n]
             ++ map (fun k => mkProgress comparing (k + 1) n) (seq 0 n)
             ++ (if true
                 then map (fun k => mkProgress refining (k + 1) m) (seq 0 m) else [])
             ++ [mkProgress grouping 0 m;
                 mkProgress done (length groups) (length groups)]).
Proof.
  apply (scanForDuplicates_progress smallVault Paths.root DEFAULT_SETTINGS true None
           (Async.mkTask 0 [])).
  exact I.
Defined.

(** X17. A scan returns without throwing, cancelled or not, and every group
    it returns holds files collected for the folder only and has at least one
    candidate; every candidate pairs an earlier collected file with a later
    one and has a title similarity that reaches the threshold; without
    content refinement it carries no content score and no verdict, with it
    the verdict is whether the content score reaches the content threshold
    (false when a read failed).  In a vault whose files have pairwise
    different paths, every group has at least two files. *)
Theorem scanForDuplicates_output
    (app : App) (folder : TFolder) (cfg : DuplicateReviewerSettings) (refine : bool)
    (signal : option Async.AbortSignal) (onProgress : bool) (task : Async.Task) :
  let scanned := Scanner.collectMarkdownFiles app folder (ignoredFolders cfg) in
  exists groups task',
    Scanner.scanForDuplicates app folder cfg refine signal onProgress task
    = (Async.Ok groups, task')
    /\ forall g, g ∈ groups ->
         (forall f, f ∈ files g -> f ∈ scanned)
         /\ candidates g <> []
         /\ (forall c, c ∈ candidates g ->
               Positions.inOrderOf scanned c
               /\ Js.geb (titleSimilarity c) (titleSimilarityThreshold cfg) = true
               /\ (refine = false ->
                   contentSimilarity c = None /\ likelyDuplicate c = None)
               /\ (refine = true ->
                   likelyDuplicate c
                   = Some (Positions.verdict (contentSimilarityThreshold cfg) c)))
         /\ (NoDup (map path (getMarkdownFiles app)) -> 2 <= length (files g)).
Proof.
  intros scanned.
  destruct (OutputFacts.scanForDuplicates_candidates app folder cfg refine signal
              onProgress task) as (cands & task' & E & Hcands).
  fold scanned in Hcands.
  exists (Scanner.groupDuplicates cands), task'. split; [exact E |].
  intros g Hg. apply GroupFacts.elem_of_groupDuplicates in Hg.
  destruct Hg as (title & Htitle & ->).
  rewrite GroupFacts.candidates_built.
  assert (Hin : forall c, c ∈ Grouping.filed title cands -> c ∈ cands)
    by (intros c Hc; now apply GroupFacts.elem_of_filed in Hc).
  split; [| split; [now apply GroupFacts.filed_some | split]].
  - intros f Hf.
    revert Hf. generalize (Hin). generalize (Grouping.filed title cands).
    intros cs Hcs. induction cs as [| c cs IH] using rev_ind; [inversion 1 |].
    rewrite GroupFacts.built_snoc. cbn [Scanner.addToGroup files]. intros Hf.
    assert (Hc : c ∈ cands) by (apply Hcs, elem_of_app; right; left).
    destruct (Hcands c Hc) as ((j & k & _ & Hj & Hk) & _).
    apply ScanFacts.pushFile_elem in Hf. destruct Hf as [Hf | ->];
      [| eapply list_elem_of_lookup_2; eauto].
    apply ScanFacts.pushFile_elem in Hf. destruct Hf as [Hf | ->];
      [| eapply list_elem_of_lookup_2; eauto].
    apply IH; [| exact Hf]. intros c0 H0. apply Hcs, elem_of_app. now left.
  - intros c Hc. apply Hcands, Hin, Hc.
  - intros Hdistinct.
    pose proof (GroupFacts.filed_some title cands Htitle) as Hsome.
    destruct (Grouping.filed title cands) as [| c rest]; [congruence |].
    assert (Hc : c ∈ c :: rest) by left.
    apply (GroupFacts.built_two title _ c Hc).
    destruct (Hcands c (Hin c Hc)) as ((j & k & Hjk & Hj & Hk) & _).
    intros Epath.
    assert (j = k); [| lia].
    eapply (NaiveFacts.path_position scanned); eauto.
    unfold scanned, Scanner.collectMarkdownFiles.
    now apply OutputFacts.NoDup_paths_filter.
Qed.

(** ** The cache manager between scans *)

Module StoreFacts.
Import Js ListFacts Str Cache Fingerprint CacheFacts.

Lemma elem_of_cleared this folder d :
  d ∈ dirtyPaths (clearDirtyPathsForFolder this folder) <->
  d ∈ dirtyPaths this /\ ~ Stated.inScope folder d.
Proof.
  unfold clearDirtyPathsForFolder, Stated.inScope.
  destruct (String.eqb_spec folder "/") as [-> | Hne]; cbn [dirtyPaths].
  - rewrite elem_of_empty. tauto.
  - rewrite elem_of_filter, <- startsWith_scope.
    destruct (startsWith _ _); simpl; intuition congruence.
Qed.

Lemma entries_cleared this folder :
  entries (clearDirtyPathsForFolder this folder) = entries this.
Proof. unfold clearDirtyPathsForFolder. now destruct (String.eqb folder "/"). Qed.

Lemma dirtyInside_same this that entry :
  (forall d, Stated.inScope (folderPath entry) d ->
             d ∈ dirtyPaths this <-> d ∈ dirtyPaths that) ->
  dirtyInside this entry = dirtyInside that entry.
Proof.
  intros H. apply eq_true_iff_eq. rewrite !dirtyInside_spec.
  split; intros (d & Hd & Hin); exists d; (split; [now apply (H d Hin) | exact Hin]).
Qed.

Lemma isValid_same this that entry liveFiles cfg :
  (forall d, Stated.inScope (folderPath entry) d ->
             d ∈ dirtyPaths this <-> d ∈ dirtyPaths that) ->
  isValid this entry liveFiles cfg = isValid that entry liveFiles cfg.
Proof. intros H. rewrite !isValid_unfold. now rewrite (dirtyInside_same this that). Qed.

Lemma isValid_dirty this entry liveFiles cfg d :
  d ∈ dirtyPaths this -> Stated.inScope (folderPath entry) d ->
  isValid this entry liveFiles cfg = false.
Proof. intros Hd Hin. apply isValid_false. left. eauto. Qed.

Lemma deserialize_omap app entry :
  deserialize app entry
  = omap (fun sg =>
            let files := omap (getFileByPath app) (filePaths sg) in
            if length files <? 2 then None
            else Some (mkGroup (sg_normalizedTitle sg) (setOf (sg_originalTitles sg))
                         files []))
      (groups entry).
Proof.
  unfold deserialize. rewrite deserialize_from. simpl.
  induction (groups entry) as [| sg sgs IH]; [reflexivity |].
  cbn [omap list_omap]. unfold resolvePaths at 1 2. rewrite !resolvePaths_from. simpl.
  fold (omap (getFileByPath app) (filePaths sg)).
  destruct (length _ <? 2); [exact IH | now rewrite IH].
Qed.

(** *** The newest entry *)

Local Abbreviation stamp := (fun e : CacheEntry => scanTimestamp e).

Local Abbreviation newest := (fun (l : list (string * CacheEntry)) (i : nat)
    (e : CacheEntry) =>
  forall j k' e', l !! j = Some (k', e') ->
    (stamp e' <= stamp e)%N /\ (j < i -> (stamp e' < stamp e)%N)).

Lemma mostRecent_fold l :
  let '(ts, key) :=
    foldl (fun '(latestTimestamp, latestKey) '(key, entry) =>
             if (latestTimestamp <? Z.of_N (scanTimestamp entry))%Z
             then (Z.of_N (scanTimestamp entry), Some key)
             else (latestTimestamp, latestKey))
      ((-1)%Z, None) l in
  (l = [] /\ ts = (-1)%Z /\ key = None)
  \/ exists i k e, l !! i = Some (k, e) /\ key = Some k /\ ts = Z.of_N (stamp e)
                   /\ newest l i e.
Proof.
  induction l as [| [k0 e0] l IH] using rev_ind; [now left |].
  rewrite foldl_app. cbn [foldl].
  destruct (foldl _ _ l) as [ts key].
  destruct IH as [(-> & -> & ->) | (i & k & e & Hi & -> & -> & Hnew)].
  - assert ((-1 <? Z.of_N (scanTimestamp e0))%Z = true) as ->
      by (apply Z.ltb_lt; lia).
    right. simpl. exists 0, k0, e0.
    split; [reflexivity | split; [reflexivity | split; [reflexivity |]]].
    intros j k' e' H. destruct j; [| discriminate]. inversion H; subst. lia.
  - destruct (Z.of_N (stamp e) <? Z.of_N (stamp e0))%Z eqn:E; right.
    + apply Z.ltb_lt in E. exists (length l), k0, e0.
      split; [now rewrite lookup_app_r, Nat.sub_diag by lia |].
      split; [reflexivity | split; [reflexivity |]].
      intros j k' e' H. apply lookup_snoc_Some in H.
      destruct H as [[Hj H] | [-> H]].
      * destruct (Hnew _ _ _ H). lia.
      * inversion H; subst. lia.
    + apply Z.ltb_ge in E. exists i, k, e.
      split; [apply lookup_app_l_Some; exact Hi |].
      split; [reflexivity | split; [reflexivity |]].
      intros j k' e' H. apply lookup_snoc_Some in H.
      destruct H as [[Hj H] | [-> H]].
      * now apply (Hnew _ _ _ H).
      * inversion H; subst. split; [lia |].
        apply lookup_lt_Some in Hi. lia.
Qed.

Lemma lastBuilt_fold l :
  (l = [] /\ Recent.lastBuilt l = None)
  \/ exists m, Recent.lastBuilt l = Some m
               /\ (exists k e, (k, e) ∈ l /\ stamp e = m)
               /\ forall k e, (k, e) ∈ l -> (stamp e <= m)%N.
Proof.
  unfold Recent.lastBuilt.
  induction l as [| [k0 e0] l IH] using rev_ind; [now left |].
  rewrite foldl_app. cbn [foldl]. right.
  destruct IH as [[-> ->] | (m & -> & (k & e & He & Em) & Hmax)].
  - exists (stamp e0). simpl. split; [reflexivity | split].
    + exists k0, e0. split; [left | reflexivity].
    + intros k e H. apply list_elem_of_singleton in H. inversion H; subst. lia.
  - destruct (m <? stamp e0)%N eqn:E.
    + apply N.ltb_lt in E. exists (stamp e0). split; [reflexivity | split].
      * exists k0, e0. split; [apply elem_of_app; right; left | reflexivity].
      * intros k' e' H. apply elem_of_app in H. destruct H as [H | H].
        -- specialize (Hmax _ _ H). lia.
        -- apply list_elem_of_singleton in H. inversion H; subst. lia.
    + apply N.ltb_ge in E. exists m. split; [reflexivity | split].
      * exists k, e. split; [apply elem_of_app; now left | exact Em].
      * intros k' e' H. apply elem_of_app in H. destruct H as [H | H].
        -- now apply (Hmax _ _ H).
        -- apply list_elem_of_singleton in H. inversion H; subst. exact E.
Qed.

(** After [put] and the clearing of the scope's dirty paths the entry is
    valid for the same files and settings. *)
Lemma get_refreshed this app now scope liveFiles gs cfg :
  let stored := clearDirtyPathsForFolder (put this now scope liveFiles gs cfg) scope in
  let entry := mkEntry scope now (length liveFiles) (maxMtimeOf liveFiles)
                 (map serializeGroup gs)
                 (mkCacheSettings (titleSimilarityThreshold cfg)
                    (enableContentSimilarity cfg)
                    (contentSimilarityThreshold cfg)
                    (contentCharsToAnalyze cfg)) in
  get stored app scope liveFiles cfg = (Some (deserialize app entry), stored).
Proof.
  intros stored entry. unfold get.
  assert (E : entries stored !! scope = Some entry).
  { unfold stored. rewrite entries_cleared. unfold put.
    cbn [entries]. now rewrite lookup_insert_eq. }
  rewrite E.
  assert (V : isValid stored entry liveFiles cfg = true).
  { apply not_false_iff_true. intros H. apply isValid_false in H.
    destruct H as [(d & Hd & Hin) | [H | [H | H]]].
    - apply elem_of_cleared in Hd. now destruct Hd.
    - now apply H.
    - apply H. symmetry. apply maxMtimeOf_latest.
    - apply H. unfold Stated.sameConfig, Stated.recorded, Stated.current. simpl.
      repeat split; reflexivity. }
  now rewrite V.
Qed.

End StoreFacts.

(** X18. After a scan the orchestrator stores the result with [put] and
    then clears the dirty paths of the scope: whatever was dirty before, a
    [get] with the same files and settings then finds the entry valid and
    leaves the manager as it is; and when every stored group has at least two
    files, each resolvable by its path, the groups returned have the
    membership (by path) and the normalised titles of the stored ones. *)
Theorem put_clear_get_round_trip
    (this : Cache.CacheManager) (app : App) (now : N) (scope : string)
    (liveFiles : list TFile) (gs : list DuplicateGroup)
    (cfg : DuplicateReviewerSettings) :
  let stored :=
    Cache.clearDirtyPathsForFolder (Cache.put this now scope liveFiles gs cfg) scope in
  exists cached,
    Cache.get stored app scope liveFiles cfg = (Some cached, stored)
    /\ ((forall g, g ∈ gs ->
           2 <= length (files g) /\ Stated.resolvable app (files g)) ->
        Stated.membership cached = Stated.membership gs
        /\ map normalizedTitle cached = map normalizedTitle gs).
Proof.
  intros stored. unfold stored. rewrite StoreFacts.get_refreshed.
  eexists. split; [reflexivity |].
  intros members. now apply CacheFacts.deserialize_membership.
Qed.

(** X19. [clearDirtyPathsForFolder] removes exactly the dirty paths inside
    the folder (all of them for the root) and keeps the others and every
    entry; afterwards no dirty path invalidates an entry of that folder, and
    clearing again changes nothing. *)
Theorem clearDirtyPathsForFolder_effect (this : Cache.CacheManager) (folder : string) :
  Cache.entries (Cache.clearDirtyPathsForFolder this folder) = Cache.entries this
  /\ (forall d,
        d ∈ Cache.dirtyPaths (Cache.clearDirtyPathsForFolder this folder) <->
        d ∈ Cache.dirtyPaths this /\ ~ Stated.inScope folder d)
  /\ (forall entry, folderPath entry = folder ->
        Fingerprint.dirtyInside (Cache.clearDirtyPathsForFolder this folder) entry = false)
  /\ Cache.clearDirtyPathsForFolder (Cache.clearDirtyPathsForFolder this folder) folder
     = Cache.clearDirtyPathsForFolder this folder.
Proof.
  split; [apply StoreFacts.entries_cleared | split; [| split]].
  - intros d. apply StoreFacts.elem_of_cleared.
  - intros entry <-. apply not_true_iff_false. intros H.
    apply CacheFacts.dirtyInside_spec in H. destruct H as (d & Hd & Hin).
    apply StoreFacts.elem_of_cleared in Hd. now destruct Hd.
  - set (once := Cache.clearDirtyPathsForFolder this folder).
    assert (Hd : Cache.dirtyPaths (Cache.clearDirtyPathsForFolder once folder)
                 = Cache.dirtyPaths once).
    { apply set_eq. intros d. rewrite StoreFacts.elem_of_cleared. unfold once.
      rewrite StoreFacts.elem_of_cleared. tauto. }
    pose proof (StoreFacts.entries_cleared once folder) as He.
    destruct (Cache.clearDirtyPathsForFolder once folder) as [e1 d1], once as [e2 d2].
    simpl in *. now subst.
Qed.

(** X20. The vault's change events.  An event on a folder, or on a file
    that is not markdown, changes nothing.  A create, delete or modify event
    on a markdown file keeps every entry and makes invalid exactly the
    entries whose scope holds the file's path; a rename does so for the new
    and for the old path. *)
Theorem vault_events_invalidate_scopes (oldPath : string) (p : Main.Plugin) :
  (forall folder,
     Events.markDirty (Events.IsFolder folder) p = p
     /\ Events.onRename (Events.IsFolder folder) oldPath p = p)
  /\ (forall f extension, extension <> "md"%string ->
        Events.markDirty (Events.IsFile f extension) p = p
        /\ Events.onRename (Events.IsFile f extension) oldPath p = p)
  /\ (forall f entry liveFiles cfg,
        let after := Main.cacheManager (Events.markDirty (Events.IsFile f "md") p) in
        Cache.entries after = Cache.entries (Main.cacheManager p)
        /\ (Stated.inScope (folderPath entry) (path f) ->
            Cache.isValid after entry liveFiles cfg = false)
        /\ (~ Stated.inScope (folderPath entry) (path f) ->
            Cache.isValid after entry liveFiles cfg
            = Cache.isValid (Main.cacheManager p) entry liveFiles cfg))
  /\ (forall f entry liveFiles cfg,
        let after :=
          Main.cacheManager (Events.onRename (Events.IsFile f "md") oldPath p) in
        Cache.entries after = Cache.entries (Main.cacheManager p)
        /\ (Stated.inScope (folderPath entry) (path f)
            \/ Stated.inScope (folderPath entry) oldPath ->
            Cache.isValid after entry liveFiles cfg = false)
        /\ (~ Stated.inScope (folderPath entry) (path f)
            /\ ~ Stated.inScope (folderPath entry) oldPath ->
            Cache.isValid after entry liveFiles cfg
            = Cache.isValid (Main.cacheManager p) entry liveFiles cfg)).
Proof.
  split; [intros folder; split; reflexivity | split; [| split]].
  - intros f extension Hext. unfold Events.markDirty, Events.onRename.
    apply String.eqb_neq in Hext. rewrite Hext. split; reflexivity.
  - intros f entry liveFiles cfg after. unfold after. simpl.
    split; [reflexivity | split].
    + intros Hin. apply (StoreFacts.isValid_dirty _ _ _ _ (path f)); [| exact Hin].
      simpl. apply elem_of_union. right. now apply elem_of_singleton.
    + intros Hout. apply StoreFacts.isValid_same. intros d Hd. simpl.
      rewrite elem_of_union, elem_of_singleton. split; [intros [H | ->]; tauto | tauto].
  - intros f entry liveFiles cfg after. unfold after. simpl.
    split; [reflexivity | split].
    + intros [Hin | Hin].
      * apply (StoreFacts.isValid_dirty _ _ _ _ (path f)); [| exact Hin].
        simpl. rewrite !elem_of_union, !elem_of_singleton. tauto.
      * apply (StoreFacts.isValid_dirty _ _ _ _ oldPath); [| exact Hin].
        simpl. rewrite !elem_of_union, !elem_of_singleton. tauto.
    + intros [Hnew Hold]. apply StoreFacts.isValid_same. intros d Hd. simpl.
      rewrite !elem_of_union, !elem_of_singleton.
      split; [intros [[H | ->] | ->]; tauto | tauto].
Qed.

(** X21. A [get] that finds a valid entry returns its groups and leaves the
    manager unchanged.  A [get] that returns nothing leaves no entry under
    the key (a stale one is evicted), keeps every other entry and the dirty
    paths, and a second [get] then returns nothing again and changes
    nothing. *)
Theorem get_evicts_stale_entry
    (this : Cache.CacheManager) (app : App) (key : string)
    (liveFiles : list TFile) (cfg : DuplicateReviewerSettings) :
  (forall gs after,
     Cache.get this app key liveFiles cfg = (Some gs, after) ->
     after = this
     /\ exists entry, Cache.entries this !! key = Some entry
                      /\ Cache.isValid this entry liveFiles cfg = true
                      /\ gs = Cache.deserialize app entry)
  /\ (forall after,
        Cache.get this app key liveFiles cfg = (None, after) ->
        Cache.entries after = delete key (Cache.entries this)
        /\ Cache.dirtyPaths after = Cache.dirtyPaths this
        /\ Cache.get after app key liveFiles cfg = (None, after)).
Proof.
  unfold Cache.get. destruct (Cache.entries this !! key) as [entry |] eqn:E.
  - destruct (Cache.isValid this entry liveFiles cfg) eqn:V; simpl; split.
    + intros gs after H. inversion H; subst. split; [reflexivity | eauto].
    + intros after H. discriminate.
    + intros gs after H. discriminate.
    + intros after H. inversion H; subst. cbn [Cache.entries Cache.dirtyPaths].
      rewrite lookup_delete_eq. auto.
  - split; [intros gs after H; discriminate |].
    intros after H. inversion H; subst. rewrite E.
    split; [| auto]. symmetry. now apply delete_id.
Qed.

(** X22. The groups [deserialize] rebuilds from an entry: one for each
    stored group of which at least two paths still resolve to a file, in the
    stored order, holding the files its paths resolve to; so every group
    returned has at least two files, no candidates, and titles without
    repetition, and no more groups are returned than were stored. *)
Theorem deserialize_rebuilds (app : App) (entry : CacheEntry) :
  Cache.deserialize app entry
  = omap (fun sg =>
            let files := omap (getFileByPath app) (filePaths sg) in
            if length files <? 2 then None
            else Some (mkGroup (sg_normalizedTitle sg) (Js.setOf (sg_originalTitles sg))
                         files []))
      (groups entry)
  /\ Forall (fun g => 2 <= length (files g) /\ candidates g = []
                      /\ NoDup (originalTitles g))
       (Cache.deserialize app entry)
  /\ length (Cache.deserialize app entry) <= length (groups entry).
Proof.
  rewrite StoreFacts.deserialize_omap. split; [reflexivity |]. cbv zeta.
  induction (groups entry) as [| sg sgs [IH1 IH2]]; [split; [constructor | reflexivity] |].
  cbn [omap list_omap].
  destruct (length (omap (getFileByPath app) (filePaths sg)) <? 2) eqn:E.
  - split; [exact IH1 | cbn [length]; lia].
  - apply Nat.ltb_ge in E. split; [| cbn [length]; lia].
    constructor; [| exact IH1]. simpl.
    split; [exact E | split; [reflexivity | apply ListFacts.NoDup_setOf]].
Qed.

(** X23. [getMostRecentFolderPath] returns nothing exactly for a cache
    without entries, and otherwise the key of the entry with the greatest
    scan timestamp, the one inserted first among several with that
    timestamp; [lastBuilt] is the timestamp of that entry. *)
Theorem most_recent_is_first_newest (entries : list (string * CacheEntry)) :
  (Recent.getMostRecentFolderPath entries = None <-> entries = [])
  /\ (Recent.lastBuilt entries = None <-> entries = [])
  /\ forall key,
       Recent.getMostRecentFolderPath entries = Some key ->
       exists i entry,
         entries !! i = Some (key, entry)
         /\ Recent.lastBuilt entries = Some (scanTimestamp entry)
         /\ forall j key' entry',
              entries !! j = Some (key', entry') ->
              (scanTimestamp entry' <= scanTimestamp entry)%N
              /\ (j < i -> (scanTimestamp entry' < scanTimestamp entry)%N).
Proof.
  pose proof (StoreFacts.mostRecent_fold entries) as Hrecent.
  pose proof (StoreFacts.lastBuilt_fold entries) as Hlast.
  unfold Recent.getMostRecentFolderPath.
  destruct (foldl _ _ entries) as [ts latestKey].
  split; [| split].
  - destruct Hrecent as [(-> & _ & ->) | (i & k & e & Hi & -> & _)]; [tauto |].
    split; [discriminate | intros ->; discriminate].
  - destruct Hlast as [[-> ->] | (m & -> & (k & e & He & _) & _)]; [tauto |].
    split; [discriminate | intros ->; inversion He].
  - intros key Hkey. subst latestKey.
    destruct Hrecent as [(_ & _ & H) | (i & k & e & Hi & Hk & _ & Hnew)];
      [discriminate |].
    inversion Hk; subst k. exists i, e. split; [exact Hi | split; [| exact Hnew]].
    destruct Hlast as [[-> _] | (m & -> & (k' & e' & He' & Em) & Hmax)];
      [discriminate |].
    f_equal. apply list_elem_of_lookup_1 in He'. destruct He' as [j Hj].
    destruct (Hnew _ _ _ Hj) as [Hle _].
    assert (Hin : (key, e) ∈ entries) by (eapply list_elem_of_lookup_2; eauto).
    specialize (Hmax key e Hin). apply N.le_antisymm; lia.
Qed.

(** ** Dismissals: order of the paths, persistence *)

Module OrderFacts.
Import Js ListFacts Str Async Main Dismissal DismissalFacts.

Lemma code_inj a b : Char.code a = Char.code b -> a = b.
Proof.
  unfold Char.code. intros H.
  rewrite <- (ascii_nat_embedding a), <- (ascii_nat_embedding b). now rewrite H.
Qed.

(** The code-unit order is total: two texts neither of which sorts
    before the other are the same text. *)
Lemma ltb_total s : forall t, ltb s t = false -> ltb t s = false -> s = t.
Proof.
  induction s as [| a s IH]; intros [| b t]; simpl; try congruence.
  destruct (Char.code a <? Char.code b) eqn:E1; [discriminate |].
  destruct (Char.code b <? Char.code a) eqn:E2; [discriminate |].
  apply Nat.ltb_ge in E1, E2. intros H1 H2.
  assert (a = b) by (apply code_inj; lia). subst. f_equal. now apply IH.
Qed.

Lemma ltb_le_lt z : forall x y, ltb z x = false -> ltb z y = true -> ltb x y = true.
Proof.
  induction z as [| c z IH]; intros [| a x] [| b y]; simpl; try congruence.
  destruct (Char.code c <? Char.code a) eqn:E1; [discriminate |].
  apply Nat.ltb_ge in E1.
  destruct (Char.code a <? Char.code c) eqn:E2.
  - apply Nat.ltb_lt in E2. intros _.
    destruct (Char.code c <? Char.code b) eqn:E3.
    + apply Nat.ltb_lt in E3. intros _.
      assert ((Char.code a <? Char.code b) = true) as -> by (apply Nat.ltb_lt; lia).
      reflexivity.
    + apply Nat.ltb_ge in E3.
      destruct (Char.code b <? Char.code c) eqn:E4; [discriminate |].
      apply Nat.ltb_ge in E4. intros _.
      assert ((Char.code a <? Char.code b) = true) as -> by (apply Nat.ltb_lt; lia).
      reflexivity.
  - apply Nat.ltb_ge in E2. intros Hzx.
    destruct (Char.code c <? Char.code b) eqn:E3.
    + apply Nat.ltb_lt in E3. intros _.
      assert ((Char.code a <? Char.code b) = true) as -> by (apply Nat.ltb_lt; lia).
      reflexivity.
    + apply Nat.ltb_ge in E3.
      destruct (Char.code b <? Char.code c) eqn:E4; [discriminate |].
      apply Nat.ltb_ge in E4. intros Hzy.
      assert ((Char.code a <? Char.code b) = false) as -> by (apply Nat.ltb_ge; lia).
      assert ((Char.code b <? Char.code a) = false) as -> by (apply Nat.ltb_ge; lia).
      now apply (IH x y).
Qed.

Local Abbreviation before := (fun x y : string => ltb (ofString x) (ofString y)).

Lemma insertString_comm x y l :
  insertString x (insertString y l) = insertString y (insertString x l).
Proof.
  induction l as [| z l IH].
  - simpl. destruct (before y x) eqn:Eyx, (before x y) eqn:Exy; try reflexivity.
    + apply ltb_asym in Eyx. congruence.
    + f_equal; [| f_equal]; apply ofString_inj; now apply ltb_total.
  - cbn [insertString].
    destruct (before z y) eqn:Ezy, (before z x) eqn:Ezx; cbn [insertString];
      rewrite ?Ezy, ?Ezx.
    + now rewrite IH.
    + assert (before x y = true) as -> by (eapply ltb_le_lt; eassumption).
      cbn [insertString]. now rewrite ?Ezy.
    + assert (before y x = true) as -> by (eapply ltb_le_lt; eassumption).
      cbn [insertString]. now rewrite ?Ezx.
    + destruct (before y x) eqn:Eyx, (before x y) eqn:Exy; cbn [insertString];
        rewrite ?Ezy, ?Ezx; try reflexivity.
      * apply ltb_asym in Eyx. congruence.
      * assert (x = y) by (apply ofString_inj; now apply ltb_total).
        now subst.
Qed.

(** Sorting does not depend on the order of the input. *)
Lemma sortStrings_order l1 l2 : l1 ≡ₚ l2 -> sortStrings l1 = sortStrings l2.
Proof.
  unfold sortStrings. induction 1 as [| x l1 l2 _ IH | x y l | l1 l2 l3 _ IH1 _ IH2];
    simpl.
  - reflexivity.
  - now rewrite IH.
  - apply insertString_comm.
  - now rewrite IH1.
Qed.

Lemma dismissalKey_order l1 l2 : l1 ≡ₚ l2 -> dismissalKey l1 = dismissalKey l2.
Proof. intros H. unfold dismissalKey. now rewrite (sortStrings_order l1 l2). Qed.

(** *** Running the dismissal operations *)

Lemma dismissGroup_run paths p :
  dismissGroup paths p
  = (Ok tt,
     mkPlugin (settings p) (cacheManager p) (duplicateReviewView p) (scanControllers p)
       (dismissedGroups p ++ [sortStrings paths])
       (dismissedSet p ∪ {[ joinStrings NUL (sortStrings paths) ]})
       (mkData (duplicateCache (data p))
          (Some (dismissedGroups p ++ [sortStrings paths])))
       (notices p)
       (mkTask (S (S (clock (task p)))) (progress (task p)))).
Proof. reflexivity. Qed.

Lemma clearDismissals_run p :
  clearDismissals p
  = (Ok tt,
     mkPlugin (settings p) (cacheManager p) (duplicateReviewView p) (scanControllers p)
       [] ∅ (mkData (duplicateCache (data p)) (Some []))
       (notices p)
       (mkTask (S (S (clock (task p)))) (progress (task p)))).
Proof. reflexivity. Qed.

Lemma loadDismissals_run p :
  loadDismissals p
  = (Ok tt,
     rebuildDismissalSet
       (withDismissals (default (dismissedGroups p) (storedDismissedGroups (data p)))
          (dismissedSet p)
          (withTask (mkTask (S (clock (task p))) (progress (task p))) p))).
Proof.
  unfold loadDismissals, loadData, bind, onTask, zoom, suspend, modify, gets, ret.
  simpl. destruct (storedDismissedGroups (data p)); reflexivity.
Qed.

Lemma isDismissed_consistent p paths :
  consistent p ->
  isDismissed p paths = true <->
  exists group, group ∈ dismissedGroups p /\ dismissalKey group = dismissalKey paths.
Proof.
  intros H. unfold isDismissed. rewrite bool_decide_eq_true, H.
  rewrite elem_of_list_to_set, elem_of_map. split.
  - intros (group & E & Hin). eauto.
  - intros (group & Hin & E). eauto.
Qed.

End OrderFacts.

(** X24. Whether a group is dismissed does not depend on the order of its
    paths.  [dismissGroup] records the sorted paths after the dismissals
    already made and persists the whole list, leaving the cache section of
    the data and the cache manager alone; afterwards the paths are dismissed
    in any order, and so is everything that was dismissed before. *)
Theorem dismissal_ignores_order
    (paths reordered : list string) (p : Main.Plugin)
    (samePaths : paths ≡ₚ reordered) :
  Main.dismissalKey paths = Main.dismissalKey reordered
  /\ Main.isDismissed p paths = Main.isDismissed p reordered
  /\ exists p',
       Main.dismissGroup paths p = (Async.Ok tt, p')
       /\ Main.isDismissed p' reordered = true
       /\ (forall other, Main.isDismissed p other = true ->
                         Main.isDismissed p' other = true)
       /\ Main.dismissedGroups p' = Main.dismissedGroups p ++ [Js.sortStrings paths]
       /\ Main.storedDismissedGroups (Main.data p') = Some (Main.dismissedGroups p')
       /\ Main.duplicateCache (Main.data p') = Main.duplicateCache (Main.data p)
       /\ Main.cacheManager p' = Main.cacheManager p.
Proof.
  pose proof (OrderFacts.dismissalKey_order _ _ samePaths) as Ekey.
  split; [exact Ekey | split].
  - unfold Main.isDismissed. now rewrite Ekey.
  - rewrite OrderFacts.dismissGroup_run. eexists. split; [reflexivity |].
    unfold Main.isDismissed. simpl. repeat split.
    + apply bool_decide_eq_true. apply elem_of_union. right.
      apply elem_of_singleton. rewrite <- Ekey. reflexivity.
    + intros other H. apply bool_decide_eq_true in H. apply bool_decide_eq_true.
      apply elem_of_union. now left.
Qed.

Lemma dismissal_ignores_order_witness :
  Main.dismissalKey ["b/Notes.md"; "a/Notes.md"]%string
  = Main.dismissalKey ["a/Notes.md"; "b/Notes.md"]%string
  /\ Main.isDismissed idlePlugin ["b/Notes.md"; "a/Notes.md"]%string
     = Main.isDismissed idlePlugin ["a/Notes.md"; "b/Notes.md"]%string
  /\ exists p',
       Main.dismissGroup ["b/Notes.md"; "a/Notes.md"]%string idlePlugin
       = (Async.Ok tt, p')
       /\ Main.isDismissed p' ["a/Notes.md"; "b/Notes.md"]%string = true
       /\ (forall other, Main.isDismissed idlePlugin other = true ->
                         Main.isDismissed p' other = true)
       /\ Main.dismissedGroups p'
          = Main.dismissedGroups idlePlugin
            ++ [Js.sortStrings ["b/Notes.md"; "a/Notes.md"]%string]
       /\ Main.storedDismissedGroups (Main.data p') = Some (Main.dismissedGroups p')
       /\ Main.duplicateCache (Main.data p') = Main.duplicateCache (Main.data idlePlugin)
       /\ Main.cacheManager p' = Main.cacheManager idlePlugin.
Proof.
  apply (dismissal_ignores_order ["b/Notes.md"; "a/Notes.md"]%string
           ["a/Notes.md"; "b/Notes.md"]%string idlePlugin).
  apply perm_swap.
Defined.

(** X25. Dismissals survive a restart: when the lookup set agrees with the
    dismissal list, a plugin started on the data that [dismissGroup] saved
    loads the same list of dismissals and treats every list of paths as the
    plugin did after the dismissal; started on data without dismissals it
    keeps the list it has. *)
Theorem dismissals_survive_restart
    (paths : list string) (p restarted : Main.Plugin)
    (agree : Dismissal.consistent p) :
  exists p',
    Main.dismissGroup paths p = (Async.Ok tt, p')
    /\ (Main.data restarted = Main.data p' ->
        exists loaded,
          Main.loadDismissals restarted = (Async.Ok tt, loaded)
          /\ Main.dismissedGroups loaded = Main.dismissedGroups p'
          /\ Dismissal.consistent loaded
          /\ forall other, Main.isDismissed loaded other = Main.isDismissed p' other)
    /\ (Main.storedDismissedGroups (Main.data restarted) = None ->
        exists loaded,
          Main.loadDismissals restarted = (Async.Ok tt, loaded)
          /\ Main.dismissedGroups loaded = Main.dismissedGroups restarted
          /\ Dismissal.consistent loaded).
Proof.
  destruct (DismissalFacts.dismissGroup_consistent paths p agree)
    as (p' & E & Hcons & _).
  exists p'. split; [exact E | split].
  - intros Hdata. rewrite OrderFacts.loadDismissals_run. eexists.
    split; [reflexivity |].
    assert (Hstored : Main.storedDismissedGroups (Main.data p')
                      = Some (Main.dismissedGroups p')).
    { rewrite OrderFacts.dismissGroup_run in E. inversion E. reflexivity. }
    rewrite Hdata, Hstored.
    set (loaded := Main.rebuildDismissalSet _).
    assert (Hgroups : Main.dismissedGroups loaded = Main.dismissedGroups p')
      by reflexivity.
    assert (Hloaded : Dismissal.consistent loaded)
      by apply DismissalFacts.rebuildDismissalSet_consistent.
    split; [exact Hgroups | split; [exact Hloaded |]].
    intros other. unfold Main.isDismissed.
    unfold Dismissal.consistent in Hloaded, Hcons.
    now rewrite Hloaded, Hcons, Hgroups.
  - intros Hnone. rewrite OrderFacts.loadDismissals_run, Hnone. eexists.
    split; [reflexivity | split; [reflexivity |]].
    apply DismissalFacts.rebuildDismissalSet_consistent.
Qed.

Lemma dismissals_survive_restart_witness :
  exists p',
    Main.dismissGroup ["b/Notes.md"; "a/Notes.md"]%string idlePlugin = (Async.Ok tt, p')
    /\ (Main.data dismissingPlugin = Main.data p' ->
        exists loaded,
          Main.loadDismissals dismissingPlugin = (Async.Ok tt, loaded)
          /\ Main.dismissedGroups loaded = Main.dismissedGroups p'
          /\ Dismissal.consistent loaded
          /\ forall other, Main.isDismissed loaded other = Main.isDismissed p' other)
    /\ (Main.storedDismissedGroups (Main.data dismissingPlugin) = None ->
        exists loaded,
          Main.loadDismissals dismissingPlugin = (Async.Ok tt, loaded)
          /\ Main.dismissedGroups loaded = Main.dismissedGroups dismissingPlugin
          /\ Dismissal.consistent loaded).
Proof.
  apply (dismissals_survive_restart ["b/Notes.md"; "a/Notes.md"]%string idlePlugin
           dismissingPlugin).
  unfold Dismissal.consistent. simpl. apply set_eq. intros x.
  rewrite elem_of_empty. tauto.
Defined.

(** X26. [clearDismissals] empties the dismissal list and persists the
    empty list, leaving the cache section of the data and the cache manager
    alone; afterwards no list of paths is dismissed. *)
Theorem clearDismissals_forgets_all (p : Main.Plugin) :
  exists p',
    Main.clearDismissals p = (Async.Ok tt, p')
    /\ Main.dismissedGroups p' = []
    /\ (forall paths, Main.isDismissed p' paths = false)
    /\ (forall groups, Main.filterDismissedGroups p' groups = groups)
    /\ Main.storedDismissedGroups (Main.data p') = Some []
    /\ Main.duplicateCache (Main.data p') = Main.duplicateCache (Main.data p)
    /\ Main.cacheManager p' = Main.cacheManager p.
Proof.
  rewrite OrderFacts.clearDismissals_run. eexists. split; [reflexivity |].
  assert (Hnone : forall q paths,
            Main.dismissedSet q = ∅ -> Main.isDismissed q paths = false).
  { intros q paths Hq. unfold Main.isDismissed. rewrite Hq.
    apply bool_decide_eq_false. apply not_elem_of_empty. }
  split; [reflexivity | split; [| split; [| repeat split]]].
  - intros paths. now apply Hnone.
  - intros groups. unfold Main.filterDismissedGroups.
    apply ListFacts.bfilter_all. intros g _. now rewrite Hnone.
Qed.

(** ** The orchestration around a scan *)

Module FlowFacts.
Import Js ListFacts Async Main MainFacts.

Lemma cacheLoad_run p :
  cacheLoad p
  = (Ok tt,
     match duplicateCache (data p) with
     | Some stored =>
         withCache (Cache.mkCache (stored ∪ Cache.entries (cacheManager p))
                      (Cache.dirtyPaths (cacheManager p)))
           (withTask (mkTask (S (clock (task p))) (progress (task p))) p)
     | None => withTask (mkTask (S (clock (task p))) (progress (task p))) p
     end).
Proof.
  unfold cacheLoad, loadData, bind, onTask, zoom, suspend, modify, gets, ret. simpl.
  destruct (duplicateCache (data p)); reflexivity.
Qed.

(** The two [try] blocks when the signal is aborted as the scan returns:
    nothing but the task changes. *)
Lemma buildScan_late app now folder folderPath cacheKey signal p gs t' :
  Scanner.scanForDuplicates app folder (settings p)
    (enableContentSimilarity (settings p)) (Some signal) true (task p) = (Ok gs, t') ->
  signal (clock t') = true ->
  buildScan app now folder folderPath cacheKey signal p = (Ok tt, withTask t' p).
Proof.
  intros Hscan Hsig. unfold buildScan. rewrite bind_gets.
  rewrite (bind_onTask _ _ p gs t' Hscan).
  unfold bind, onTask, zoom, aborted, gets. cbn [task withTask]. now rewrite Hsig.
Qed.

Lemma reviewScan_late app now folder folderPath cacheKey fs signal p gs t' :
  Scanner.scanForDuplicates app folder (settings p)
    (enableContentSimilarity (settings p)) (Some signal) true (task p) = (Ok gs, t') ->
  signal (clock t') = true ->
  reviewScan app now folder folderPath cacheKey fs signal p = (Ok tt, withTask t' p).
Proof.
  intros Hscan Hsig. unfold reviewScan. rewrite bind_gets.
  rewrite (bind_onTask _ _ p gs t' Hscan).
  unfold bind, onTask, zoom, aborted, gets. cbn [task withTask]. now rewrite Hsig.
Qed.

(** The [try] block of the background build when the scan completes and
    the signal is not aborted afterwards. *)
Lemma buildScan_completed app now folder folderPath cacheKey signal p gs t' :
  Scanner.scanForDuplicates app folder (settings p)
    (enableContentSimilarity (settings p)) (Some signal) true (task p) = (Ok gs, t') ->
  signal (clock t') = false ->
  exists p',
    buildScan app now folder folderPath cacheKey signal p = (Ok tt, p')
    /\ cacheManager p'
       = Cache.clearDirtyPathsForFolder
           (Cache.put (cacheManager p) now cacheKey
              (Scanner.collectMarkdownFiles app folder (ignoredFolders (settings p)))
              gs (settings p)) cacheKey
    /\ data p' = mkData (Some (delete "__proto__"%string
                                  (Cache.entries (cacheManager p'))))
                   (storedDismissedGroups (data p))
    /\ duplicateReviewView p'
       = match duplicateReviewView p with
         | Some _ => Some (mkView (filterDismissedGroups p gs) folderPath false false)
         | None => None
         end
    /\ notices p' = notices p ++ [CacheBuilt folderPath (length gs) (totalFiles gs)]
    /\ scanControllers p' = scanControllers p
    /\ settings p' = settings p.
Proof.
  intros Hscan Hsig. unfold buildScan. rewrite bind_gets.
  rewrite (bind_onTask _ _ p gs t' Hscan).
  unfold bind at 1, onTask at 1, zoom, aborted, gets. cbn [task withTask].
  rewrite Hsig. rewrite !bind_modify, bind_cacheSave.
  unfold bind, onTask, zoom, suspend, modify, gets, setGroups, notice.
  unfold withNotices, withData, withTask, withCache, withView.
  cbn [duplicateReviewView settings cacheManager scanControllers dismissedGroups
       dismissedSet data notices task storedDismissedGroups].
  destruct (duplicateReviewView p); (eexists; split; [reflexivity |]);
    cbn [duplicateReviewView settings cacheManager scanControllers data notices];
    repeat split.
Qed.

(** The name under which a folder is shown. *)
Local Abbreviation shown := (fun folder : TFolder =>
  if String.eqb (folder_path folder) "/" then "Entire vault"%string
  else folder_path folder).

Lemma without_key (keys : gset string) key : key ∉ (keys ∪ {[ key ]}) ∖ {[ key ]}.
Proof. rewrite elem_of_difference, elem_of_singleton. tauto. Qed.

End FlowFacts.

(** X27. [CacheManager.save] writes the entries of the manager into the
    cache section of the data, all but one under the key [__proto__], which
    the plain object it fills cannot hold, and leaves the dismissals section
    alone; a manager without entries that then loads this data holds the
    entries written, with its own dirty paths: the entries of the saving
    manager when none has that key.  Loading data without a cache section
    changes nothing of the manager. *)
Theorem cache_persists_across_restart (p restarted : Main.Plugin) :
  exists p',
    Main.cacheSave p = (Async.Ok tt, p')
    /\ Main.duplicateCache (Main.data p')
       = Some (delete "__proto__"%string (Cache.entries (Main.cacheManager p)))
    /\ Main.storedDismissedGroups (Main.data p')
       = Main.storedDismissedGroups (Main.data p)
    /\ Main.cacheManager p' = Main.cacheManager p
    /\ (Main.data restarted = Main.data p' ->
        Cache.entries (Main.cacheManager restarted) = ∅ ->
        exists loaded,
          Main.cacheLoad restarted = (Async.Ok tt, loaded)
          /\ Cache.entries (Main.cacheManager loaded)
             = delete "__proto__"%string (Cache.entries (Main.cacheManager p))
          /\ (Cache.entries (Main.cacheManager p) !! "__proto__"%string = None ->
              Cache.entries (Main.cacheManager loaded)
              = Cache.entries (Main.cacheManager p))
          /\ Cache.dirtyPaths (Main.cacheManager loaded)
             = Cache.dirtyPaths (Main.cacheManager restarted)
          /\ Main.data loaded = Main.data restarted)
    /\ (Main.duplicateCache (Main.data restarted) = None ->
        exists loaded,
          Main.cacheLoad restarted = (Async.Ok tt, loaded)
          /\ Main.cacheManager loaded = Main.cacheManager restarted).
Proof.
  rewrite MainFacts.cacheSave_run. eexists. split; [reflexivity |].
  cbn [Main.data Main.duplicateCache Main.storedDismissedGroups Main.cacheManager].
  repeat split.
  - intros Hdata Hempty. rewrite FlowFacts.cacheLoad_run, Hdata.
    cbn [Main.duplicateCache].
    eexists. split; [reflexivity |].
    cbn [Main.cacheManager Main.withCache Main.withTask Cache.entries Cache.dirtyPaths
         Main.data].
    rewrite Hempty.
    assert (E : delete "__proto__"%string (Cache.entries (Main.cacheManager p)) ∪ ∅
                = delete "__proto__"%string (Cache.entries (Main.cacheManager p))).
    { apply map_eq. intros k. rewrite lookup_union_l; [reflexivity |].
      apply lookup_empty. }
    rewrite E. repeat split; [| now rewrite Hdata].
    intros Hnone. now apply delete_id.
  - intros Hnone. rewrite FlowFacts.cacheLoad_run, Hnone. eexists.
    split; reflexivity.
Qed.

(** X28. A review that finds a valid cache entry runs no scan and writes
    nothing: the pane shows the cached groups that are not dismissed, marked
    as cached, one notice tells the count, and the cache manager, the
    persisted data, the reported progress and the scans in flight are as
    before; the task was suspended once, for the pane. *)
Theorem review_cache_hit
    (app : App) (now : N) (folder : TFolder) (signal : Async.AbortSignal)
    (p : Main.Plugin) (cached : list DuplicateGroup) (view : Main.View)
    (hit : fst (Cache.get (Main.cacheManager p) app (folder_path folder)
                  (Scanner.collectMarkdownFiles app folder
                     (ignoredFolders (Main.settings p)))
                  (Main.settings p)) = Some cached)
    (paneOpen : Main.duplicateReviewView p = Some view) :
  let shown := if String.eqb (folder_path folder) "/" then "Entire vault"%string
               else folder_path folder in
  let visible := Main.filterDismissedGroups p cached in
  exists p',
    Main.startDuplicateReview app now folder signal p = (Async.Ok tt, p')
    /\ Main.duplicateReviewView p' = Some (Main.mkView visible shown false true)
    /\ Main.notices p'
       = Main.notices p
         ++ [if length visible =? 0 then Main.NoDuplicatesCached
             else Main.FoundCached (length visible) (Main.totalFiles visible)]
    /\ Main.cacheManager p' = Main.cacheManager p
    /\ Main.data p' = Main.data p
    /\ Main.scanControllers p' = Main.scanControllers p
    /\ Main.task p'
       = Async.mkTask (S (Async.clock (Main.task p))) (Async.progress (Main.task p)).
Proof.
  intros shown visible.
  destruct (Cache.get (Main.cacheManager p) app (folder_path folder)
              (Scanner.collectMarkdownFiles app folder (ignoredFolders (Main.settings p)))
              (Main.settings p)) as [r cm] eqn:Eget.
  simpl in hit. subst r.
  assert (Hcm : cm = Main.cacheManager p).
  { revert Eget. unfold Cache.get.
    destruct (Cache.entries _ !! _); [| discriminate].
    destruct (negb _); [discriminate |]. intros H. now inversion H. }
  subst cm. subst shown visible.
  destruct p as [cfg cm v ctrl groups set d n t]. simpl in *. subst v.
  unfold Main.startDuplicateReview, Main.activateView, Main.showScanning,
    Main.setGroups, Main.notice, Main.onTask, Async.zoom, Async.suspend,
    Async.bind, Async.modify, Async.gets.
  simpl. rewrite Eget. simpl.
  destruct (length _ =? 0); eexists; (split; [reflexivity |]); simpl;
    repeat split; reflexivity.
Qed.

Lemma review_cache_hit_witness :
  let shown := if String.eqb (folder_path Paths.root) "/" then "Entire vault"%string
               else folder_path Paths.root in
  let visible :=
    Main.filterDismissedGroups cachedPlugin
      [mkGroup "notes" ["Notes"]%string [notesA; notesB] []] in
  exists p',
    Main.startDuplicateReview smallVault 9 Paths.root (fun _ => false) cachedPlugin
    = (Async.Ok tt, p')
    /\ Main.duplicateReviewView p' = Some (Main.mkView visible shown false true)
    /\ Main.notices p'
       = Main.notices cachedPlugin
         ++ [if length visible =? 0 then Main.NoDuplicatesCached
             else Main.FoundCached (length visible) (Main.totalFiles visible)]
    /\ Main.cacheManager p' = Main.cacheManager cachedPlugin
    /\ Main.data p' = Main.data cachedPlugin
    /\ Main.scanControllers p' = Main.scanControllers cachedPlugin
    /\ Main.task p'
       = Async.mkTask (S (Async.clock (Main.task cachedPlugin)))
           (Async.progress (Main.task cachedPlugin)).
Proof.
  apply (review_cache_hit smallVault 9 Paths.root (fun _ => false) cachedPlugin
           [mkGroup "notes" ["Notes"]%string [notesA; notesB] []]
           (Main.mkView [] "" false false)).
  - vm_compute. reflexivity.
  - reflexivity.
Defined.

(** X29. Cancellation that arrives while a scan runs: whenever the signal
    is aborted by the time the scan returns, the scan returns no group, and
    the background build ends without a [put], a [save] or a change of the
    pane, its key no longer among the scans in flight.  The same holds for a
    review that missed the cache: the cache manager stays as the lookup left
    it, the data is unchanged, and the pane is left in its scanning
    state. *)
Theorem late_cancellation_writes_nothing
    (app : App) (now : N) (folder : TFolder) (signal : Async.AbortSignal)
    (p : Main.Plugin)
    (late : signal (Async.clock
                      (snd (Scanner.scanForDuplicates app folder (Main.settings p)
                              (enableContentSimilarity (Main.settings p)) (Some signal)
                              true (Main.task p)))) = true) :
  let shown := if String.eqb (folder_path folder) "/" then "Entire vault"%string
               else folder_path folder in
  let files := Scanner.collectMarkdownFiles app folder (ignoredFolders (Main.settings p)) in
  fst (Scanner.scanForDuplicates app folder (Main.settings p)
         (enableContentSimilarity (Main.settings p)) (Some signal) true (Main.task p))
  = Async.Ok []
  /\ (exists p',
        Main.buildCacheInBackground app now folder signal p = (Async.Ok tt, p')
        /\ Main.cacheManager p' = Main.cacheManager p
        /\ Main.data p' = Main.data p
        /\ Main.duplicateReviewView p' = Main.duplicateReviewView p
        /\ Main.notices p' = Main.notices p ++ [Main.BuildingCache shown]
        /\ folder_path folder ∉ Main.scanControllers p')
  /\ (forall cm started,
        Cache.get (Main.cacheManager p) app (folder_path folder) files (Main.settings p)
        = (None, cm) ->
        started = Async.mkTask (S (Async.clock (Main.task p)))
                    (Async.progress (Main.task p)) ->
        signal (Async.clock
                  (snd (Scanner.scanForDuplicates app folder (Main.settings p)
                          (enableContentSimilarity (Main.settings p)) (Some signal)
                          true started))) = true ->
        exists p',
          Main.startDuplicateReview app now folder signal p = (Async.Ok tt, p')
          /\ Main.cacheManager p' = cm
          /\ Main.data p' = Main.data p
          /\ Main.duplicateReviewView p'
             = match Main.duplicateReviewView p with
               | Some _ => Some (Main.mkView [] shown true false)
               | None => None
               end
          /\ Main.notices p' = Main.notices p ++ [Main.Scanning shown]
          /\ folder_path folder ∉ Main.scanControllers p').
Proof.
  intros shown files.
  destruct (RunFacts.scanForDuplicates_late app folder (Main.settings p)
              (enableContentSimilarity (Main.settings p)) (Some signal) true
              (Main.task p)) as (gs & t' & Escan & Hlate).
  rewrite Escan in late |- *. simpl in late. specialize (Hlate late). subst gs.
  split; [reflexivity | split].
  - unfold Main.buildCacheInBackground.
    rewrite MainFacts.bind_modify, MainFacts.bind_notice.
    unfold Async.tryFinally, Async.tryCatch.
    match goal with
    | |- context [Main.buildScan ?a ?n0 ?f ?fp ?k ?s ?q] =>
        rewrite (FlowFacts.buildScan_late a n0 f fp k s q [] t' Escan late)
    end.
    eexists. split; [reflexivity |]. simpl. repeat split.
    apply FlowFacts.without_key.
  - intros cm started Eget -> lateReview.
    destruct (RunFacts.scanForDuplicates_late app folder (Main.settings p)
                (enableContentSimilarity (Main.settings p)) (Some signal) true
                (Async.mkTask (S (Async.clock (Main.task p)))
                   (Async.progress (Main.task p)))) as (gs & t2 & Escan2 & Hlate2).
    rewrite Escan2 in lateReview. simpl in lateReview.
    specialize (Hlate2 lateReview). subst gs. subst shown files.
    destruct p as [cfg cm0 v ctrl groups set d n t]. simpl in *.
    unfold Main.startDuplicateReview, Main.activateView, Main.showScanning.
    rewrite (MainFacts.bind_onTask Async.suspend _ _ tt _ eq_refl).
    rewrite MainFacts.bind_modify, MainFacts.bind_gets.
    unfold Async.bind at 1.
    destruct v as [view |]; simpl; rewrite Eget; simpl.
    all: rewrite MainFacts.bind_modify, MainFacts.bind_notice.
    all: unfold Async.tryFinally, Async.tryCatch.
    all: match goal with
         | |- context [Main.reviewScan ?a ?n0 ?f ?fp ?k ?fs ?s ?q] =>
             rewrite (FlowFacts.reviewScan_late a n0 f fp k fs s q [] t2 Escan2
                        lateReview)
         end.
    all: eexists; split; [reflexivity |]; simpl; repeat split;
      apply FlowFacts.without_key.
Qed.

Lemma late_cancellation_writes_nothing_witness :
  let shown := if String.eqb (folder_path Paths.root) "/" then "Entire vault"%string
               else folder_path Paths.root in
  let files :=
    Scanner.collectMarkdownFiles smallVault Paths.root
      (ignoredFolders (Main.settings idlePlugin)) in
  fst (Scanner.scanForDuplicates smallVault Paths.root (Main.settings idlePlugin)
         (enableContentSimilarity (Main.settings idlePlugin)) (Some (abortedFrom 2))
         true (Main.task idlePlugin))
  = Async.Ok []
  /\ (exists p',
        Main.buildCacheInBackground smallVault 9 Paths.root (abortedFrom 2) idlePlugin
        = (Async.Ok tt, p')
        /\ Main.cacheManager p' = Main.cacheManager idlePlugin
        /\ Main.data p' = Main.data idlePlugin
        /\ Main.duplicateReviewView p' = Main.duplicateReviewView idlePlugin
        /\ Main.notices p' = Main.notices idlePlugin ++ [Main.BuildingCache shown]
        /\ folder_path Paths.root ∉ Main.scanControllers p')
  /\ (forall cm started,
        Cache.get (Main.cacheManager idlePlugin) smallVault (folder_path Paths.root)
          files (Main.settings idlePlugin)
        = (None, cm) ->
        started = Async.mkTask (S (Async.clock (Main.task idlePlugin)))
                    (Async.progress (Main.task idlePlugin)) ->
        abortedFrom 2
          (Async.clock
             (snd (Scanner.scanForDuplicates smallVault Paths.root
                     (Main.settings idlePlugin)
                     (enableContentSimilarity (Main.settings idlePlugin))
                     (Some (abortedFrom 2)) true started))) = true ->
        exists p',
          Main.startDuplicateReview smallVault 9 Paths.root (abortedFrom 2) idlePlugin
          = (Async.Ok tt, p')
          /\ Main.cacheManager p' = cm
          /\ Main.data p' = Main.data idlePlugin
          /\ Main.duplicateReviewView p'
             = match Main.duplicateReviewView idlePlugin with
               | Some _ => Some (Main.mkView [] shown true false)
               | None => None
               end
          /\ Main.notices p' = Main.notices idlePlugin ++ [Main.Scanning shown]
          /\ folder_path Paths.root ∉ Main.scanControllers p').
Proof.
  apply (late_cancellation_writes_nothing smallVault 9 Paths.root (abortedFrom 2)
           idlePlugin).
  vm_compute. reflexivity.
Defined.

(** X30. A background build that is not cancelled stores the groups of
    its scan under the folder's key, clears the dirty paths of the folder,
    and persists the entries the manager then holds, all but one under the
    key [__proto__], keeping the dismissals section; it tells the count in
    a notice, replaces what an open
    pane shows by the groups that are not dismissed, and removes its key
    from the scans in flight.  A lookup for the same files and settings
    right afterwards finds the entry valid. *)
Theorem background_build_persists
    (app : App) (now : N) (folder : TFolder) (signal : Async.AbortSignal)
    (p : Main.Plugin)
    (notCancelled : forall k, signal k = false) :
  let key := folder_path folder in
  let shown := if String.eqb key "/" then "Entire vault"%string else key in
  let files := Scanner.collectMarkdownFiles app folder (ignoredFolders (Main.settings p)) in
  exists gs p',
    fst (Scanner.scanForDuplicates app folder (Main.settings p)
           (enableContentSimilarity (Main.settings p)) (Some signal) true (Main.task p))
    = Async.Ok gs
    /\ Main.buildCacheInBackground app now folder signal p = (Async.Ok tt, p')
    /\ Main.cacheManager p'
       = Cache.clearDirtyPathsForFolder
           (Cache.put (Main.cacheManager p) now key files gs (Main.settings p)) key
    /\ Main.data p'
       = Main.mkData
           (Some (delete "__proto__"%string (Cache.entries (Main.cacheManager p'))))
           (Main.storedDismissedGroups (Main.data p))
    /\ Main.duplicateReviewView p'
       = match Main.duplicateReviewView p with
         | Some _ => Some (Main.mkView (Main.filterDismissedGroups p gs) shown false false)
         | None => None
         end
    /\ Main.notices p'
       = Main.notices p
         ++ [Main.BuildingCache shown;
             Main.CacheBuilt shown (length gs) (Main.totalFiles gs)]
    /\ (key ∉ Main.scanControllers p')
    /\ exists cached,
         Cache.get (Main.cacheManager p') app key files (Main.settings p)
         = (Some cached, Main.cacheManager p').
Proof.
  intros key shown files.
  destruct (RunFacts.scanForDuplicates_late app folder (Main.settings p)
              (enableContentSimilarity (Main.settings p)) (Some signal) true
              (Main.task p)) as (gs & t' & Escan & _).
  rewrite Escan. exists gs.
  unfold Main.buildCacheInBackground.
  rewrite MainFacts.bind_modify, MainFacts.bind_notice.
  unfold Async.tryFinally, Async.tryCatch.
  match goal with
  | |- context [Main.buildScan ?a ?n0 ?f ?fp ?k ?s ?q] =>
      destruct (FlowFacts.buildScan_completed a n0 f fp k s q gs t' Escan
                  (notCancelled _))
        as (p1 & -> & Hcm & Hdata & Hview & Hnotices & Hctrl & Hcfg)
  end.
  eexists. split; [reflexivity | split; [reflexivity |]].
  simpl in *. rewrite Hcm, Hdata, Hview, Hnotices, Hctrl.
  split; [reflexivity | split; [now rewrite Hcm |]].
  split; [reflexivity | split; [now rewrite <- app_assoc |]].
  split; [apply FlowFacts.without_key |].
  eexists. apply StoreFacts.get_refreshed.
Qed.

Lemma background_build_persists_witness :
  let key := folder_path Paths.root in
  let shown := if String.eqb key "/" then "Entire vault"%string else key in
  let files :=
    Scanner.collectMarkdownFiles smallVault Paths.root
      (ignoredFolders (Main.settings idlePlugin)) in
  exists gs p',
    fst (Scanner.scanForDuplicates smallVault Paths.root (Main.settings idlePlugin)
           (enableContentSimilarity (Main.settings idlePlugin))
           (Some (fun _ => false)) true (Main.task idlePlugin))
    = Async.Ok gs
    /\ Main.buildCacheInBackground smallVault 9 Paths.root (fun _ => false) idlePlugin
       = (Async.Ok tt, p')
    /\ Main.cacheManager p'
       = Cache.clearDirtyPathsForFolder
           (Cache.put (Main.cacheManager idlePlugin) 9 key files gs
              (Main.settings idlePlugin)) key
    /\ Main.data p'
       = Main.mkData
           (Some (delete "__proto__"%string (Cache.entries (Main.cacheManager p'))))
           (Main.storedDismissedGroups (Main.data idlePlugin))
    /\ Main.duplicateReviewView p'
       = match Main.duplicateReviewView idlePlugin with
         | Some _ =>
             Some (Main.mkView (Main.filterDismissedGroups idlePlugin gs) shown
                     false false)
         | None => None
         end
    /\ Main.notices p'
       = Main.notices idlePlugin
         ++ [Main.BuildingCache shown;
             Main.CacheBuilt shown (length gs) (Main.totalFiles gs)]
    /\ (key ∉ Main.scanControllers p')
    /\ exists cached,
         Cache.get (Main.cacheManager p') smallVault key files
           (Main.settings idlePlugin)
         = (Some cached, Main.cacheManager p').
Proof.
  apply (background_build_persists smallVault 9 Paths.root (fun _ => false)
           idlePlugin).
  reflexivity.
Defined.

(** ** Exclusion in a full scan *)

Module ExclusionFacts.
Import Scanner Links.




End ExclusionFacts.



(** In the vault of three notes of one title, the first listing the
    second, the pair of the two is no candidate of the group, which holds
    each of them paired with the third. *)
Example scan_of_three_with_exclusion :
  fst (Scanner.scanForDuplicates tripleVault (mkFolder "/") DEFAULT_SETTINGS false
         None true (Async.mkTask 0 []))
  = Async.Ok [mkGroup "notes" ["Notes"]%string [notesA; notesC; notesB]
                [mkCandidate notesA notesC 1 None None;
                 mkCandidate notesB notesC 1 None None]].
Proof. vm_compute. reflexivity. Qed.
